(** * PICTURE-HOSTING: the upload / list / delete pipeline of [server.js]

    A shallow embedding of the Express server in [src/server.js]: the
    JavaScript string helpers the handlers rely on, the two storage
    variants (local directory tree, S3 bucket) as an explicit world that
    the handlers thread through, and the three route handlers. *)

From Stdlib Require Import String Ascii List ZArith Lia Bool.
From Stdlib Require Import Strings.Byte DecimalString.
From Stdlib Require Import Sorting.Sorted Sorting.Permutation.
Import ListNotations.
Open Scope string_scope.
Open Scope Z_scope.

(** ** JavaScript string primitives used by the handlers *)

Module JS.

(** [s.slice(n)] for a non-negative [n]. *)
Fixpoint slice_from (n : nat) (s : string) : string :=
  match n, s with
  | O, _ => s
  | S _, EmptyString => EmptyString
  | S k, String _ t => slice_from k t
  end.

(** [s.startsWith(p)]. *)
Definition startsWith (p s : string) : bool := String.prefix p s.

Fixpoint rev_string (s acc : string) : string :=
  match s with
  | EmptyString => acc
  | String c t => rev_string t (String c acc)
  end.

(** [s.endsWith(p)]. *)
Definition endsWith (p s : string) : bool :=
  String.prefix (rev_string p "") (rev_string s "").

(** [StringIndexOf(s, pat, 0)], returned as the text before the first
    occurrence and the text after it; [None] stands for [-1]. *)
Fixpoint split_first (pat s : string) : option (string * string) :=
  if String.prefix pat s then Some ("", slice_from (String.length pat) s)
  else match s with
       | EmptyString => None
       | String c t =>
           match split_first pat t with
           | Some (before, after) => Some (String c before, after)
           | None => None
           end
       end.

(** [GetSubstitution] of ECMA-262 for a string pattern: there are no
    captures, so only [$$], [$&], [$`] and [$'] are expanded and every
    other [$] stays as it is. *)
Fixpoint GetSubstitution (matched before after template : string) : string :=
  match template with
  | EmptyString => EmptyString
  | String c t =>
      if Ascii.eqb c "$" then
        match t with
        | String d rest =>
            if Ascii.eqb d "$" then
              String "$" (GetSubstitution matched before after rest)
            else if Ascii.eqb d "&" then
              matched ++ GetSubstitution matched before after rest
            else if Ascii.eqb d "`" then
              before ++ GetSubstitution matched before after rest
            else if Ascii.eqb d "'" then
              after ++ GetSubstitution matched before after rest
            else String "$" (GetSubstitution matched before after t)
        | EmptyString => String "$" EmptyString
        end
      else String c (GetSubstitution matched before after t)
  end.

(** [s.replace(pat, template)] with a string [pat]: only the first
    occurrence is replaced. *)
Definition replace (pat template s : string) : string :=
  match split_first pat s with
  | None => s
  | Some (before, after) =>
      before ++ GetSubstitution pat before after template ++ after
  end.

(** [a || b] on strings: the empty string is falsy. *)
Definition or_else (a b : string) : string :=
  if String.eqb a "" then b else a.

(** [a || b] where [a] may be [undefined]. *)
Definition opt_or (a : option string) (b : string) : string :=
  match a with
  | Some s => or_else s b
  | None => b
  end.

(** Template interpolation of a possibly [undefined] value. *)
Definition show (a : option string) : string :=
  match a with
  | Some s => s
  | None => "undefined"
  end.

Definition hex_digit (n : nat) : ascii :=
  match n with
  | 0 => "0" | 1 => "1" | 2 => "2" | 3 => "3" | 4 => "4" | 5 => "5"
  | 6 => "6" | 7 => "7" | 8 => "8" | 9 => "9" | 10 => "A" | 11 => "B"
  | 12 => "C" | 13 => "D" | 14 => "E" | _ => "F"
  end%nat%char.

(** The characters [encodeURIComponent] leaves alone:
    [A-Z a-z 0-9 - _ . ! ~ * ' ( )]. *)
Definition uri_unreserved (c : ascii) : bool :=
  let n := nat_of_ascii c in
  ((65 <=? n) && (n <=? 90) || (97 <=? n) && (n <=? 122)
   || (48 <=? n) && (n <=? 57))%nat
  || existsb (Ascii.eqb c)
       ["-"; "_"; "."; "!"; "~"; "*"; "'"; "("; ")"]%char.

(** [encodeURIComponent] on a string held as its UTF-8 bytes. *)
Fixpoint encodeURIComponent (s : string) : string :=
  match s with
  | EmptyString => EmptyString
  | String c t =>
      if uri_unreserved c then String c (encodeURIComponent t)
      else
        let n := nat_of_ascii c in
        String "%" (String (hex_digit (n / 16)) (String (hex_digit (n mod 16))
               (encodeURIComponent t)))
  end.

End JS.

(** ** Node's [path] module (POSIX flavour) *)

Module Path.

(** Loop state of [path.extname]. *)
Record ExtScan := {
  startDot : Z;
  startPart : Z;
  end_ : Z;
  matchedSlash : bool;
  preDotState : Z
}.

(** The body of the [for (i = path.length - 1; i >= 0; --i)] loop of
    [extname], run over the characters from the last to the first. *)
Fixpoint extname_loop (rev_chars : list ascii) (i : Z) (st : ExtScan) : ExtScan :=
  match rev_chars with
  | [] => st
  | code :: more =>
      if Ascii.eqb code "/" then
        if negb (matchedSlash st) then
          {| startDot := startDot st; startPart := i + 1; end_ := end_ st;
             matchedSlash := matchedSlash st; preDotState := preDotState st |}
        else extname_loop more (i - 1) st
      else
        let st1 :=
          if end_ st =? -1 then
            {| startDot := startDot st; startPart := startPart st;
               end_ := i + 1; matchedSlash := false;
               preDotState := preDotState st |}
          else st in
        let st2 :=
          if Ascii.eqb code "." then
            if startDot st1 =? -1 then
              {| startDot := i; startPart := startPart st1; end_ := end_ st1;
                 matchedSlash := matchedSlash st1;
                 preDotState := preDotState st1 |}
            else if negb (preDotState st1 =? 1) then
              {| startDot := startDot st1; startPart := startPart st1;
                 end_ := end_ st1; matchedSlash := matchedSlash st1;
                 preDotState := 1 |}
            else st1
          else if negb (startDot st1 =? -1) then
            {| startDot := startDot st1; startPart := startPart st1;
               end_ := end_ st1; matchedSlash := matchedSlash st1;
               preDotState := -1 |}
          else st1 in
        extname_loop more (i - 1) st2
  end.

Definition extname (path : string) : string :=
  let chars := list_ascii_of_string path in
  let st := extname_loop (rev chars) (Z.of_nat (length chars) - 1)
              {| startDot := -1; startPart := 0; end_ := -1;
                 matchedSlash := true; preDotState := 0 |} in
  if (startDot st =? -1) || (end_ st =? -1) || (preDotState st =? 0)
     || ((preDotState st =? 1) && (startDot st =? end_ st - 1)
         && (startDot st =? startPart st + 1))
  then ""
  else String.substring (Z.to_nat (startDot st))
                        (Z.to_nat (end_ st - startDot st)) path.

(** Loop state of [path.basename] (no suffix argument). *)
Record BaseScan := {
  b_start : Z;
  b_end : Z;
  b_matchedSlash : bool
}.

Fixpoint basename_loop (rev_chars : list ascii) (i : Z) (st : BaseScan) : BaseScan :=
  match rev_chars with
  | [] => st
  | code :: more =>
      if Ascii.eqb code "/" then
        if negb (b_matchedSlash st) then
          {| b_start := i + 1; b_end := b_end st;
             b_matchedSlash := b_matchedSlash st |}
        else basename_loop more (i - 1) st
      else if b_end st =? -1 then
        basename_loop more (i - 1)
          {| b_start := b_start st; b_end := i + 1; b_matchedSlash := false |}
      else basename_loop more (i - 1) st
  end.

Definition basename (path : string) : string :=
  let chars := list_ascii_of_string path in
  let st := basename_loop (rev chars) (Z.of_nat (length chars) - 1)
              {| b_start := 0; b_end := -1; b_matchedSlash := true |} in
  if b_end st =? -1 then ""
  else String.substring (Z.to_nat (b_start st))
                        (Z.to_nat (b_end st - b_start st)) path.

End Path.

(** ** The thumbnail naming rule, as each handler writes it *)

(** Upload: [filename.replace(`.${ext}`, `_thumb.${ext}`)]. *)
Definition upload_thumb_name (ext filename : string) : string :=
  JS.replace ("." ++ ext) ("_thumb." ++ ext) filename.

(** List (local branch) and Delete (both branches):
    [ext = path.extname(f).slice(1)] then
    [f.replace(`.${ext}`, `_thumb.${ext}`)]. *)
Definition extname_thumb_name (f : string) : string :=
  let ext := JS.slice_from 1 (Path.extname f) in
  JS.replace ("." ++ ext) ("_thumb." ++ ext) f.

(** List (S3 branch): [file.replace('.', '_thumb.')]. *)
Definition s3_list_thumb_name (file : string) : string :=
  JS.replace "." "_thumb." file.

(** [s.includes(c)] for a single character. *)
Fixpoint has_char (c : ascii) (s : string) : bool :=
  match s with
  | EmptyString => false
  | String d t => Ascii.eqb d c || has_char c t
  end.

(** The rule the specification words: the marker goes immediately before
    the final extension segment, i.e. before the last dot. *)
Fixpoint insert_before_last_dot (s : string) : option string :=
  match s with
  | EmptyString => None
  | String c t =>
      match insert_before_last_dot t with
      | Some t' => Some (String c t')
      | None => if Ascii.eqb c "." then Some ("_thumb" ++ s) else None
      end
  end.

(** ** Configuration read at start-up (lines 23-31) *)

Definition Buffer := list byte.

Record Config := {
  dirname : list string;        (* segments of [__dirname] *)
  STORAGE : string;             (* already lower-cased *)
  BASE_URL : option string;
  MAX_FILE_SIZE : Z;
  ADMIN_KEY : string;
  AWS_BUCKET : option string;
  AWS_REGION : option string
}.

Definition UPLOAD_DIR (cfg : Config) : list string := dirname cfg ++ ["uploads"].
Definition THUMB_DIR (cfg : Config) : list string := UPLOAD_DIR cfg ++ ["thumbs"].

(** [ALLOWED.has(m)]. *)
Definition ALLOWED (m : string) : bool :=
  existsb (String.eqb m)
    ["image/jpeg"; "image/png"; "image/webp"; "image/gif"; "image/avif"].

(** ** The npm packages the upload handler calls

    [file-type], [mime-types] and [sharp] are not part of the repository:
    the handlers are parameterised by them. *)

Inductive Fit := cover | contain | fill | inside | outside.

(** The options object handed to [sharp(...).resize]; a field the caller
    leaves out is [None]. *)
Record ResizeOptions := {
  width : option Z;
  height : option Z;
  fit : option Fit;
  withoutEnlargement : option bool
}.

Record Libraries := {
  (* fileType.fromBuffer: [None] when no signature matches *)
  fromBuffer : Buffer -> option string;
  (* mime.extension: [None] for [false] *)
  mime_extension : string -> option string;
  (* sharp(buf).resize(opts).toBuffer(): [None] when it rejects *)
  sharp_resize : ResizeOptions -> Buffer -> option Buffer
}.

(** ** The storage both variants keep: a directory tree and a bucket *)

#[warnings="-register-all"]
Inductive node :=
| File (data : Buffer) (mtime : Z)
| Dir (entries : list (string * node)).

Record S3Object := {
  Key : string;
  Body : Buffer;
  ContentType : string;
  LastModified : Z
}.

Definition Size (o : S3Object) : Z := Z.of_nat (length (Body o)).

Inductive Error :=
| ENOENT | EISDIR | ENOTDIR
| BackendFault      (* an I/O or service failure injected by [faults] *)
| SharpError.

(** Backend requests, logged in the order they are issued. *)
Inductive Call :=
| WriteFile (path : list string)
| Unlink (path : list string)
| Readdir (path : list string)
| PutObject (key : string)
| DeleteObject (key : string)
| ListObjectsV2 (prefix : string).

Record World := {
  root : node;                  (* the file system, from [/] *)
  bucket : list S3Object;       (* in the order S3 lists it: by key *)
  clock : Z;                    (* milliseconds since the epoch *)
  faults : list bool;           (* [true]: the next backend request fails *)
  calls : list Call
}.

Definition set_root (w : World) (r : node) : World :=
  {| root := r; bucket := bucket w; clock := clock w;
     faults := faults w; calls := calls w |}.

Definition set_bucket (w : World) (b : list S3Object) : World :=
  {| root := root w; bucket := b; clock := clock w;
     faults := faults w; calls := calls w |}.

(** A backend request is logged and consumes one entry of [faults]. *)
Definition request (c : Call) (w : World) : bool * World :=
  (hd false (faults w),
   {| root := root w; bucket := bucket w; clock := clock w;
      faults := tl (faults w); calls := calls w ++ [c] |}).

(** *** Association lists: directory entries in [readdir] order *)

Section Assoc.
Context {A : Type}.

Fixpoint assoc_find (k : string) (l : list (string * A)) : option A :=
  match l with
  | [] => None
  | (k', v) :: t => if String.eqb k k' then Some v else assoc_find k t
  end.

Fixpoint assoc_set (k : string) (v : A) (l : list (string * A)) : list (string * A) :=
  match l with
  | [] => [(k, v)]
  | (k', v') :: t =>
      if String.eqb k k' then (k, v) :: t else (k', v') :: assoc_set k v t
  end.

Definition assoc_remove (k : string) (l : list (string * A)) : list (string * A) :=
  filter (fun e => negb (String.eqb k (fst e))) l.
End Assoc.

(** *** Paths *)

(** [str.split('/')]. *)
Fixpoint split_slash (s : string) (cur : string) : list string :=
  match s with
  | EmptyString => [JS.rev_string cur ""]
  | String c t =>
      if Ascii.eqb c "/" then JS.rev_string cur "" :: split_slash t ""
      else split_slash t (String c cur)
  end.

(** Normalisation of the segments of an absolute path: empty and [.]
    segments vanish, [..] drops the segment before it (and nothing at the
    root). [acc] holds the segments so far, last first. *)
Fixpoint normalize_segments (segs : list string) (acc : list string) : list string :=
  match segs with
  | [] => rev acc
  | s :: rest =>
      if String.eqb s "" || String.eqb s "." then normalize_segments rest acc
      else if String.eqb s ".." then normalize_segments rest (tl acc)
      else normalize_segments rest (s :: acc)
  end.

(** A resolved absolute path: its segments and whether it ends in [/]
    (which only a directory satisfies). *)
Record FsPath := { segments : list string; trailing_slash : bool }.

(** [path.join(dir, rel)] for an absolute, normalised [dir]. *)
Definition path_join (dir : list string) (rel : string) : FsPath :=
  {| segments := normalize_segments (split_slash rel "") (rev dir);
     trailing_slash := JS.endsWith "/" rel |}.

Fixpoint lookup (p : list string) (n : node) : option node :=
  match p with
  | [] => Some n
  | seg :: rest =>
      match n with
      | Dir es =>
          match assoc_find seg es with
          | Some child => lookup rest child
          | None => None
          end
      | File _ _ => None
      end
  end.

(** What [stat] finds at a path. *)
Definition resolve (p : FsPath) (n : node) : option node :=
  match lookup (segments p) n with
  | Some (File d m) => if trailing_slash p then None else Some (File d m)
  | other => other
  end.

Definition is_dir (n : node) : bool :=
  match n with Dir _ => true | File _ _ => false end.

(** Put [f] at path [p], creating or replacing the last segment. *)
Fixpoint write_at (p : list string) (f : node) (n : node) : Error + node :=
  match p, n with
  | [], _ => inl EISDIR
  | _, File _ _ => inl ENOTDIR
  | [name], Dir es =>
      match assoc_find name es with
      | Some (Dir _) => inl EISDIR
      | _ => inr (Dir (assoc_set name f es))
      end
  | seg :: rest, Dir es =>
      match assoc_find seg es with
      | Some child =>
          match write_at rest f child with
          | inr child' => inr (Dir (assoc_set seg child' es))
          | inl e => inl e
          end
      | None => inl ENOENT
      end
  end.

(** Remove the regular file at path [p]. *)
Fixpoint remove_at (p : list string) (n : node) : Error + node :=
  match p, n with
  | [], _ => inl EISDIR
  | _, File _ _ => inl ENOTDIR
  | [name], Dir es =>
      match assoc_find name es with
      | Some (File _ _) => inr (Dir (assoc_remove name es))
      | Some (Dir _) => inl EISDIR
      | None => inl ENOENT
      end
  | seg :: rest, Dir es =>
      match assoc_find seg es with
      | Some child =>
          match remove_at rest child with
          | inr child' => inr (Dir (assoc_set seg child' es))
          | inl e => inl e
          end
      | None => inl ENOENT
      end
  end.

(** ** Handlers run in a state-and-exception monad over the world *)

Inductive Outcome (A : Type) :=
| Ret (a : A)
| Throw (e : Error).
Arguments Ret {A} a.
Arguments Throw {A} e.

Definition M (A : Type) : Type := World -> Outcome A * World.

Definition ret {A} (a : A) : M A := fun w => (Ret a, w).
Definition throw {A} (e : Error) : M A := fun w => (Throw e, w).

Definition bind {A B} (m : M A) (k : A -> M B) : M B :=
  fun w =>
    match m w with
    | (Ret a, w') => k a w'
    | (Throw e, w') => (Throw e, w')
    end.

(** [try { m } catch (err) { h }]. *)
Definition try_catch {A} (m : M A) (h : Error -> M A) : M A :=
  fun w =>
    match m w with
    | (Ret a, w') => (Ret a, w')
    | (Throw e, w') => h e w'
    end.

Notation "x <- m ;; k" := (bind m (fun x => k))
  (at level 61, m at next level, right associativity).
Notation "m ;;; k" := (bind m (fun _ => k))
  (at level 61, right associativity).

(** A backend request that may fail before it takes effect. *)
Definition backend (c : Call) : M unit :=
  fun w =>
    let (failed, w') := request c w in
    if failed then (Throw BackendFault, w') else (Ret tt, w').

(** *** Local variant: [fs] *)

(** [fs.existsSync(p)]: never throws. *)
Definition existsSync (p : FsPath) : M bool :=
  fun w => (Ret (match resolve p (root w) with Some _ => true | None => false end), w).

(** [fs.promises.writeFile(p, data)]. A request is modelled as taking
    no time: the modification time the write stamps is the reading of
    the clock the handler got from [Date.now()], where the program
    stamps the file when the write happens, some time later. *)
Definition writeFile (p : FsPath) (data : Buffer) : M unit :=
  backend (WriteFile (segments p)) ;;;
  fun w =>
    if trailing_slash p then (Throw EISDIR, w)
    else match write_at (segments p) (File data (clock w)) (root w) with
         | inr r => (Ret tt, set_root w r)
         | inl e => (Throw e, w)
         end.

(** [fs.promises.unlink(p)]. *)
Definition unlink (p : FsPath) : M unit :=
  backend (Unlink (segments p)) ;;;
  fun w =>
    match resolve p (root w) with
    | None => (Throw ENOENT, w)
    | Some _ =>
        match remove_at (segments p) (root w) with
        | inr r => (Ret tt, set_root w r)
        | inl e => (Throw e, w)
        end
    end.

(** [fs.promises.readdir(p)]: the entry names. *)
Definition readdir (p : list string) : M (list string) :=
  backend (Readdir p) ;;;
  fun w =>
    match lookup p (root w) with
    | Some (Dir es) => (Ret (map fst es), w)
    | Some (File _ _) => (Throw ENOTDIR, w)
    | None => (Throw ENOENT, w)
    end.

(** [fs.lstatSync(p)] and [fs.promises.stat(p)] (symbolic links are not
    modelled, so the two agree). *)
Definition stat (p : FsPath) : M node :=
  fun w =>
    match resolve p (root w) with
    | Some n => (Ret n, w)
    | None => (Throw ENOENT, w)
    end.

(** *** Remote variant: [s3] *)

(** Store [o] under its key, replacing an object with the same key and
    keeping the bucket in key order. *)
Fixpoint bucket_put (o : S3Object) (b : list S3Object) : list S3Object :=
  match b with
  | [] => [o]
  | x :: t =>
      match String.compare (Key o) (Key x) with
      | Lt => o :: b
      | Eq => o :: t
      | Gt => x :: bucket_put o t
      end
  end.

Definition bucket_delete (k : string) (b : list S3Object) : list S3Object :=
  filter (fun x => negb (String.eqb k (Key x))) b.

Definition bucket_has (k : string) (b : list S3Object) : bool :=
  existsb (fun x => String.eqb k (Key x)) b.

(** [s3.putObject(params).promise()]; [LastModified] is read off the
    same clock as the time of a local write. *)
Definition putObject (key : string) (body : Buffer) (mimeType : string) : M unit :=
  backend (PutObject key) ;;;
  fun w =>
    (Ret tt,
     set_bucket w
       (bucket_put {| Key := key; Body := body; ContentType := mimeType;
                      LastModified := clock w |} (bucket w))).

(** [s3.deleteObject(params).promise()]: an absent key is not an error. *)
Definition deleteObject (key : string) : M unit :=
  backend (DeleteObject key) ;;;
  fun w => (Ret tt, set_bucket w (bucket_delete key (bucket w))).

(** [s3.listObjectsV2({Prefix}).promise()]: one page, at most 1000 keys,
    in key order. *)
Definition MaxKeys : nat := 1000.

Definition listObjectsV2 (prefix : string) : M (list S3Object) :=
  backend (ListObjectsV2 prefix) ;;;
  fun w =>
    (Ret (firstn MaxKeys (filter (fun o => JS.startsWith prefix (Key o)) (bucket w))), w).

(** ** Requests and replies *)

Record UploadedFile := {
  buffer : Buffer;
  mimetype : string             (* the type the client declared *)
}.

(** A value of [req.query]: absent, one string, or what [qs] builds from
    a repeated or bracketed parameter. *)
Inductive QueryValue :=
| QAbsent
| QString (s : string)
| QArray (l : list string).

Record Request := {
  x_forwarded_proto : option string;
  protocol : string;
  x_forwarded_host : option string;
  host : option string;                (* [req.get('host')] *)
  file : option UploadedFile;          (* [req.file], the field [image] *)
  random : string;   (* [Math.random().toString(36).slice(2)] of this request *)
  query_key : QueryValue;              (* [req.query.key] *)
  params_file : string                 (* [req.params.file] *)
}.

Record UploadMeta := {
  m_file : string;
  m_url : string;
  m_thumbnail : string;
  m_mime : string;
  m_size : Z;
  m_date : Z
}.

Record Entry := {
  e_file : string;
  e_url : string;
  e_thumbnail : string;
  e_size : Z;
  e_date : Z
}.

Inductive Payload :=
| ErrorBody (error : string)
| Uploaded (meta : UploadMeta)
| Listing (items : list Entry)
| OkBody.

Inductive MulterError := LIMIT_FILE_SIZE.

(** What a route answers: a JSON reply with its status, or an error that
    the middleware hands to [next] (no handler of this file sees it). *)
Inductive Reply :=
| Json (status : nat) (body : Payload)
| Next (err : MulterError).

(** [try { ... } catch (err) { return res.status(500).json(...) }]. *)
Definition catch500 (m : M Reply) : World -> Reply * World :=
  fun w =>
    match m w with
    | (Ret r, w') => (r, w')
    | (Throw _, w') => (Json 500 (ErrorBody "Server error"), w')
    end.

Definition Date_now : M Z := fun w => (Ret (clock w), w).

Definition show_Z (z : Z) : string :=
  DecimalString.NilZero.string_of_int (Z.to_int z).

Fixpoint mapM {A B} (f : A -> M B) (l : list A) : M (list B) :=
  match l with
  | [] => ret []
  | a :: t => b <- f a ;; bs <- mapM f t ;; ret (b :: bs)
  end.

Fixpoint filterM {A} (f : A -> M bool) (l : list A) : M (list A) :=
  match l with
  | [] => ret []
  | a :: t => keep <- f a ;; r <- filterM f t ;; ret (if keep then a :: r else r)
  end.

(** [s.replace(/\/$/, '')]. *)
Fixpoint strip_trailing_slash (s : string) : string :=
  match s with
  | EmptyString => EmptyString
  | String c t =>
      match t with
      | EmptyString => if Ascii.eqb c "/" then EmptyString else s
      | _ => String c (strip_trailing_slash t)
      end
  end.

Section Server.
Variable lib : Libraries.
Variable cfg : Config.

Definition is_s3 : bool := String.eqb (STORAGE cfg) "s3".

(** [`${proto}://${host}`] with the forwarded headers preferred
    (lines 73-75). *)
Definition request_origin (req : Request) : string :=
  JS.opt_or (x_forwarded_proto req) (protocol req) ++ "://"
  ++ JS.show (match x_forwarded_host req with
              | Some h => if String.eqb h "" then host req else Some h
              | None => host req
              end).

(** [getBaseUrl] (lines 71-76); an unset or empty [BASE_URL] is falsy. *)
Definition getBaseUrl (req : Request) : string :=
  match BASE_URL cfg with
  | Some b =>
      if String.eqb b "" then request_origin req else strip_trailing_slash b
  | None => request_origin req
  end.

Definition s3_host : string :=
  "https://" ++ JS.show (AWS_BUCKET cfg) ++ ".s3." ++ JS.show (AWS_REGION cfg)
  ++ ".amazonaws.com/".

(** [uploadBufferToS3] (lines 79-89). *)
Definition uploadBufferToS3 (buf : Buffer) (key mimeType : string) : M string :=
  putObject key buf mimeType ;;;
  ret (s3_host ++ JS.encodeURIComponent key).

(** *** POST /api/upload (lines 98-152) *)

(** [upload.single('image')] with [limits: { fileSize: MAX_FILE_SIZE }]:
    a file longer than the limit is refused before the handler runs. *)
Definition multer_single (req : Request) : MulterError + Request :=
  match file req with
  | Some f =>
      if MAX_FILE_SIZE cfg <? Z.of_nat (length (buffer f))
      then inl LIMIT_FILE_SIZE else inr req
  | None => inr req
  end.

(** [ft ? ft.mime : req.file.mimetype]. *)
Definition detect (f : UploadedFile) : string :=
  match fromBuffer lib (buffer f) with
  | Some m => m
  | None => mimetype f
  end.

(** [mime.extension(detected) || 'png']. *)
Definition upload_ext (detected : string) : string :=
  JS.opt_or (mime_extension lib detected) "png".

(** [{ width: 1024, height: 1024, fit: 'inside' }]. *)
Definition thumb_options : ResizeOptions :=
  {| width := Some 1024; height := Some 1024; fit := Some inside;
     withoutEnlargement := None |}.

Definition sharp (buf : Buffer) : M Buffer :=
  match sharp_resize lib thumb_options buf with
  | Some out => ret out
  | None => throw SharpError
  end.

(** The two writes, of the original and then of the thumbnail; on S3
    each yields the object's URL, locally the URLs are built after
    both writes. *)
Definition put_original (f : UploadedFile)
    (detected filename : string) : M string :=
  if is_s3 then uploadBufferToS3 (buffer f) ("images/" ++ filename) detected
  else
    writeFile (path_join (UPLOAD_DIR cfg) filename) (buffer f) ;;;
    ret "".

Definition put_thumbnail (thumbBuffer : Buffer)
    (detected thumbName : string) : M string :=
  if is_s3 then uploadBufferToS3 thumbBuffer ("images/" ++ thumbName) detected
  else
    writeFile (path_join (THUMB_DIR cfg) thumbName) thumbBuffer ;;;
    ret "".

Definition upload_try (req : Request) : M Reply :=
  match file req with
  | None => ret (Json 400 (ErrorBody "No file uploaded"))
  | Some f =>
      let detected := detect f in
      if negb (ALLOWED detected) then
        ret (Json 400 (ErrorBody "Unsupported file type"))
      else
        let ext := upload_ext detected in
        now <- Date_now ;;
        let filename := show_Z now ++ "-" ++ random req ++ "." ++ ext in
        let thumbName := upload_thumb_name ext filename in
        uploadDate <- Date_now ;;
        thumbBuffer <- sharp (buffer f) ;;
        u1 <- put_original f detected filename ;;
        u2 <- put_thumbnail thumbBuffer detected thumbName ;;
        let fileUrl :=
          if is_s3 then u1
          else getBaseUrl req ++ "/uploads/" ++ JS.encodeURIComponent filename in
        let thumbUrl :=
          if is_s3 then u2
          else getBaseUrl req ++ "/uploads/thumbs/"
               ++ JS.encodeURIComponent thumbName in
        ret (Json 200 (Uploaded
               {| m_file := filename; m_url := fileUrl; m_thumbnail := thumbUrl;
                  m_mime := detected;
                  m_size := Z.of_nat (length (buffer f));
                  m_date := uploadDate |}))
  end.

Definition upload_handler (req : Request) : World -> Reply * World :=
  catch500 (upload_try req).

Definition api_upload (req : Request) : World -> Reply * World :=
  match multer_single req with
  | inl e => fun w => (Next e, w)
  | inr req' => upload_handler req'
  end.

(** *** GET /api/list (lines 155-197) *)

Definition s3_entry (o : S3Object) : Entry :=
  let key := Key o in
  let file := Path.basename key in
  let thumb := s3_list_thumb_name file in
  {| e_file := file;
     e_url := s3_host ++ JS.encodeURIComponent key;
     e_thumbnail := s3_host ++ "images/" ++ JS.encodeURIComponent thumb;
     e_size := Size o;
     e_date := LastModified o |}.

Definition list_s3 : M Reply :=
  data <- listObjectsV2 "images/" ;;
  ret (Json 200 (Listing
    (rev (map s3_entry
            (filter (fun o => negb (JS.endsWith "/" (Key o))) data))))).

Definition node_size (n : node) : Z :=
  match n with
  | File d _ => Z.of_nat (length d)
  | Dir _ => 0
  end.

Definition node_mtime (n : node) : Z :=
  match n with
  | File _ t => t
  | Dir _ => 0
  end.

Definition local_entry (req : Request) (f : string) : M Entry :=
  st <- stat (path_join (UPLOAD_DIR cfg) f) ;;
  let thumb := extname_thumb_name f in
  ret {| e_file := f;
         e_url := getBaseUrl req ++ "/uploads/" ++ f;
         e_thumbnail := getBaseUrl req ++ "/uploads/thumbs/" ++ thumb;
         e_size := node_size st;
         e_date := node_mtime st |}.

(** [items.sort((a, b) => new Date(b.date) - new Date(a.date))]: the
    sort is stable, so the result is the one of a stable insertion
    sort. *)
Fixpoint insert_desc (x : Entry) (l : list Entry) : list Entry :=
  match l with
  | [] => [x]
  | y :: t => if e_date y <=? e_date x then x :: l else y :: insert_desc x t
  end.

Definition sort_desc (l : list Entry) : list Entry :=
  fold_right insert_desc [] l.

Definition list_local (req : Request) : M Reply :=
  files <- readdir (UPLOAD_DIR cfg) ;;
  images <- filterM
              (fun f => st <- stat (path_join (UPLOAD_DIR cfg) f) ;;
                        ret (negb (is_dir st)))
              (filter (fun f => negb (String.eqb f "thumbs")) files) ;;
  items <- mapM (local_entry req) images ;;
  ret (Json 200 (Listing (sort_desc items))).

Definition api_list (req : Request) : World -> Reply * World :=
  catch500 (if is_s3 then list_s3 else list_local req).

(** *** DELETE /api/delete/:file (lines 209-231) *)

(** [req.query.key || '']. *)
Definition supplied_key (req : Request) : QueryValue :=
  match query_key req with
  | QAbsent => QString ""
  | other => other
  end.

(** [key !== ADMIN_KEY]. *)
Definition differs (key : QueryValue) (secret : string) : bool :=
  match key with
  | QString s => negb (String.eqb s secret)
  | _ => true
  end.

Definition forbidden (req : Request) : bool :=
  negb (String.eqb (ADMIN_KEY cfg) "")
  && differs (supplied_key req) (ADMIN_KEY cfg).

(** [if (fs.existsSync(p)) await fs.promises.unlink(p)]. *)
Definition unlink_if_present (p : FsPath) : M unit :=
  present <- existsSync p ;;
  if present then unlink p else ret tt.

Definition delete_try (file : string) : M Reply :=
  (if is_s3 then
     deleteObject ("images/" ++ file) ;;;
     deleteObject ("images/" ++ extname_thumb_name file)
   else
     let fpath := path_join (UPLOAD_DIR cfg) file in
     unlink_if_present fpath ;;;
     let thumb := path_join (THUMB_DIR cfg) (extname_thumb_name file) in
     unlink_if_present thumb) ;;;
  ret (Json 200 OkBody).

Definition api_delete (req : Request) : World -> Reply * World :=
  if forbidden req then fun w => (Json 403 (ErrorBody "forbidden"), w)
  else catch500 (delete_try (params_file req)).

End Server.

(** ** Fixtures for the closed examples *)

Module Fixture.

(** A sniffer that knows the JPEG, PNG and GIF signatures, standing for
    [file-type] in the examples. *)
Definition sniff (b : Buffer) : option string :=
  match b with
  | xff :: xd8 :: xff :: _ => Some "image/jpeg"
  | x89 :: x50 :: x4e :: x47 :: x0d :: x0a :: x1a :: x0a :: _ => Some "image/png"
  | x47 :: x49 :: x46 :: _ => Some "image/gif"
  | _ => None
  end.

(** The [mime-db] extensions of the allowed types. *)
Definition extension (m : string) : option string :=
  if String.eqb m "image/jpeg" then Some "jpeg"
  else if String.eqb m "image/png" then Some "png"
  else if String.eqb m "image/webp" then Some "webp"
  else if String.eqb m "image/gif" then Some "gif"
  else if String.eqb m "image/avif" then Some "avif"
  else None.

(** A stand-in for the encoder: it accepts every non-empty buffer; the
    examples never look inside its output. *)
Definition reencode (_ : ResizeOptions) (b : Buffer) : option Buffer :=
  match b with
  | [] => None
  | _ => Some b
  end.

Definition lib : Libraries :=
  {| fromBuffer := sniff; mime_extension := extension; sharp_resize := reencode |}.

Definition local_cfg (secret : string) : Config :=
  {| dirname := ["srv"; "app"]; STORAGE := "local"; BASE_URL := None;
     MAX_FILE_SIZE := 5242880; ADMIN_KEY := secret;
     AWS_BUCKET := None; AWS_REGION := None |}.

Definition s3_cfg (secret : string) : Config :=
  {| dirname := ["srv"; "app"]; STORAGE := "s3"; BASE_URL := None;
     MAX_FILE_SIZE := 5242880; ADMIN_KEY := secret;
     AWS_BUCKET := Some "pics"; AWS_REGION := Some "eu-west-1" |}.

(** [GIF89a] followed by two bytes. *)
Definition gif_bytes : Buffer := [x47; x49; x46; x38; x39; x61; x01; x00].

(** An ELF header: no image signature. *)
Definition elf_bytes : Buffer := [x7f; x45; x4c; x46; x02; x01].

Definition http_request (f : option UploadedFile) (key : QueryValue)
    (name : string) : Request :=
  {| x_forwarded_proto := None; protocol := "http";
     x_forwarded_host := None; host := Some "localhost:3000";
     file := f; random := "k3j2x9"; query_key := key; params_file := name |}.

(** The tree after start-up: [uploads/] and [uploads/thumbs/], empty. *)
Definition fresh_tree : node :=
  Dir [("srv", Dir [("app", Dir [("uploads", Dir [("thumbs", Dir [])])])])].

(** The same tree once [uploads/thumbs] has been removed. *)
Definition tree_without_thumbs : node :=
  Dir [("srv", Dir [("app", Dir [("uploads", Dir [])])])].

Definition world (r : node) (b : list S3Object) : World :=
  {| root := r; bucket := b; clock := 1700000000000; faults := []; calls := [] |}.

End Fixture.

(** ** Predicates, scenarios and models used in the statements *)

(** Two lookups that find the same sort of thing: nothing, the same
    regular file, or a directory. *)
Inductive same_kind : option node -> option node -> Prop :=
| sk_none : same_kind None None
| sk_file d m : same_kind (Some (File d m)) (Some (File d m))
| sk_dir es es' : same_kind (Some (Dir es)) (Some (Dir es')).

Definition original_path (cfg : Config) (file : string) : FsPath :=
  path_join (UPLOAD_DIR cfg) file.

Definition thumbnail_path (cfg : Config) (file : string) : FsPath :=
  path_join (THUMB_DIR cfg) (extname_thumb_name file).

Definition dir_at (p : FsPath) (w : World) : bool :=
  match resolve p (root w) with
  | Some (Dir _) => true
  | _ => false
  end.

(** The id names an asset, stored or not: no backend failure is pending
    and, on disk, neither its path nor its thumbnail's path is a
    directory. *)
Definition deletable (cfg : Config) (file : string) (w : World) : Prop :=
  faults w = []
  /\ (is_s3 cfg = false ->
      is_dir (root w) = true
      /\ dir_at (original_path cfg file) w = false
      /\ dir_at (thumbnail_path cfg file) w = false).

(** Nothing is stored at the two places a Delete of [file] addresses:
    the original and the thumbnail under the name Delete itself derives.
    A tool of the proofs; where a statement says that a thumbnail is
    removed it names the thumbnail outright, with [removed]. *)
Definition gone (cfg : Config) (file : string) (w : World) : Prop :=
  if is_s3 cfg then
    bucket_has ("images/" ++ file) (bucket w) = false
    /\ bucket_has ("images/" ++ extname_thumb_name file) (bucket w) = false
  else
    resolve (original_path cfg file) (root w) = None
    /\ resolve (thumbnail_path cfg file) (root w) = None.

(** The name Upload gives the original: [`${Date.now()}-${random}.${ext}`]. *)
Definition upload_filename (lib : Libraries) (req : Request) (f : UploadedFile)
    (w : World) : string :=
  show_Z (clock w) ++ "-" ++ random req ++ "." ++ upload_ext lib (detect lib f).

Definition upload_thumbname (lib : Libraries) (req : Request) (f : UploadedFile)
    (w : World) : string :=
  upload_thumb_name (upload_ext lib (detect lib f)) (upload_filename lib req f w).

(** The body of a successful upload. *)
Definition upload_meta (lib : Libraries) (cfg : Config) (req : Request)
    (f : UploadedFile) (w : World) (u1 u2 : string) : UploadMeta :=
  {| m_file := upload_filename lib req f w;
     m_url := if is_s3 cfg then u1
              else getBaseUrl cfg req ++ "/uploads/"
                   ++ JS.encodeURIComponent (upload_filename lib req f w);
     m_thumbnail := if is_s3 cfg then u2
                    else getBaseUrl cfg req ++ "/uploads/thumbs/"
                         ++ JS.encodeURIComponent (upload_thumbname lib req f w);
     m_mime := detect lib f;
     m_size := Z.of_nat (length (buffer f));
     m_date := clock w |}.

Definition server_error : Reply := Json 500 (ErrorBody "Server error").
Definition unsupported : Reply := Json 400 (ErrorBody "Unsupported file type").

(** The backend request one write of Upload issues. *)
Definition put_call (cfg : Config) (dir : list string) (name : string) : Call :=
  if is_s3 cfg then PutObject ("images/" ++ name)
  else WriteFile (segments (path_join dir name)).

(** The original's bytes sit under its name in the active variant. *)
Definition original_stored (cfg : Config) (name : string) (data : Buffer)
    (w : World) : Prop :=
  if is_s3 cfg then
    exists o, In o (bucket w) /\ Key o = "images/" ++ name /\ Body o = data
  else
    exists m, resolve (path_join (UPLOAD_DIR cfg) name) (root w) = Some (File data m).

(** An upload and the world in which its thumbnail cannot be written:
    [uploads/thumbs] is gone. *)
Definition orphan_upload : Request :=
  Fixture.http_request
    (Some {| buffer := Fixture.gif_bytes; mimetype := "image/png" |}) QAbsent "".

Definition orphan_run : Reply * World :=
  api_upload Fixture.lib (Fixture.local_cfg "") orphan_upload
    (Fixture.world Fixture.tree_without_thumbs []).

(** An eight-byte GIF against a four-byte limit, and an ELF header
    declared as a PNG. *)
Definition tiny_limit_cfg : Config :=
  {| dirname := ["srv"; "app"]; STORAGE := "s3"; BASE_URL := None;
     MAX_FILE_SIZE := 4; ADMIN_KEY := "";
     AWS_BUCKET := Some "pics"; AWS_REGION := Some "eu-west-1" |}.

Definition gif_declared_png : UploadedFile :=
  {| buffer := Fixture.gif_bytes; mimetype := "image/png" |}.

Definition elf_declared_png : UploadedFile :=
  {| buffer := Fixture.elf_bytes; mimetype := "application/octet-stream" |}.

(** An upload on disk, then its deletion, twice. *)
Definition stored_world : World :=
  snd (api_upload Fixture.lib (Fixture.local_cfg "")
         (Fixture.http_request (Some gif_declared_png) QAbsent "")
         (Fixture.world Fixture.fresh_tree [])).

Definition delete_request (key : QueryValue) : Request :=
  Fixture.http_request None key "1700000000000-k3j2x9.gif".

(** ** The thumbnail's geometry

    [sharp] is an npm package. Its documentation gives the geometry of
    [resize] for [fit: 'inside'] with both target dimensions: the image
    keeps its aspect ratio and is made as large as possible within the
    box; [withoutEnlargement], which defaults to [false], is what would
    keep a smaller image at its size; and without an explicit output
    format the output has the format of the input. Other combinations
    of options are left out. *)

Record Image := {
  img_width : Z;
  img_height : Z;
  img_format : string
}.

(** Nearest integer to [a / b], halves up. *)
Definition round_div (a b : Z) : Z := (2 * a + b) / (2 * b).

Definition resize_geometry (o : ResizeOptions) (i : Image) : option Image :=
  match width o, height o, fit o with
  | Some W, Some H, Some inside =>
      let keep_small :=
        match withoutEnlargement o with Some b => b | None => false end in
      if keep_small && (img_width i <=? W) && (img_height i <=? H) then Some i
      else if img_height i * W <=? img_width i * H then
        Some {| img_width := W;
                img_height := Z.max 1 (round_div (img_height i * W) (img_width i));
                img_format := img_format i |}
      else
        Some {| img_width := Z.max 1 (round_div (img_width i * H) (img_height i));
                img_height := H;
                img_format := img_format i |}
  | _, _, _ => None
  end.

(** The thumbnail Upload asks for: [resize] with the handler's options. *)
Definition thumbnail_of (i : Image) : option Image :=
  resize_geometry thumb_options i.

Definition png_800x600 : Image :=
  {| img_width := 800; img_height := 600; img_format := "png" |}.

Definition multi_dot_object : S3Object :=
  {| Key := "images/a.b.png"; Body := Fixture.gif_bytes;
     ContentType := "image/png"; LastModified := 1700000000000 |}.

(** The bucket after one upload, and the listing request. *)
Definition bucket_after_upload : World :=
  snd (api_upload Fixture.lib (Fixture.s3_cfg "")
         (Fixture.http_request (Some gif_declared_png) QAbsent "")
         (Fixture.world Fixture.fresh_tree [])).

Definition list_request : Request := Fixture.http_request None QAbsent "".

(** Two originals whose uploads overlapped: the one named first was
    written last. *)
Definition overlapping_bucket : list S3Object :=
  bucket_put
    {| Key := "images/1700000000500-bbbb.png"; Body := Fixture.gif_bytes;
       ContentType := "image/png"; LastModified := 1700000003000 |}
    (bucket_put
       {| Key := "images/1700000000000-aaaa.png"; Body := Fixture.gif_bytes;
          ContentType := "image/png"; LastModified := 1700000009000 |}
       []).

Definition dates_of (r : Reply) : list Z :=
  match r with
  | Json _ (Listing items) => map e_date items
  | _ => []
  end.

Definition files_of (r : Reply) : list string :=
  match r with
  | Json _ (Listing items) => map e_file items
  | _ => []
  end.

Definition newer_first (a b : Entry) : Prop := e_date b <= e_date a.

(** The loop state of [path.extname] once it has left the trailing
    slashes behind and sits at the start of the path. *)
Definition ext_state (d e pd : Z) : Path.ExtScan :=
  {| Path.startDot := d; Path.startPart := 0; Path.end_ := e;
     Path.matchedSlash := false; Path.preDotState := pd |}.

(** A character that is neither a separator nor a dot. *)
Definition plain_char (c : ascii) : Prop :=
  Ascii.eqb c "/" = false /\ Ascii.eqb c "." = false.

(** The bucket rejects the second request it receives. *)
Definition s3_second_put_fails : World :=
  {| root := Fixture.fresh_tree; bucket := []; clock := 1700000000000;
     faults := [false; true]; calls := [] |}.

(** ** Further predicates and models used in the statements *)

(** A single path segment: not empty, not [.] or [..], no separator. *)
Definition plain_name (n : string) : bool :=
  negb (String.eqb n "") && negb (String.eqb n ".") && negb (String.eqb n "..")
  && negb (has_char "/" n).

(** The object Upload stores under [images/]. *)
Definition stored_object (name : string) (body : Buffer) (mimeType : string)
    (w : World) : S3Object :=
  {| Key := "images/" ++ name; Body := body; ContentType := mimeType;
     LastModified := clock w |}.

(** What makes the names of an upload regular: the random part and the
    extension hold no dot or separator, and the extension no [$]. *)
Definition regular_names (lib : Libraries) (req : Request) (f : UploadedFile) : Prop :=
  has_char "/" (random req) = false
  /\ has_char "." (random req) = false
  /\ has_char "/" (upload_ext lib (detect lib f)) = false
  /\ has_char "." (upload_ext lib (detect lib f)) = false
  /\ has_char "$" (upload_ext lib (detect lib f)) = false.

(** The one backend request a List sends. *)
Definition list_call (cfg : Config) : Call :=
  if is_s3 cfg then ListObjectsV2 "images/" else Readdir (UPLOAD_DIR cfg).

(** A scan of [path.basename] that has met no separator yet. *)
Definition base_state (s e : Z) : Path.BaseScan :=
  {| Path.b_start := s; Path.b_end := e; Path.b_matchedSlash := false |}.

(** What List shows for a directory entry that is a regular file. *)
Definition listed_entry (cfg : Config) (req : Request) (e : string * node) : Entry :=
  {| e_file := fst e;
     e_url := getBaseUrl cfg req ++ "/uploads/" ++ fst e;
     e_thumbnail := getBaseUrl cfg req ++ "/uploads/thumbs/"
                    ++ extname_thumb_name (fst e);
     e_size := node_size (snd e);
     e_date := node_mtime (snd e) |}.

(** The entries List keeps: regular files not named [thumbs]. *)
Definition listed (e : string * node) : bool :=
  negb (String.eqb (fst e) "thumbs") && negb (is_dir (snd e)).

(** The tree after a successful upload into [uploads], whose entries
    were [es] and whose [thumbs] held [ts]. *)
Definition uploads_after (name : string) (data : Buffer) (thumbName : string)
    (thumb : Buffer) (t : Z) (es ts : list (string * node)) : list (string * node) :=
  assoc_set "thumbs" (Dir (assoc_set thumbName (File thumb t) ts))
    (assoc_set name (File data t) es).

(** A name of the form [stem.ext] with a single dot, no separator and
    no [$] in the extension: the form of every name Upload generates
    ([`${Date.now()}-${random}.${ext}`]). *)
Definition asset_name (stem ext : string) : Prop :=
  stem <> ""
  /\ has_char "/" stem = false /\ has_char "." stem = false
  /\ has_char "/" ext = false /\ has_char "." ext = false
  /\ has_char "$" ext = false.

(** Neither the original [file] nor the thumbnail [thumb] is stored: the
    bucket has no object under [images/file] or [images/thumb]; on disk
    there is nothing at [uploads/file] and nothing at
    [uploads/thumbs/thumb]. *)
Definition removed (cfg : Config) (file thumb : string) (w : World) : Prop :=
  if is_s3 cfg then
    bucket_has ("images/" ++ file) (bucket w) = false
    /\ bucket_has ("images/" ++ thumb) (bucket w) = false
  else
    lookup (UPLOAD_DIR cfg ++ [file]) (root w) = None
    /\ lookup (THUMB_DIR cfg ++ [thumb]) (root w) = None.

(** What lets an upload store its two files: neither of the two writes
    fails and, on disk, [uploads] and [uploads/thumbs] exist, the
    generated names are regular and no directory stands under them. *)
Definition store_ready (lib : Libraries) (cfg : Config) (req : Request)
    (f : UploadedFile) (w : World) : Prop :=
  hd false (faults w) = false
  /\ hd false (tl (faults w)) = false
  /\ (is_s3 cfg = false ->
      regular_names lib req f
      /\ exists es ts,
           lookup (UPLOAD_DIR cfg) (root w) = Some (Dir es)
           /\ assoc_find "thumbs" es = Some (Dir ts)
           /\ (forall cs, assoc_find (upload_filename lib req f w) es <> Some (Dir cs))
           /\ (forall cs, assoc_find (upload_thumbname lib req f w) ts
                          <> Some (Dir cs))).

(** ** Start-up (lines 33-37) *)

(** [fs.mkdirSync(p, { recursive: true })] from the node where the path
    starts: missing directories are created, existing ones are kept, a
    regular file on the way makes it throw ([None]). *)
Fixpoint mkdir_p (p : list string) (n : node) : option node :=
  match n with
  | File _ _ => None
  | Dir es =>
      match p with
      | [] => Some n
      | seg :: rest =>
          match mkdir_p rest (match assoc_find seg es with
                              | Some child => child
                              | None => Dir []
                              end) with
          | Some child' => Some (Dir (assoc_set seg child' es))
          | None => None
          end
      end
  end.

(** [if (!fs.existsSync(p)) fs.mkdirSync(p, { recursive: true })]. *)
Definition ensure_dir (p : list string) (n : node) : option node :=
  match lookup p n with
  | Some _ => Some n
  | None => mkdir_p p n
  end.

(** The tree the server leaves when it starts, or [None] when start-up
    throws: the two directories are only looked after when [STORAGE] is
    exactly [local]. *)
Definition startup (cfg : Config) (n : node) : option node :=
  if String.eqb (STORAGE cfg) "local" then
    match ensure_dir (UPLOAD_DIR cfg) n with
    | Some n1 => ensure_dir (THUMB_DIR cfg) n1
    | None => None
    end
  else Some n.

(** How a lookup may change when directories are created: not at all,
    from nothing to a directory, or from a directory to a directory. *)
Inductive grows : option node -> option node -> Prop :=
| grows_same o : grows o o
| grows_new es : grows None (Some (Dir es))
| grows_dir es es' : grows (Some (Dir es)) (Some (Dir es')).

(** Every character is one [encodeURIComponent] leaves alone. *)
Fixpoint unreserved (s : string) : bool :=
  match s with
  | EmptyString => true
  | String c t => JS.uri_unreserved c && unreserved t
  end.

(** ** Fixtures for the further examples *)

Definition gif_upload : Request :=
  Fixture.http_request (Some gif_declared_png) QAbsent "".

(** An empty file declared as a PNG: nothing to sniff, nothing to
    decode. *)
Definition empty_png : UploadedFile := {| buffer := []; mimetype := "image/png" |}.

Definition empty_upload : Request := Fixture.http_request (Some empty_png) QAbsent "".

(** A bucket that refuses the next request. *)
Definition s3_first_put_fails : World :=
  {| root := Fixture.fresh_tree; bucket := []; clock := 1700000000000;
     faults := [true]; calls := [] |}.

(** The server directory before the first start, and with a source file
    beside [uploads]. *)
Definition tree_before_start : node := Dir [("srv", Dir [("app", Dir [])])].

Definition tree_with_source : node :=
  Dir [("srv", Dir [("app", Dir [("server.js", File [x2f; x2f] 1600000000000);
                                 ("uploads", Dir [("thumbs", Dir [])])])])].

Definition disk_cfg : Config :=
  {| dirname := ["srv"; "app"]; STORAGE := "disk"; BASE_URL := None;
     MAX_FILE_SIZE := 5242880; ADMIN_KEY := "";
     AWS_BUCKET := None; AWS_REGION := None |}.

Definition cdn_cfg (base : string) : Config :=
  {| dirname := ["srv"; "app"]; STORAGE := "local";
     BASE_URL := Some base;
     MAX_FILE_SIZE := 5242880; ADMIN_KEY := "";
     AWS_BUCKET := None; AWS_REGION := None |}.

Definition proxied_request : Request :=
  {| x_forwarded_proto := Some "https"; protocol := "http";
     x_forwarded_host := Some "pics.example"; host := Some "localhost:3000";
     file := None; random := ""; query_key := QAbsent; params_file := "" |}.

(** The original one upload leaves in the bucket. *)
Definition uploaded_original : S3Object :=
  {| Key := "images/1700000000000-k3j2x9.gif"; Body := Fixture.gif_bytes;
     ContentType := "image/gif"; LastModified := 1700000000000 |}.

(** What List returns for the bucket one upload leaves. *)
Definition listed_after_upload : list Entry :=
  match fst (api_list (Fixture.s3_cfg "") list_request bucket_after_upload) with
  | Json _ (Listing items) => items
  | _ => []
  end.

(** The bucket one upload leaves, answering the first request and
    failing the second. *)
Definition bucket_failing_second : World :=
  {| root := Fixture.fresh_tree; bucket := bucket bucket_after_upload;
     clock := 1700000005000; faults := [false; true]; calls := [] |}.

(** * Properties *)

(** ** Directory entries and paths *)

Section AssocFacts.
Context {A : Type}.
Implicit Types (l : list (string * A)) (k : string).

Lemma assoc_find_set_same k v l : assoc_find k (assoc_set k v l) = Some v.
Proof.
  induction l as [|[k' v'] t IH]; simpl.
  - now rewrite String.eqb_refl.
  - destruct (String.eqb k k') eqn:E; simpl.
    + now rewrite String.eqb_refl.
    + now rewrite E.
Qed.

Lemma assoc_find_set_other k k' v l :
  k' <> k -> assoc_find k' (assoc_set k v l) = assoc_find k' l.
Proof.
  intros Hne. induction l as [|[k0 v0] t IH]; simpl.
  - destruct (String.eqb k' k) eqn:E; [apply String.eqb_eq in E; congruence | reflexivity].
  - destruct (String.eqb k k0) eqn:E; simpl.
    + apply String.eqb_eq in E; subst k0.
      destruct (String.eqb k' k) eqn:E'; [apply String.eqb_eq in E'; congruence | reflexivity].
    + now rewrite IH.
Qed.

Lemma assoc_find_remove_same k l : assoc_find k (assoc_remove k l) = None.
Proof.
  unfold assoc_remove. induction l as [|[k' v'] t IH]; simpl; [reflexivity|].
  destruct (String.eqb k k') eqn:E; simpl; [exact IH | now rewrite E].
Qed.

Lemma assoc_find_remove_other k k' l :
  k' <> k -> assoc_find k' (assoc_remove k l) = assoc_find k' l.
Proof.
  intros Hne. unfold assoc_remove. induction l as [|[k0 v0] t IH]; simpl; [reflexivity|].
  destruct (String.eqb k k0) eqn:E; simpl.
  - apply String.eqb_eq in E; subst k0.
    destruct (String.eqb k' k) eqn:E'; [apply String.eqb_eq in E'; congruence | exact IH].
  - now rewrite IH.
Qed.
End AssocFacts.

Lemma same_kind_refl o : same_kind o o.
Proof. destruct o as [[d m|es]|]; constructor. Qed.

(** Unlinking a regular file succeeds, leaves nothing at its path and
    changes the sort of nothing else. *)
Lemma remove_at_file p : forall n d m,
  is_dir n = true ->
  lookup p n = Some (File d m) ->
  exists r, remove_at p n = inr r /\ is_dir r = true /\ lookup p r = None
            /\ forall x, x <> p -> same_kind (lookup x n) (lookup x r).
Proof.
  induction p as [|seg rest IH]; intros n d m Hdir H.
  - simpl in H. injection H as ->. discriminate.
  - destruct n as [d0 m0|es]; [discriminate|].
    simpl in H. destruct (assoc_find seg es) as [child|] eqn:Hc; [|discriminate].
    destruct rest as [|s rest'].
    + simpl in H. injection H as ->. simpl. rewrite Hc.
      eexists; repeat split.
      * simpl. now rewrite assoc_find_remove_same.
      * intros [|xs xrest] Hx; simpl; [constructor|].
        destruct (String.eqb xs seg) eqn:E.
        -- apply String.eqb_eq in E; subst xs.
           rewrite Hc, assoc_find_remove_same.
           destruct xrest; [congruence | constructor].
        -- apply String.eqb_neq in E.
           rewrite assoc_find_remove_other by exact E. apply same_kind_refl.
    + destruct child as [d0 m0|ces]; [discriminate|].
      destruct (IH (Dir ces) d m eq_refl H) as (r & Hr & Hrd & Hnone & Hsame).
      change (remove_at (seg :: s :: rest') (Dir es))
        with (match assoc_find seg es with
              | Some child =>
                  match remove_at (s :: rest') child with
                  | inr child' => inr (Dir (assoc_set seg child' es))
                  | inl e => inl e
                  end
              | None => inl ENOENT
              end).
      rewrite Hc, Hr. eexists; repeat split.
      * simpl. now rewrite assoc_find_set_same.
      * intros [|xs xrest] Hx; simpl; [constructor|].
        destruct (String.eqb xs seg) eqn:E.
        -- apply String.eqb_eq in E; subst xs.
           rewrite Hc, assoc_find_set_same. apply Hsame. congruence.
        -- apply String.eqb_neq in E.
           rewrite assoc_find_set_other by exact E. apply same_kind_refl.
Qed.

(** A successful write leaves the written node at its path. *)
Lemma lookup_write_at p : forall n f r,
  write_at p f n = inr r -> lookup p r = Some f.
Proof.
  induction p as [|seg rest IH]; intros n f r H; [discriminate|].
  destruct n as [d m|es]; [destruct rest; discriminate|].
  destruct rest as [|s rest'].
  - simpl in H. simpl.
    destruct (assoc_find seg es) as [[d m|ces]|]; try discriminate;
      injection H as <-; simpl; now rewrite assoc_find_set_same.
  - change (write_at (seg :: s :: rest') f (Dir es))
      with (match assoc_find seg es with
            | Some child =>
                match write_at (s :: rest') f child with
                | inr child' => inr (Dir (assoc_set seg child' es))
                | inl e => inl e
                end
            | None => inl ENOENT
            end) in H.
    destruct (assoc_find seg es) as [child|]; [|discriminate].
    destruct (write_at (s :: rest') f child) as [e|child'] eqn:Hw; [discriminate|].
    injection H as <-.
    change (lookup (seg :: s :: rest') (Dir (assoc_set seg child' es)))
      with (match assoc_find seg (assoc_set seg child' es) with
            | Some c => lookup (s :: rest') c
            | None => None
            end).
    rewrite assoc_find_set_same. eapply IH; eassumption.
Qed.

(** ** The bucket *)

Lemma bucket_has_delete_same k b : bucket_has k (bucket_delete k b) = false.
Proof.
  unfold bucket_has, bucket_delete.
  induction b as [|x t IH]; simpl; [reflexivity|].
  destruct (String.eqb k (Key x)) eqn:E; simpl; [exact IH | now rewrite E].
Qed.

Lemma bucket_has_delete_absent k k' b :
  bucket_has k b = false -> bucket_has k (bucket_delete k' b) = false.
Proof.
  unfold bucket_has, bucket_delete.
  induction b as [|x t IH]; simpl; [reflexivity|].
  intros H. apply orb_false_iff in H as [Hx Ht].
  destruct (String.eqb k' (Key x)); simpl; [auto | rewrite Hx; auto].
Qed.

Lemma bucket_has_put o b : bucket_has (Key o) (bucket_put o b) = true.
Proof.
  unfold bucket_has.
  induction b as [|x t IH]; simpl.
  - now rewrite String.eqb_refl.
  - destruct (String.compare (Key o) (Key x)); simpl;
      rewrite ?String.eqb_refl; simpl; try reflexivity.
    rewrite IH. apply orb_true_r.
Qed.

(** ** Delete *)

Lemma backend_no_fault c w :
  faults w = [] ->
  backend c w = (Ret tt, {| root := root w; bucket := bucket w; clock := clock w;
                            faults := []; calls := calls w ++ [c] |}).
Proof. intros H. unfold backend, request. rewrite H. reflexivity. Qed.

Lemma resolve_same_kind p n r :
  same_kind (lookup (segments p) n) (lookup (segments p) r) ->
  same_kind (resolve p n) (resolve p r).
Proof.
  unfold resolve. intros H. inversion H; subst; try constructor.
  destruct (trailing_slash p); constructor.
Qed.

Lemma unlink_if_present_ok p w :
  faults w = [] -> is_dir (root w) = true -> dir_at p w = false ->
  exists w',
    unlink_if_present p w = (Ret tt, w')
    /\ faults w' = [] /\ is_dir (root w') = true /\ bucket w' = bucket w
    /\ resolve p (root w') = None
    /\ (forall q, resolve q (root w) = None -> resolve q (root w') = None)
    /\ (forall q, dir_at q w = false -> dir_at q w' = false).
Proof.
  intros Hf Hroot Hnd. unfold unlink_if_present, bind, existsSync.
  unfold dir_at in Hnd.
  destruct (resolve p (root w)) as [n|] eqn:Hres.
  - destruct n as [d m|es]; [|discriminate].
    assert (Hlook : lookup (segments p) (root w) = Some (File d m)).
    { unfold resolve in Hres.
      destruct (lookup (segments p) (root w)) as [[d' m'|es']|]; try discriminate.
      destruct (trailing_slash p); [discriminate | exact Hres]. }
    destruct (remove_at_file _ _ _ _ Hroot Hlook) as (r & Hr & Hrd & Hnone & Hsame).
    unfold unlink, bind. rewrite (backend_no_fault _ _ Hf). simpl.
    rewrite Hres, Hr.
    eexists; repeat split; simpl; auto.
    + unfold resolve. now rewrite Hnone.
    + intros q Hq.
      destruct (list_eq_dec string_dec (segments q) (segments p)) as [E|E].
      * unfold resolve. now rewrite E, Hnone.
      * pose proof (resolve_same_kind q _ _ (Hsame _ E)) as Hk.
        rewrite Hq in Hk. now inversion Hk.
    + intros q Hq. unfold dir_at in *. simpl.
      destruct (list_eq_dec string_dec (segments q) (segments p)) as [E|E].
      * unfold resolve. now rewrite E, Hnone.
      * pose proof (resolve_same_kind q _ _ (Hsame _ E)) as Hk.
        inversion Hk as [H1 H2|d' m' H1 H2|es es' H1 H2]; try reflexivity.
        rewrite <- H1 in Hq. discriminate.
  - exists w. unfold ret. repeat split; auto.
Qed.

Lemma deleteObject_no_fault k w :
  faults w = [] ->
  exists w', deleteObject k w = (Ret tt, w')
             /\ faults w' = [] /\ bucket w' = bucket_delete k (bucket w)
             /\ root w' = root w.
Proof.
  intros Hf. unfold deleteObject, bind. rewrite (backend_no_fault _ _ Hf).
  eexists; repeat split.
Qed.

(** Deleting an asset id succeeds, leaves neither blob behind, and can be
    repeated. *)
Lemma delete_try_ok cfg file w :
  deletable cfg file w ->
  exists w', delete_try cfg file w = (Ret (Json 200 OkBody), w')
             /\ deletable cfg file w' /\ gone cfg file w'.
Proof.
  intros [Hf Hlocal]. unfold delete_try, deletable, gone.
  destruct (is_s3 cfg) eqn:Hs3.
  - destruct (deleteObject_no_fault ("images/" ++ file) w Hf)
      as (w1 & E1 & Hf1 & Hb1 & _).
    destruct (deleteObject_no_fault ("images/" ++ extname_thumb_name file) w1 Hf1)
      as (w2 & E2 & Hf2 & Hb2 & _).
    exists w2. unfold bind at 1. unfold bind at 1. rewrite E1, E2. unfold ret.
    repeat split; auto; try discriminate.
    + rewrite Hb2, Hb1. apply bucket_has_delete_absent, bucket_has_delete_same.
    + rewrite Hb2. apply bucket_has_delete_same.
  - destruct (Hlocal eq_refl) as (Hroot & Ho & Ht).
    destruct (unlink_if_present_ok (path_join (UPLOAD_DIR cfg) file) w Hf Hroot Ho)
      as (w1 & E1 & Hf1 & Hroot1 & _ & Hgone1 & Hnone1 & Hdir1).
    destruct (unlink_if_present_ok
                (path_join (THUMB_DIR cfg) (extname_thumb_name file)) w1
                Hf1 Hroot1 (Hdir1 _ Ht))
      as (w2 & E2 & Hf2 & Hroot2 & _ & Hgone2 & Hnone2 & Hdir2).
    exists w2. unfold bind at 1. unfold bind at 1. rewrite E1, E2. unfold ret.
    repeat split; auto.
Qed.

Lemma api_delete_ok cfg req w :
  forbidden cfg req = false ->
  deletable cfg (params_file req) w ->
  exists w', api_delete cfg req w = (Json 200 OkBody, w')
             /\ deletable cfg (params_file req) w'
             /\ gone cfg (params_file req) w'.
Proof.
  intros Hforb Hd. destruct (delete_try_ok _ _ _ Hd) as (w' & E & Hd' & Hg).
  exists w'. unfold api_delete, catch500. rewrite Hforb, E. auto.
Qed.

(** Whatever happens, the deletion itself answers 200 or 500. *)
Lemma delete_catch_status cfg file w :
  fst (catch500 (delete_try cfg file) w) = Json 200 OkBody
  \/ fst (catch500 (delete_try cfg file) w) = Json 500 (ErrorBody "Server error").
Proof.
  unfold catch500, delete_try.
  set (body := if is_s3 cfg then _ else _).
  unfold bind. destruct (body w) as [[u|e] w']; unfold ret; simpl; auto.
Qed.

(** ** Upload *)

(** Past validation, the handler is the thumbnailer followed by the two
    writes; any failure ends in the catch block. *)
Lemma upload_handler_allowed lib cfg req f w :
  file req = Some f ->
  ALLOWED (detect lib f) = true ->
  upload_handler lib cfg req w =
    match sharp_resize lib thumb_options (buffer f) with
    | None => (server_error, w)
    | Some thumb =>
        match put_original cfg f (detect lib f) (upload_filename lib req f w) w with
        | (Throw _, w1) => (server_error, w1)
        | (Ret u1, w1) =>
            match put_thumbnail cfg thumb (detect lib f)
                    (upload_thumbname lib req f w) w1 with
            | (Throw _, w2) => (server_error, w2)
            | (Ret u2, w2) =>
                (Json 200 (Uploaded (upload_meta lib cfg req f w u1 u2)), w2)
            end
        end
    end.
Proof.
  intros Hfile Hok.
  unfold upload_handler, catch500, upload_try. rewrite Hfile, Hok.
  cbn [negb]. unfold bind, Date_now, sharp. cbv beta iota.
  destruct (sharp_resize lib thumb_options (buffer f)) as [thumb|]; [|reflexivity].
  unfold ret at 1. cbv beta iota.
  fold (upload_filename lib req f w). fold (upload_thumbname lib req f w).
  destruct (put_original cfg f (detect lib f) (upload_filename lib req f w) w)
    as [[u1|e1] w1]; [|reflexivity].
  destruct (put_thumbnail cfg thumb (detect lib f) (upload_thumbname lib req f w) w1)
    as [[u2|e2] w2]; reflexivity.
Qed.

Lemma upload_handler_rejected lib cfg req f w :
  file req = Some f ->
  ALLOWED (detect lib f) = false ->
  upload_handler lib cfg req w = (unsupported, w).
Proof.
  intros Hfile Hbad. unfold upload_handler, catch500, upload_try.
  now rewrite Hfile, Hbad.
Qed.

Lemma In_bucket_put o b : In o (bucket_put o b).
Proof.
  induction b as [|x t IH]; simpl; [now left|].
  destruct (String.compare (Key o) (Key x)); simpl; auto.
Qed.

Lemma backend_calls c w o w' :
  backend c w = (o, w') ->
  calls w' = (calls w ++ [c])%list /\ root w' = root w /\ bucket w' = bucket w
  /\ clock w' = clock w.
Proof.
  unfold backend, request. destruct (hd false (faults w));
    intros H; injection H as <- <-; auto.
Qed.

Lemma put_original_ret cfg f detected name w u w1 :
  put_original cfg f detected name w = (Ret u, w1) ->
  calls w1 = (calls w ++ [put_call cfg (UPLOAD_DIR cfg) name])%list
  /\ original_stored cfg name (buffer f) w1.
Proof.
  unfold put_original, put_call, original_stored.
  destruct (is_s3 cfg).
  - unfold uploadBufferToS3, putObject, bind.
    destruct (backend (PutObject ("images/" ++ name)) w) as [[[]|e] w0] eqn:Hb;
      [|discriminate].
    apply backend_calls in Hb as (Hc & _ & Hbk & _).
    unfold ret. intros H. injection H as _ <-. simpl. split; [exact Hc|].
    eexists. split; [apply In_bucket_put | split; reflexivity].
  - unfold writeFile, bind.
    destruct (backend (WriteFile (segments (path_join (UPLOAD_DIR cfg) name))) w)
      as [[[]|e] w0] eqn:Hb; [|discriminate].
    apply backend_calls in Hb as (Hc & _ & _ & _).
    destruct (trailing_slash (path_join (UPLOAD_DIR cfg) name)) eqn:Hts; [discriminate|].
    destruct (write_at _ _ (root w0)) as [e|r] eqn:Hw; [discriminate|].
    unfold ret. intros H. injection H as _ <-. simpl. split; [exact Hc|].
    exists (clock w0). unfold resolve. rewrite (lookup_write_at _ _ _ _ Hw), Hts.
    reflexivity.
Qed.

Lemma put_thumbnail_throw cfg thumb detected name w e w' :
  put_thumbnail cfg thumb detected name w = (Throw e, w') ->
  calls w' = (calls w ++ [put_call cfg (THUMB_DIR cfg) name])%list
  /\ root w' = root w /\ bucket w' = bucket w.
Proof.
  unfold put_thumbnail, put_call.
  destruct (is_s3 cfg).
  - unfold uploadBufferToS3, putObject, bind.
    destruct (backend (PutObject ("images/" ++ name)) w) as [[[]|e0] w0] eqn:Hb.
    + discriminate.
    + apply backend_calls in Hb as (Hc & Hr & Hbk & _).
      intros H. injection H as _ <-. auto.
  - unfold writeFile, bind.
    destruct (backend (WriteFile (segments (path_join (THUMB_DIR cfg) name))) w)
      as [[[]|e0] w0] eqn:Hb.
    + apply backend_calls in Hb as (Hc & Hr & Hbk & _).
      destruct (trailing_slash (path_join (THUMB_DIR cfg) name)).
      * intros H. injection H as _ <-. auto.
      * destruct (write_at _ _ (root w0)) as [e1|r] eqn:Hw.
        -- intros H. injection H as _ <-. auto.
        -- discriminate.
    + apply backend_calls in Hb as (Hc & Hr & Hbk & _).
      intros H. injection H as _ <-. auto.
Qed.

Lemma api_upload_within_limit lib cfg req f w :
  file req = Some f ->
  Z.of_nat (length (buffer f)) <= MAX_FILE_SIZE cfg ->
  api_upload lib cfg req w = upload_handler lib cfg req w.
Proof.
  intros Hfile Hsize. unfold api_upload, multer_single. rewrite Hfile.
  destruct (MAX_FILE_SIZE cfg <? Z.of_nat (length (buffer f))) eqn:E;
    [apply Z.ltb_lt in E; lia | reflexivity].
Qed.

Lemma ALLOWED_spec m :
  ALLOWED m = true <->
  In m ["image/jpeg"; "image/png"; "image/webp"; "image/gif"; "image/avif"].
Proof.
  unfold ALLOWED. rewrite existsb_exists. split.
  - intros (x & Hin & Heq). apply String.eqb_eq in Heq. now subst.
  - intros Hin. exists m. split; [exact Hin | apply String.eqb_refl].
Qed.

(** C3, as the specification states it, fails: when the thumbnail write
    fails after the original was written, the handler answers 500
    without issuing any delete, and the original stays on disk without a
    thumbnail. *)
Lemma upload_failure_issues_no_cleanup :
  fst orphan_run = server_error
  /\ calls (snd orphan_run)
     = [WriteFile ["srv"; "app"; "uploads"; "1700000000000-k3j2x9.gif"];
        WriteFile ["srv"; "app"; "uploads"; "thumbs";
                   "1700000000000-k3j2x9_thumb.gif"]]
  /\ resolve (original_path (Fixture.local_cfg "") "1700000000000-k3j2x9.gif")
       (root (snd orphan_run))
     = Some (File Fixture.gif_bytes 1700000000000)
  /\ resolve (thumbnail_path (Fixture.local_cfg "") "1700000000000-k3j2x9.gif")
       (root (snd orphan_run))
     = None.
Proof. vm_compute. repeat split. Qed.

(** C3 (amended): whenever the write of the original succeeds and the
    write of the thumbnail then fails, Upload answers the generic server
    error, the backend has received exactly the two writes and no delete,
    and the original stays stored. *)
Theorem upload_thumbnail_failure_keeps_original
    lib cfg req f thumb w u1 w1 e w2 :
  file req = Some f ->
  Z.of_nat (length (buffer f)) <= MAX_FILE_SIZE cfg ->
  ALLOWED (detect lib f) = true ->
  sharp_resize lib thumb_options (buffer f) = Some thumb ->
  put_original cfg f (detect lib f) (upload_filename lib req f w) w = (Ret u1, w1) ->
  put_thumbnail cfg thumb (detect lib f) (upload_thumbname lib req f w) w1
    = (Throw e, w2) ->
  api_upload lib cfg req w = (server_error, w2)
  /\ calls w2
     = (calls w ++ [put_call cfg (UPLOAD_DIR cfg) (upload_filename lib req f w);
                    put_call cfg (THUMB_DIR cfg) (upload_thumbname lib req f w)])%list
  /\ original_stored cfg (upload_filename lib req f w) (buffer f) w2.
Proof.
  intros Hfile Hsize Hok Hsharp H1 H2.
  rewrite (api_upload_within_limit _ _ _ _ _ Hfile Hsize).
  rewrite (upload_handler_allowed _ _ _ _ _ Hfile Hok), Hsharp, H1, H2.
  apply put_original_ret in H1 as (Hc1 & Hst).
  apply put_thumbnail_throw in H2 as (Hc2 & Hr & Hb).
  split; [reflexivity|]. split.
  - rewrite Hc2, Hc1, <- app_assoc. reflexivity.
  - unfold original_stored in *. destruct (is_s3 cfg).
    + now rewrite Hb.
    + now rewrite Hr.
Qed.

Lemma upload_thumbnail_failure_keeps_original_witness :
  api_upload Fixture.lib (Fixture.local_cfg "") orphan_upload
    (Fixture.world Fixture.tree_without_thumbs [])
  = (server_error, snd orphan_run)
  /\ calls (snd orphan_run)
     = ([] ++ [WriteFile ["srv"; "app"; "uploads"; "1700000000000-k3j2x9.gif"];
               WriteFile ["srv"; "app"; "uploads"; "thumbs";
                          "1700000000000-k3j2x9_thumb.gif"]])%list
  /\ original_stored (Fixture.local_cfg "") "1700000000000-k3j2x9.gif"
       Fixture.gif_bytes (snd orphan_run).
Proof.
  refine (upload_thumbnail_failure_keeps_original Fixture.lib (Fixture.local_cfg "")
            orphan_upload {| buffer := Fixture.gif_bytes; mimetype := "image/png" |}
            Fixture.gif_bytes (Fixture.world Fixture.tree_without_thumbs [])
            "" _ ENOENT (snd orphan_run) eq_refl _ eq_refl eq_refl eq_refl eq_refl).
  vm_compute. discriminate.
Defined.

(** The same on S3, when the second [putObject] fails: the original
    object stays in the bucket and no [deleteObject] is sent. *)
Example s3_thumbnail_fault_leaves_original :
  fst (api_upload Fixture.lib (Fixture.s3_cfg "") orphan_upload s3_second_put_fails)
  = server_error
  /\ map Key (bucket (snd (api_upload Fixture.lib (Fixture.s3_cfg "") orphan_upload
                             s3_second_put_fails)))
     = ["images/1700000000000-k3j2x9.gif"]
  /\ calls (snd (api_upload Fixture.lib (Fixture.s3_cfg "") orphan_upload
                   s3_second_put_fails))
     = [PutObject "images/1700000000000-k3j2x9.gif";
        PutObject "images/1700000000000-k3j2x9_thumb.gif"].
Proof. vm_compute. repeat split. Qed.

(** C4: an upload longer than the configured limit is refused with
    multer's file-too-large error, and an upload whose resolved type is
    not allowed is refused as unsupported; in both cases the world is
    returned as it was, so the backend has received no request and holds
    what it held. *)
Theorem upload_rejected_before_backend lib cfg req f w :
  file req = Some f ->
  (MAX_FILE_SIZE cfg < Z.of_nat (length (buffer f)) ->
   api_upload lib cfg req w = (Next LIMIT_FILE_SIZE, w))
  /\ (Z.of_nat (length (buffer f)) <= MAX_FILE_SIZE cfg ->
      ALLOWED (detect lib f) = false ->
      api_upload lib cfg req w = (unsupported, w)).
Proof.
  intros Hfile. split.
  - intros Hbig. unfold api_upload, multer_single. rewrite Hfile.
    apply Z.ltb_lt in Hbig. now rewrite Hbig.
  - intros Hsize Hbad. rewrite (api_upload_within_limit _ _ _ _ _ Hfile Hsize).
    now apply (upload_handler_rejected _ _ _ f).
Qed.

Lemma upload_rejected_before_backend_witness :
  api_upload Fixture.lib tiny_limit_cfg
    (Fixture.http_request (Some gif_declared_png) QAbsent "")
    (Fixture.world Fixture.fresh_tree [])
  = (Next LIMIT_FILE_SIZE, Fixture.world Fixture.fresh_tree [])
  /\ api_upload Fixture.lib (Fixture.s3_cfg "")
       (Fixture.http_request (Some elf_declared_png) QAbsent "")
       (Fixture.world Fixture.fresh_tree [])
     = (unsupported, Fixture.world Fixture.fresh_tree []).
Proof.
  split.
  - apply (proj1 (upload_rejected_before_backend Fixture.lib tiny_limit_cfg
                    (Fixture.http_request (Some gif_declared_png) QAbsent "")
                    gif_declared_png (Fixture.world Fixture.fresh_tree []) eq_refl)).
    reflexivity.
  - apply (proj2 (upload_rejected_before_backend Fixture.lib (Fixture.s3_cfg "")
                    (Fixture.http_request (Some elf_declared_png) QAbsent "")
                    elf_declared_png (Fixture.world Fixture.fresh_tree []) eq_refl)).
    + vm_compute. discriminate.
    + reflexivity.
Defined.

(** The same upload does go through, under a [.gif] name. *)
Example gif_declared_png_is_stored_as_gif :
  fst (api_upload Fixture.lib (Fixture.s3_cfg "")
         (Fixture.http_request (Some gif_declared_png) QAbsent "")
         (Fixture.world Fixture.fresh_tree []))
  = Json 200 (Uploaded
      {| m_file := "1700000000000-k3j2x9.gif";
         m_url := "https://pics.s3.eu-west-1.amazonaws.com/images%2F1700000000000-k3j2x9.gif";
         m_thumbnail := "https://pics.s3.eu-west-1.amazonaws.com/images%2F1700000000000-k3j2x9_thumb.gif";
         m_mime := "image/gif"; m_size := 8; m_date := 1700000000000 |}).
Proof. vm_compute. reflexivity. Qed.

(** ** Delete: the secret and idempotence *)

Lemma bucket_delete_absent k b : bucket_has k b = false -> bucket_delete k b = b.
Proof.
  unfold bucket_has, bucket_delete.
  induction b as [|x t IH]; simpl; [reflexivity|].
  intros H. apply orb_false_iff in H as [Hx Ht]. rewrite Hx. simpl. now rewrite IH.
Qed.

(** Deleting what is already gone touches neither the tree nor the
    bucket. *)
Lemma delete_try_when_gone cfg file w :
  faults w = [] -> gone cfg file w ->
  exists w', delete_try cfg file w = (Ret (Json 200 OkBody), w')
             /\ root w' = root w /\ bucket w' = bucket w.
Proof.
  intros Hf Hg. unfold delete_try, gone in *.
  destruct (is_s3 cfg).
  - destruct Hg as [Ho Ht].
    destruct (deleteObject_no_fault ("images/" ++ file) w Hf)
      as (w1 & E1 & Hf1 & Hb1 & Hr1).
    destruct (deleteObject_no_fault ("images/" ++ extname_thumb_name file) w1 Hf1)
      as (w2 & E2 & Hf2 & Hb2 & Hr2).
    exists w2. unfold bind at 1. unfold bind at 1. rewrite E1, E2. unfold ret.
    rewrite (bucket_delete_absent _ _ Ho) in Hb1.
    rewrite Hb1, (bucket_delete_absent _ _ Ht) in Hb2.
    repeat split; congruence.
  - destruct Hg as [Ho Ht]. fold (original_path cfg file). fold (thumbnail_path cfg file).
    exists w. unfold bind, unlink_if_present, bind, existsSync.
    rewrite Ho. unfold ret. rewrite Ht. auto.
Qed.

Lemma forbidden_spec cfg req :
  ADMIN_KEY cfg <> "" ->
  (forbidden cfg req = true <-> query_key req <> QString (ADMIN_KEY cfg)).
Proof.
  intros Hset. unfold forbidden, supplied_key, differs.
  apply String.eqb_neq in Hset. rewrite Hset. simpl.
  destruct (query_key req) as [|s|l].
  - split; [discriminate|]. intros _.
    destruct (String.eqb "" (ADMIN_KEY cfg)) eqn:E; [|reflexivity].
    apply String.eqb_eq in E. rewrite <- E in Hset. discriminate.
  - destruct (String.eqb s (ADMIN_KEY cfg)) eqn:E; simpl.
    + apply String.eqb_eq in E. subst. split; [discriminate | congruence].
    + apply String.eqb_neq in E. split; [congruence | reflexivity].
  - split; [discriminate | reflexivity].
Qed.

(** C6, as the specification states it, fails: an 800x600 original, which
    fits the box, gets a 1024x768 thumbnail. *)
Lemma thumbnail_upscales_small_original :
  thumbnail_of png_800x600
  = Some {| img_width := 1024; img_height := 768; img_format := "png" |}
  /\ img_width png_800x600 <= 1024 /\ img_height png_800x600 <= 1024
  /\ img_width png_800x600 < 1024 /\ img_height png_800x600 < 768.
Proof. vm_compute. repeat split; congruence. Qed.

Lemma round_div_bounds a b :
  0 < b -> 0 <= a ->
  0 <= round_div a b /\ 2 * b * round_div a b <= 2 * a + b < 2 * b * round_div a b + 2 * b.
Proof.
  intros Hb Ha. unfold round_div.
  pose proof (Z.div_mod (2 * a + b) (2 * b) ltac:(lia)) as Hdm.
  pose proof (Z.mod_pos_bound (2 * a + b) (2 * b) ltac:(lia)) as Hm.
  split; [apply Z.div_pos; lia | lia].
Qed.

(** C6 (amended): the thumbnail of every image fits the 1024x1024 box
    with its longer side exactly 1024 (so an original smaller than the
    box is enlarged, and a larger one reduced), its shorter side is
    within one pixel of the proportional size, and it keeps the format
    of the input. *)
Theorem thumbnail_fits_box_and_keeps_ratio (i : Image) :
  1 <= img_width i -> 1 <= img_height i ->
  exists t,
    thumbnail_of i = Some t
    /\ 1 <= img_width t <= 1024 /\ 1 <= img_height t <= 1024
    /\ Z.max (img_width t) (img_height t) = 1024
    /\ Z.abs (img_width t * img_height i - img_height t * img_width i)
       < Z.max (img_width i) (img_height i)
    /\ img_format t = img_format i.
Proof.
  intros Hw Hh. unfold thumbnail_of, resize_geometry, thumb_options.
  cbn [width height fit withoutEnlargement andb].
  destruct (img_height i * 1024 <=? img_width i * 1024) eqn:E.
  - apply Z.leb_le in E.
    destruct (round_div_bounds (img_height i * 1024) (img_width i)) as (H0 & H1 & H2);
      [lia | lia |].
    eexists; split; [reflexivity|]. cbn [img_width img_height img_format].
    set (q := round_div (img_height i * 1024) (img_width i)) in *.
    assert (q <= 1024) by nia.
    repeat split; try lia.
    destruct (Z.max_spec 1 q) as [[? ->]|[? ->]]; nia.
  - apply Z.leb_gt in E.
    destruct (round_div_bounds (img_width i * 1024) (img_height i)) as (H0 & H1 & H2);
      [lia | lia |].
    eexists; split; [reflexivity|]. cbn [img_width img_height img_format].
    set (q := round_div (img_width i * 1024) (img_height i)) in *.
    assert (q <= 1024) by nia.
    repeat split; try lia.
    destruct (Z.max_spec 1 q) as [[? ->]|[? ->]]; nia.
Qed.

Lemma thumbnail_fits_box_and_keeps_ratio_witness :
  exists t,
    thumbnail_of png_800x600 = Some t
    /\ 1 <= img_width t <= 1024 /\ 1 <= img_height t <= 1024
    /\ Z.max (img_width t) (img_height t) = 1024
    /\ Z.abs (img_width t * img_height png_800x600
              - img_height t * img_width png_800x600)
       < Z.max (img_width png_800x600) (img_height png_800x600)
    /\ img_format t = img_format png_800x600.
Proof.
  apply (thumbnail_fits_box_and_keeps_ratio png_800x600); vm_compute; discriminate.
Defined.

(** ** The naming rule across the handlers *)

(** C1: on [a.b.png] the S3 branch of List rewrites the first dot and
    links [a_thumb.b.png], while Delete (and the local branch of List)
    derive [a.b_thumb.png], the name with the marker before the final
    extension; the extension-based rule itself rewrites the first
    occurrence of the extension, so [a.png.png] gives [a_thumb.png.png]. *)
Theorem list_s3_thumbnail_rewrites_first_dot :
  s3_list_thumb_name "a.b.png" = "a_thumb.b.png"
  /\ e_thumbnail (s3_entry (Fixture.s3_cfg "") multi_dot_object)
     = "https://pics.s3.eu-west-1.amazonaws.com/images/a_thumb.b.png"
  /\ extname_thumb_name "a.b.png" = "a.b_thumb.png"
  /\ insert_before_last_dot "a.b.png" = Some "a.b_thumb.png"
  /\ extname_thumb_name "a.png.png" = "a_thumb.png.png"
  /\ insert_before_last_dot "a.png.png" = Some "a.png_thumb.png".
Proof. vm_compute. repeat split. Qed.

(** ** List *)

(** C2: after a single upload to S3, List returns two entries: the
    thumbnail object is listed as if it were an original, with a
    thumbnail link of its own. *)
Theorem list_s3_returns_thumbnail_objects :
  map Key (bucket bucket_after_upload)
  = ["images/1700000000000-k3j2x9.gif"; "images/1700000000000-k3j2x9_thumb.gif"]
  /\ fst (api_list (Fixture.s3_cfg "") list_request bucket_after_upload)
     = Json 200 (Listing
         [{| e_file := "1700000000000-k3j2x9_thumb.gif";
             e_url := "https://pics.s3.eu-west-1.amazonaws.com/images%2F1700000000000-k3j2x9_thumb.gif";
             e_thumbnail := "https://pics.s3.eu-west-1.amazonaws.com/images/1700000000000-k3j2x9_thumb_thumb.gif";
             e_size := 8; e_date := 1700000000000 |};
          {| e_file := "1700000000000-k3j2x9.gif";
             e_url := "https://pics.s3.eu-west-1.amazonaws.com/images%2F1700000000000-k3j2x9.gif";
             e_thumbnail := "https://pics.s3.eu-west-1.amazonaws.com/images/1700000000000-k3j2x9_thumb.gif";
             e_size := 8; e_date := 1700000000000 |}]).
Proof. vm_compute. split; reflexivity. Qed.

(** C9: the S3 branch of List reverses the key order of the bucket and
    never looks at the dates: here the older entry comes first, so the
    listing is not ordered newest first. *)
Theorem list_s3_orders_by_key_not_date :
  files_of (fst (api_list (Fixture.s3_cfg "") list_request
                   (Fixture.world Fixture.fresh_tree overlapping_bucket)))
  = ["1700000000500-bbbb.png"; "1700000000000-aaaa.png"]
  /\ dates_of (fst (api_list (Fixture.s3_cfg "") list_request
                      (Fixture.world Fixture.fresh_tree overlapping_bucket)))
     = [1700000003000; 1700000009000]
  /\ ~ Sorted (fun a b => b <= a)
        (dates_of (fst (api_list (Fixture.s3_cfg "") list_request
                          (Fixture.world Fixture.fresh_tree overlapping_bucket)))).
Proof.
  assert (E : dates_of (fst (api_list (Fixture.s3_cfg "") list_request
                               (Fixture.world Fixture.fresh_tree overlapping_bucket)))
              = [1700000003000; 1700000009000]) by (vm_compute; reflexivity).
  split; [vm_compute; reflexivity|]. split; [exact E|].
  rewrite E. intros H. inversion H as [|? ? _ Hhd]; subst.
  inversion Hhd as [|? ? Hle]; subst. lia.
Qed.

(** *** The local branch sorts by date and lists originals only *)

Lemma insert_desc_perm x l : Permutation (x :: l) (insert_desc x l).
Proof.
  induction l as [|y t IH]; simpl; [reflexivity|].
  destruct (e_date y <=? e_date x); [reflexivity|].
  rewrite perm_swap. now apply perm_skip.
Qed.

Lemma sort_desc_perm l : Permutation l (sort_desc l).
Proof.
  induction l as [|x t IH]; simpl; [constructor|].
  rewrite <- insert_desc_perm. now apply perm_skip.
Qed.

Lemma insert_desc_hd x y l :
  e_date x <= e_date y -> HdRel newer_first y l -> HdRel newer_first y (insert_desc x l).
Proof.
  intros Hxy Hl. destruct l as [|z t]; simpl.
  - now constructor.
  - destruct (e_date z <=? e_date x); constructor; auto.
    now inversion Hl.
Qed.

Lemma insert_desc_sorted x l :
  Sorted newer_first l -> Sorted newer_first (insert_desc x l).
Proof.
  induction l as [|y t IH]; intros Hs; simpl.
  - repeat constructor.
  - destruct (e_date y <=? e_date x) eqn:E.
    + apply Z.leb_le in E. constructor; [exact Hs | now constructor].
    + apply Z.leb_gt in E. inversion Hs as [|? ? Ht Hhd]; subst.
      constructor; [now apply IH|].
      apply insert_desc_hd; [unfold newer_first in *; lia | exact Hhd].
Qed.

Lemma sort_desc_sorted l : Sorted newer_first (sort_desc l).
Proof.
  induction l as [|x t IH]; simpl; [constructor | now apply insert_desc_sorted].
Qed.

Lemma filterM_incl {A} (f : A -> M bool) l : forall w r w',
  filterM f l w = (Ret r, w') -> incl r l.
Proof.
  induction l as [|a t IH]; intros w r w' H; simpl in H.
  - injection H as <- _. apply incl_refl.
  - unfold bind in H. destruct (f a w) as [[keep|e] w1]; [|discriminate].
    destruct (filterM f t w1) as [[r1|e] w2] eqn:Ht; [|discriminate].
    unfold ret in H. injection H as <- _. apply IH in Ht.
    destruct keep; [|now apply incl_tl].
    intros x [->|Hx]; [now left | right; now apply Ht].
Qed.

Lemma mapM_local_entry cfg req l : forall w items w',
  mapM (local_entry cfg req) l w = (Ret items, w') ->
  Forall (fun e =>
            In (e_file e) l
            /\ e_thumbnail e
               = getBaseUrl cfg req ++ "/uploads/thumbs/"
                 ++ extname_thumb_name (e_file e)) items.
Proof.
  induction l as [|f t IH]; intros w items w' H; simpl in H.
  - injection H as <- _. constructor.
  - unfold bind in H.
    destruct (local_entry cfg req f w) as [[e|err] w1] eqn:He; [|discriminate].
    destruct (mapM (local_entry cfg req) t w1) as [[es|err] w2] eqn:Ht; [|discriminate].
    unfold ret in H. injection H as <- _.
    unfold local_entry, bind in He.
    destruct (stat _ w) as [[st|err] w0]; [|discriminate].
    unfold ret in He. injection He as <- _.
    constructor; [simpl; auto|].
    apply IH in Ht. eapply Forall_impl; [|exact Ht].
    simpl. intros e [Hin Hth]. auto.
Qed.

(** On disk, a successful List is sorted newest first, never lists the
    [thumbs] directory, and links every entry to the thumbnail the
    extension-based rule names. *)
Lemma list_local_sorted_originals cfg req w items w' :
  is_s3 cfg = false ->
  api_list cfg req w = (Json 200 (Listing items), w') ->
  Sorted newer_first items
  /\ Forall (fun e =>
               e_file e <> "thumbs"
               /\ e_thumbnail e
                  = getBaseUrl cfg req ++ "/uploads/thumbs/"
                    ++ extname_thumb_name (e_file e)) items.
Proof.
  intros Hlocal H. unfold api_list, catch500 in H. rewrite Hlocal in H.
  unfold list_local in H. unfold bind at 1 in H.
  destruct (readdir (UPLOAD_DIR cfg) w) as [[files|e] w1]; [|discriminate].
  unfold bind at 1 in H.
  destruct (filterM _ _ w1) as [[images|e] w2] eqn:Hf; [|discriminate].
  unfold bind at 1 in H.
  destruct (mapM (local_entry cfg req) images w2) as [[raw|e] w3] eqn:Hm; [|discriminate].
  unfold ret in H. injection H as <- _.
  split; [apply sort_desc_sorted|].
  apply filterM_incl in Hf. apply mapM_local_entry in Hm.
  eapply Permutation_Forall; [apply sort_desc_perm|].
  eapply Forall_impl; [|exact Hm]. simpl. intros e [Hin Hth]. split; [|exact Hth].
  apply Hf, filter_In in Hin. destruct Hin as [_ Hne].
  intros Heq. rewrite Heq in Hne. discriminate.
Qed.

(** ** Names with a single dot: the three rules agree

    Upload only creates names of the form [stem.ext] with no dot in the
    stem; on those the three derivations coincide with the rule of the
    specification. *)

Lemma prefix_app p t : String.prefix p (p ++ t) = true.
Proof.
  induction p as [|c p IH]; simpl; [now destruct t|].
  destruct (ascii_dec c c); [exact IH | congruence].
Qed.

Lemma slice_from_app p t : JS.slice_from (String.length p) (p ++ t) = t.
Proof. induction p as [|c p IH]; simpl; [reflexivity | exact IH]. Qed.

Lemma string_app_assoc (a b c : string) : (a ++ b) ++ c = a ++ (b ++ c).
Proof. induction a as [|x a IH]; simpl; [reflexivity | now rewrite IH]. Qed.

Lemma string_app_empty_r (a : string) : a ++ "" = a.
Proof. induction a as [|x a IH]; simpl; [reflexivity | now rewrite IH]. Qed.

Lemma split_first_after_stem stem e tail :
  has_char "." stem = false ->
  JS.split_first (String "." e) (stem ++ String "." (e ++ tail)) = Some (stem, tail).
Proof.
  intros Hstem. induction stem as [|c stem IH].
  - pose proof (prefix_app (String "." e) tail) as Hp.
    pose proof (slice_from_app (String "." e) tail) as Hs.
    cbn [append] in *. cbn [JS.split_first]. now rewrite Hp, Hs.
  - cbn [has_char] in Hstem. apply orb_false_iff in Hstem as [Hc Hrest].
    cbn [append JS.split_first String.prefix].
    destruct (ascii_dec "." c) as [E|E].
    + subst c. discriminate.
    + now rewrite (IH Hrest).
Qed.

Lemma GetSubstitution_plain m b a tpl :
  has_char "$" tpl = false -> JS.GetSubstitution m b a tpl = tpl.
Proof.
  induction tpl as [|c t IH]; intros H; [reflexivity|].
  cbn [has_char] in H. apply orb_false_iff in H as [Hc Ht].
  cbn [JS.GetSubstitution]. rewrite Hc. now rewrite (IH Ht).
Qed.

Lemma replace_after_stem stem e tpl tail :
  has_char "." stem = false ->
  has_char "$" tpl = false ->
  JS.replace (String "." e) tpl (stem ++ String "." (e ++ tail)) = stem ++ tpl ++ tail.
Proof.
  intros Hstem Htpl. unfold JS.replace.
  now rewrite (split_first_after_stem _ _ _ Hstem), (GetSubstitution_plain _ _ _ _ Htpl).
Qed.

Lemma upload_thumb_name_single_dot stem ext :
  has_char "." stem = false ->
  has_char "$" ext = false ->
  upload_thumb_name ext (stem ++ "." ++ ext) = stem ++ "_thumb." ++ ext.
Proof.
  intros Hstem Hext. unfold upload_thumb_name.
  pose proof (replace_after_stem stem ext ("_thumb." ++ ext) "" Hstem Hext) as H.
  rewrite !string_app_empty_r in H. exact H.
Qed.

Lemma s3_list_thumb_name_first_dot stem rest :
  has_char "." stem = false ->
  s3_list_thumb_name (stem ++ "." ++ rest) = stem ++ "_thumb." ++ rest.
Proof.
  intros Hstem. unfold s3_list_thumb_name.
  exact (replace_after_stem stem "" "_thumb." rest Hstem eq_refl).
Qed.

Lemma insert_before_last_dot_none s :
  has_char "." s = false -> insert_before_last_dot s = None.
Proof.
  induction s as [|c t IH]; intros H; [reflexivity|].
  cbn [has_char] in H. apply orb_false_iff in H as [Hc Ht].
  cbn [insert_before_last_dot]. now rewrite (IH Ht), Hc.
Qed.

Lemma insert_before_last_dot_last stem ext :
  has_char "." ext = false ->
  insert_before_last_dot (stem ++ "." ++ ext) = Some (stem ++ "_thumb." ++ ext).
Proof.
  intros Hext. induction stem as [|c stem IH].
  - cbn [append insert_before_last_dot].
    now rewrite (insert_before_last_dot_none _ Hext).
  - change ((String c stem) ++ "." ++ ext) with (String c (stem ++ "." ++ ext)).
    cbn [insert_before_last_dot]. now rewrite IH.
Qed.

(** *** [path.extname] on such a name *)

Ltac fields :=
  cbn [ext_state Path.end_ Path.startDot Path.startPart Path.matchedSlash
       Path.preDotState].

Lemma step_plain c more i st :
  plain_char c ->
  Path.extname_loop (c :: more) i st
  = Path.extname_loop more (i - 1)
      {| Path.startDot := Path.startDot st;
         Path.startPart := Path.startPart st;
         Path.end_ := if Path.end_ st =? -1 then i + 1 else Path.end_ st;
         Path.matchedSlash := if Path.end_ st =? -1 then false else Path.matchedSlash st;
         Path.preDotState := if Path.startDot st =? -1 then Path.preDotState st else -1 |}.
Proof.
  intros [Hs Hd]. cbn [Path.extname_loop]. rewrite Hs, Hd.
  destruct st as [d p e ms pd]. fields.
  destruct (e =? -1); fields; destruct (d =? -1); reflexivity.
Qed.

Lemma step_dot more i st :
  Path.extname_loop ("."%char :: more) i st
  = Path.extname_loop more (i - 1)
      {| Path.startDot := if Path.startDot st =? -1 then i else Path.startDot st;
         Path.startPart := Path.startPart st;
         Path.end_ := if Path.end_ st =? -1 then i + 1 else Path.end_ st;
         Path.matchedSlash := if Path.end_ st =? -1 then false else Path.matchedSlash st;
         Path.preDotState :=
           if Path.startDot st =? -1 then Path.preDotState st
           else if Path.preDotState st =? 1 then Path.preDotState st else 1 |}.
Proof.
  cbn [Path.extname_loop]. change (Ascii.eqb "." "/") with false.
  change (Ascii.eqb "." ".") with true. cbv iota.
  destruct st as [d p e ms pd]. fields.
  destruct (e =? -1); fields; destruct (d =? -1); try reflexivity;
    destruct (pd =? 1) eqn:E; cbn [negb]; reflexivity.
Qed.

Lemma loop_before_dot l : forall more i e,
  Forall plain_char l -> e <> -1 ->
  Path.extname_loop (l ++ more) i (ext_state (-1) e 0)
  = Path.extname_loop more (i - Z.of_nat (length l)) (ext_state (-1) e 0).
Proof.
  induction l as [|c t IH]; intros more i e Hl He.
  - cbn [app length Z.of_nat]. now rewrite Z.sub_0_r.
  - inversion Hl as [|? ? Hc Ht]; subst.
    cbn [app]. rewrite (step_plain _ _ _ _ Hc). fields.
    rewrite (proj2 (Z.eqb_neq e (-1)) He). cbn [Z.eqb Pos.eqb].
    fold (ext_state (-1) e 0). rewrite (IH more (i - 1) e Ht He).
    f_equal. cbn [length]. lia.
Qed.

Lemma loop_through_dot l more i :
  Forall plain_char l -> Z.of_nat (length l) <= i ->
  Path.extname_loop (l ++ "."%char :: more) i
    {| Path.startDot := -1; Path.startPart := 0; Path.end_ := -1;
       Path.matchedSlash := true; Path.preDotState := 0 |}
  = Path.extname_loop more (i - Z.of_nat (length l) - 1)
      (ext_state (i - Z.of_nat (length l)) (i + 1) 0).
Proof.
  intros Hl Hi. destruct l as [|c t].
  - cbn [app length Z.of_nat]. rewrite step_dot. fields. cbn [Z.eqb Pos.eqb].
    rewrite Z.sub_0_r. reflexivity.
  - inversion Hl as [|? ? Hc Ht]; subst. cbn [length] in Hi.
    cbn [app]. rewrite (step_plain _ _ _ _ Hc). fields. cbn [Z.eqb Pos.eqb].
    fold (ext_state (-1) (i + 1) 0).
    rewrite (loop_before_dot t ("."%char :: more) (i - 1) (i + 1) Ht ltac:(lia)).
    rewrite step_dot. fields.
    rewrite (proj2 (Z.eqb_neq (i + 1) (-1)) ltac:(lia)). cbn [Z.eqb Pos.eqb].
    unfold ext_state. f_equal; [cbn [length]; lia|].
    f_equal. cbn [length]. lia.
Qed.

Lemma loop_after_dot l : forall i d e pd,
  Forall plain_char l -> d <> -1 -> e <> -1 ->
  Path.extname_loop l i (ext_state d e pd)
  = ext_state d e (match l with [] => pd | _ => -1 end).
Proof.
  induction l as [|c t IH]; intros i d e pd Hl Hd He; [reflexivity|].
  inversion Hl as [|? ? Hc Ht]; subst.
  rewrite (step_plain _ _ _ _ Hc). fields.
  rewrite (proj2 (Z.eqb_neq e (-1)) He), (proj2 (Z.eqb_neq d (-1)) Hd).
  fold (ext_state d e (-1)). rewrite (IH (i - 1) d e (-1) Ht Hd He).
  now destruct t.
Qed.

Lemma length_list_ascii s : length (list_ascii_of_string s) = String.length s.
Proof. induction s as [|c t IH]; simpl; [reflexivity | now rewrite IH]. Qed.

Lemma list_ascii_app a b :
  list_ascii_of_string (a ++ b) = (list_ascii_of_string a ++ list_ascii_of_string b)%list.
Proof. induction a as [|c t IH]; simpl; [reflexivity | now rewrite IH]. Qed.

Lemma substring_skip stem k r :
  String.substring (String.length stem) k (stem ++ r) = String.substring 0 k r.
Proof. induction stem as [|c t IH]; simpl; [reflexivity | exact IH]. Qed.

Lemma substring_all r : String.substring 0 (String.length r) r = r.
Proof. induction r as [|c t IH]; simpl; [reflexivity | now rewrite IH]. Qed.

Lemma plain_chars s :
  has_char "/" s = false -> has_char "." s = false ->
  Forall plain_char (list_ascii_of_string s).
Proof.
  induction s as [|c t IH]; intros Hs Hd; cbn [list_ascii_of_string]; [constructor|].
  cbn [has_char] in Hs, Hd.
  apply orb_false_iff in Hs as [Hs1 Hs2]. apply orb_false_iff in Hd as [Hd1 Hd2].
  constructor; [now split | now apply IH].
Qed.

Lemma extname_single_dot stem ext :
  stem <> "" ->
  has_char "/" stem = false -> has_char "." stem = false ->
  has_char "/" ext = false -> has_char "." ext = false ->
  Path.extname (stem ++ "." ++ ext) = "." ++ ext.
Proof.
  intros Hne Hs1 Hs2 He1 He2. unfold Path.extname.
  rewrite list_ascii_app. change (list_ascii_of_string ("." ++ ext))
    with ("."%char :: list_ascii_of_string ext).
  rewrite rev_app_distr. cbn [rev]. rewrite <- app_assoc. cbn [app].
  rewrite length_app. cbn [length]. rewrite !length_list_ascii.
  pose proof (plain_chars _ Hs1 Hs2) as Pstem. pose proof (plain_chars _ He1 He2) as Pext.
  apply Forall_rev in Pstem, Pext.
  rewrite (loop_through_dot _ _ _ Pext); [|rewrite length_rev, length_list_ascii; lia].
  rewrite length_rev, length_list_ascii.
  rewrite (loop_after_dot _ _ _ _ _ Pstem); [|lia|lia].
  assert (Hnil : rev (list_ascii_of_string stem) <> []).
  { destruct stem; [congruence|]. cbn [list_ascii_of_string rev].
    intros H. apply app_eq_nil in H as [_ H]. discriminate. }
  destruct (rev (list_ascii_of_string stem)) as [|x xs]; [congruence|].
  fields.
  set (n := String.length stem) in *. set (m := String.length ext) in *.
  replace (Z.of_nat (n + S m) - 1 - Z.of_nat m) with (Z.of_nat n) by lia.
  replace (Z.of_nat (n + S m) - 1 + 1) with (Z.of_nat (n + S m)) by lia.
  rewrite (proj2 (Z.eqb_neq (Z.of_nat n) (-1)) ltac:(lia)).
  rewrite (proj2 (Z.eqb_neq (Z.of_nat (n + S m)) (-1)) ltac:(lia)).
  cbn [Z.eqb orb andb].
  replace (Z.to_nat (Z.of_nat (n + S m) - Z.of_nat n)) with (S m) by lia.
  rewrite Nat2Z.id. subst n m.
  rewrite substring_skip.
  change (S (String.length ext)) with (String.length ("." ++ ext)).
  apply substring_all.
Qed.

Lemma extname_thumb_name_single_dot stem ext :
  stem <> "" ->
  has_char "/" stem = false -> has_char "." stem = false ->
  has_char "/" ext = false -> has_char "." ext = false ->
  has_char "$" ext = false ->
  extname_thumb_name (stem ++ "." ++ ext) = stem ++ "_thumb." ++ ext.
Proof.
  intros Hne Hs1 Hs2 He1 He2 He3. unfold extname_thumb_name.
  rewrite (extname_single_dot _ _ Hne Hs1 Hs2 He1 He2).
  cbn [append JS.slice_from].
  now apply upload_thumb_name_single_dot.
Qed.


Lemma has_char_app c a b : has_char c (a ++ b) = has_char c a || has_char c b.
Proof.
  induction a as [|x a IH]; simpl; [reflexivity|]. now rewrite IH, orb_assoc.
Qed.

Lemma digits_only c (d : Decimal.uint) :
  existsb (Ascii.eqb c) ["0"; "1"; "2"; "3"; "4"; "5"; "6"; "7"; "8"; "9"]%char = false ->
  has_char c (NilEmpty.string_of_uint d) = false.
Proof.
  intros Hc. cbn [existsb] in Hc.
  repeat (apply orb_false_iff in Hc as [? Hc]).
  induction d; cbn [NilEmpty.string_of_uint has_char]; try reflexivity;
    rewrite IHd, orb_false_r; rewrite Ascii.eqb_sym; assumption.
Qed.

Lemma show_Z_chars c z :
  existsb (Ascii.eqb c) ["-"; "0"; "1"; "2"; "3"; "4"; "5"; "6"; "7"; "8"; "9"]%char
  = false ->
  has_char c (show_Z z) = false.
Proof.
  intros Hc. cbn [existsb] in Hc. apply orb_false_iff in Hc as [Hm Hc].
  assert (Hu : forall d, has_char c (NilZero.string_of_uint d) = false).
  { intros d. pose proof (digits_only c d Hc) as Hd.
    destruct d; try exact Hd.
    cbn [NilZero.string_of_uint has_char]. cbn [existsb] in Hc.
    apply orb_false_iff in Hc as [H0 _]. rewrite Ascii.eqb_sym, H0. reflexivity. }
  unfold show_Z, NilZero.string_of_int.
  destruct (Z.to_int z); [apply Hu|].
  cbn [has_char]. rewrite Ascii.eqb_sym, Hm. apply Hu.
Qed.

(** The names Upload creates: on them Delete and both branches of List
    derive the very thumbnail name Upload stored, which is the name with
    the marker before its final extension. *)
Lemma upload_names_round_trip lib req f w :
  has_char "/" (random req) = false ->
  has_char "." (random req) = false ->
  has_char "/" (upload_ext lib (detect lib f)) = false ->
  has_char "." (upload_ext lib (detect lib f)) = false ->
  has_char "$" (upload_ext lib (detect lib f)) = false ->
  extname_thumb_name (upload_filename lib req f w) = upload_thumbname lib req f w
  /\ s3_list_thumb_name (upload_filename lib req f w) = upload_thumbname lib req f w
  /\ insert_before_last_dot (upload_filename lib req f w)
     = Some (upload_thumbname lib req f w).
Proof.
  intros Hr1 Hr2 He1 He2 He3. unfold upload_thumbname, upload_filename.
  set (ext := upload_ext lib (detect lib f)) in *.
  set (stem := show_Z (clock w) ++ "-" ++ random req).
  assert (Hname : show_Z (clock w) ++ "-" ++ random req ++ "." ++ ext
                  = stem ++ "." ++ ext).
  { unfold stem. now rewrite string_app_assoc. }
  assert (Hs1 : has_char "/" stem = false).
  { unfold stem. rewrite has_char_app, (show_Z_chars "/" _ eq_refl). exact Hr1. }
  assert (Hs2 : has_char "." stem = false).
  { unfold stem. rewrite has_char_app, (show_Z_chars "." _ eq_refl). exact Hr2. }
  assert (Hne : stem <> "").
  { unfold stem. destruct (show_Z (clock w)); discriminate. }
  rewrite Hname, (upload_thumb_name_single_dot _ _ Hs2 He3).
  split; [|split].
  - now apply extname_thumb_name_single_dot.
  - now apply s3_list_thumb_name_first_dot.
  - now apply insert_before_last_dot_last.
Qed.

(** ** Plain names and the paths they join to *)

Lemma rev_string_rev_string s : forall a b,
  JS.rev_string (JS.rev_string s a) b = JS.rev_string a (s ++ b).
Proof.
  induction s as [|c t IH]; intros a b; [reflexivity|].
  cbn [JS.rev_string append]. now rewrite IH.
Qed.

Lemma has_char_rev_string c s : forall a,
  has_char c (JS.rev_string s a) = has_char c s || has_char c a.
Proof.
  induction s as [|d t IH]; intros a; [reflexivity|].
  cbn [JS.rev_string has_char]. rewrite IH. cbn [has_char].
  destruct (Ascii.eqb d c), (has_char c t), (has_char c a); reflexivity.
Qed.

Lemma split_slash_no_slash s : forall cur,
  has_char "/" s = false ->
  split_slash s cur = [JS.rev_string (JS.rev_string s cur) ""].
Proof.
  induction s as [|c t IH]; intros cur H; [reflexivity|].
  cbn [has_char] in H. apply orb_false_iff in H as [Hc Ht].
  cbn [split_slash JS.rev_string]. rewrite Hc. now apply IH.
Qed.

Lemma endsWith_slash_no_slash s :
  has_char "/" s = false -> JS.endsWith "/" s = false.
Proof.
  intros H. unfold JS.endsWith. cbn [JS.rev_string].
  pose proof (has_char_rev_string "/" s "") as Hr. rewrite H in Hr. cbn in Hr.
  destruct (JS.rev_string s "") as [|c r]; [reflexivity|].
  cbn [has_char] in Hr. apply orb_false_iff in Hr as [Hc _].
  cbn [String.prefix]. destruct (ascii_dec "/" c) as [E|E]; [|reflexivity].
  subst c. discriminate.
Qed.

(** [path.join(dir, name)] of a plain name is the child [dir/name]. *)
Lemma path_join_plain dir n :
  plain_name n = true ->
  path_join dir n = {| segments := dir ++ [n]; trailing_slash := false |}.
Proof.
  unfold plain_name. intros H.
  apply andb_true_iff in H as [H Hs]. apply andb_true_iff in H as [H Hdd].
  apply andb_true_iff in H as [He Hd].
  apply negb_true_iff in Hs, Hdd, He, Hd.
  unfold path_join. rewrite (endsWith_slash_no_slash _ Hs).
  rewrite (split_slash_no_slash _ _ Hs), rev_string_rev_string.
  cbn [JS.rev_string append normalize_segments].
  assert (E : n ++ "" = n) by apply string_app_empty_r. rewrite E.
  rewrite He, Hd, Hdd. cbn [orb rev]. now rewrite rev_involutive.
Qed.

Lemma lookup_app p : forall q n,
  lookup (p ++ q) n = match lookup p n with
                      | Some m => lookup q m
                      | None => None
                      end.
Proof.
  induction p as [|seg rest IH]; intros q n; [reflexivity|].
  cbn [app lookup]. destruct n as [d m|es]; [reflexivity|].
  destruct (assoc_find seg es); [apply IH | reflexivity].
Qed.

Lemma lookup_child dir n root es :
  lookup dir root = Some (Dir es) ->
  lookup (dir ++ [n]) root = assoc_find n es.
Proof.
  intros H. rewrite lookup_app, H. cbn [lookup].
  now destruct (assoc_find n es).
Qed.

(** ** Upload: what reaches the backend *)

Lemma put_original_throw cfg f detected name w e w' :
  put_original cfg f detected name w = (Throw e, w') ->
  calls w' = (calls w ++ [put_call cfg (UPLOAD_DIR cfg) name])%list
  /\ root w' = root w /\ bucket w' = bucket w.
Proof.
  unfold put_original, put_call.
  destruct (is_s3 cfg).
  - unfold uploadBufferToS3, putObject, bind.
    destruct (backend (PutObject ("images/" ++ name)) w) as [[[]|e0] w0] eqn:Hb.
    + discriminate.
    + apply backend_calls in Hb as (Hc & Hr & Hbk & _).
      intros H. injection H as _ <-. auto.
  - unfold writeFile, bind.
    destruct (backend (WriteFile (segments (path_join (UPLOAD_DIR cfg) name))) w)
      as [[[]|e0] w0] eqn:Hb.
    + apply backend_calls in Hb as (Hc & Hr & Hbk & _).
      destruct (trailing_slash (path_join (UPLOAD_DIR cfg) name)).
      * intros H. injection H as _ <-. auto.
      * destruct (write_at _ _ (root w0)) as [e1|r] eqn:Hw.
        -- intros H. injection H as _ <-. auto.
        -- discriminate.
    + apply backend_calls in Hb as (Hc & Hr & Hbk & _).
      intros H. injection H as _ <-. auto.
Qed.

Lemma put_thumbnail_ret_calls cfg thumb detected name w u w' :
  put_thumbnail cfg thumb detected name w = (Ret u, w') ->
  calls w' = (calls w ++ [put_call cfg (THUMB_DIR cfg) name])%list.
Proof.
  unfold put_thumbnail, put_call.
  destruct (is_s3 cfg).
  - unfold uploadBufferToS3, putObject, bind.
    destruct (backend (PutObject ("images/" ++ name)) w) as [[[]|e0] w0] eqn:Hb;
      [|discriminate].
    apply backend_calls in Hb as (Hc & _). unfold ret.
    intros H. injection H as _ <-. exact Hc.
  - unfold writeFile, bind.
    destruct (backend (WriteFile (segments (path_join (THUMB_DIR cfg) name))) w)
      as [[[]|e0] w0] eqn:Hb; [|discriminate].
    apply backend_calls in Hb as (Hc & _).
    destruct (trailing_slash (path_join (THUMB_DIR cfg) name)); [discriminate|].
    destruct (write_at _ _ (root w0)) as [e1|r]; [discriminate|].
    unfold ret. intros H. injection H as _ <-. exact Hc.
Qed.

(** Whatever the request, Upload sends the backend nothing, or the write
    of the original, or that write followed by the write of the
    thumbnail: never a delete, never a listing, never the thumbnail
    first. When it sends nothing the world is returned as it was. *)
Theorem upload_sends_only_its_two_writes lib cfg req w :
  snd (api_upload lib cfg req w) = w
  \/ exists f,
       file req = Some f
       /\ (calls (snd (api_upload lib cfg req w))
           = (calls w ++ [put_call cfg (UPLOAD_DIR cfg) (upload_filename lib req f w)])%list
           \/ calls (snd (api_upload lib cfg req w))
              = (calls w ++ [put_call cfg (UPLOAD_DIR cfg) (upload_filename lib req f w);
                             put_call cfg (THUMB_DIR cfg)
                               (upload_thumbname lib req f w)])%list).
Proof.
  unfold api_upload, multer_single.
  destruct (file req) as [f|] eqn:Hfile.
  - destruct (MAX_FILE_SIZE cfg <? Z.of_nat (length (buffer f))); [now left|].
    destruct (ALLOWED (detect lib f)) eqn:Hok.
    + rewrite (upload_handler_allowed _ _ _ _ _ Hfile Hok).
      destruct (sharp_resize lib thumb_options (buffer f)) as [thumb|]; [|now left].
      right. exists f. split; [reflexivity|].
      destruct (put_original _ _ _ _ _) as [[u1|e1] w1] eqn:H1.
      * apply put_original_ret in H1 as (Hc1 & _).
        destruct (put_thumbnail _ _ _ _ _) as [[u2|e2] w2] eqn:H2.
        -- apply put_thumbnail_ret_calls in H2. right. cbn [snd].
           rewrite H2, Hc1, <- app_assoc. reflexivity.
        -- apply put_thumbnail_throw in H2 as (Hc2 & _). right. cbn [snd].
           rewrite Hc2, Hc1, <- app_assoc. reflexivity.
      * apply put_original_throw in H1 as (Hc1 & _). left. exact Hc1.
    + rewrite (upload_handler_rejected _ _ _ _ _ Hfile Hok). now left.
  - left. unfold upload_handler, catch500, upload_try. now rewrite Hfile.
Qed.

(** An image the thumbnailer rejects is not stored: Upload answers the
    server error before any write, and the world is as it was. *)
Theorem upload_thumbnailer_failure_stores_nothing lib cfg req f w :
  file req = Some f ->
  Z.of_nat (length (buffer f)) <= MAX_FILE_SIZE cfg ->
  ALLOWED (detect lib f) = true ->
  sharp_resize lib thumb_options (buffer f) = None ->
  api_upload lib cfg req w = (server_error, w).
Proof.
  intros Hfile Hsize Hok Hsharp.
  rewrite (api_upload_within_limit _ _ _ _ _ Hfile Hsize).
  now rewrite (upload_handler_allowed _ _ _ _ _ Hfile Hok), Hsharp.
Qed.

(** When the write of the original fails, Upload answers the server
    error, the thumbnail is never sent, and the store holds what it
    held. *)
Theorem upload_original_failure_stops lib cfg req f thumb w e w1 :
  file req = Some f ->
  Z.of_nat (length (buffer f)) <= MAX_FILE_SIZE cfg ->
  ALLOWED (detect lib f) = true ->
  sharp_resize lib thumb_options (buffer f) = Some thumb ->
  put_original cfg f (detect lib f) (upload_filename lib req f w) w = (Throw e, w1) ->
  api_upload lib cfg req w = (server_error, w1)
  /\ calls w1
     = (calls w ++ [put_call cfg (UPLOAD_DIR cfg) (upload_filename lib req f w)])%list
  /\ root w1 = root w /\ bucket w1 = bucket w.
Proof.
  intros Hfile Hsize Hok Hsharp H1.
  rewrite (api_upload_within_limit _ _ _ _ _ Hfile Hsize).
  rewrite (upload_handler_allowed _ _ _ _ _ Hfile Hok), Hsharp, H1.
  split; [reflexivity|]. now apply put_original_throw in H1.
Qed.

(** ** Upload and Delete on the bucket *)

Lemma backend_ok c w :
  hd false (faults w) = false ->
  backend c w = (Ret tt, {| root := root w; bucket := bucket w; clock := clock w;
                            faults := tl (faults w);
                            calls := calls w ++ [c] |}).
Proof. intros H. unfold backend, request. now rewrite H. Qed.

Lemma uploadBufferToS3_ok cfg buf key mimeType w :
  hd false (faults w) = false ->
  uploadBufferToS3 cfg buf key mimeType w
  = (Ret (s3_host cfg ++ JS.encodeURIComponent key),
     {| root := root w;
        bucket := bucket_put {| Key := key; Body := buf; ContentType := mimeType;
                                LastModified := clock w |} (bucket w);
        clock := clock w; faults := tl (faults w);
        calls := calls w ++ [PutObject key] |}).
Proof.
  intros H. unfold uploadBufferToS3, putObject, bind.
  now rewrite (backend_ok _ _ H).
Qed.


Lemma append_inj_l (p a b : string) : p ++ a = p ++ b -> a = b.
Proof.
  induction p as [|c p IH]; cbn [append]; intros H; [exact H|].
  injection H as H. now apply IH.
Qed.

(** The run of a valid upload on S3 when neither request fails. *)
Lemma upload_s3_run lib cfg req f thumb w :
  is_s3 cfg = true ->
  hd false (faults w) = false ->
  hd false (tl (faults w)) = false ->
  file req = Some f ->
  Z.of_nat (length (buffer f)) <= MAX_FILE_SIZE cfg ->
  ALLOWED (detect lib f) = true ->
  sharp_resize lib thumb_options (buffer f) = Some thumb ->
  api_upload lib cfg req w
  = (Json 200 (Uploaded
       (upload_meta lib cfg req f w
          (s3_host cfg
           ++ JS.encodeURIComponent ("images/" ++ upload_filename lib req f w))
          (s3_host cfg
           ++ JS.encodeURIComponent ("images/" ++ upload_thumbname lib req f w)))),
     {| root := root w;
        bucket :=
          bucket_put (stored_object (upload_thumbname lib req f w) thumb
                        (detect lib f) w)
            (bucket_put (stored_object (upload_filename lib req f w) (buffer f)
                           (detect lib f) w)
               (bucket w));
        clock := clock w;
        faults := tl (tl (faults w));
        calls := (calls w ++ [PutObject ("images/" ++ upload_filename lib req f w)])
                 ++ [PutObject ("images/" ++ upload_thumbname lib req f w)] |}).
Proof.
  intros Hs3 Hf1 Hf2 Hfile Hsize Hok Hsharp.
  rewrite (api_upload_within_limit _ _ _ _ _ Hfile Hsize).
  rewrite (upload_handler_allowed _ _ _ _ _ Hfile Hok), Hsharp.
  unfold put_original, put_thumbnail. rewrite Hs3.
  rewrite (uploadBufferToS3_ok _ _ _ _ _ Hf1).
  rewrite uploadBufferToS3_ok by exact Hf2.
  reflexivity.
Qed.


Lemma bucket_delete_put o b :
  bucket_delete (Key o) (bucket_put o b) = bucket_delete (Key o) b.
Proof.
  unfold bucket_delete. induction b as [|x t IH]; cbn [bucket_put filter].
  - now rewrite String.eqb_refl.
  - destruct (String.compare (Key o) (Key x)) eqn:E; cbn [filter].
    + apply String.compare_eq_iff in E. rewrite <- E, String.eqb_refl. reflexivity.
    + now rewrite String.eqb_refl.
    + now rewrite IH.
Qed.

Lemma bucket_delete_comm k k' b :
  bucket_delete k (bucket_delete k' b) = bucket_delete k' (bucket_delete k b).
Proof.
  unfold bucket_delete. induction b as [|x t IH]; [reflexivity|]. cbn [filter].
  destruct (String.eqb k' (Key x)) eqn:E1, (String.eqb k (Key x)) eqn:E2;
    cbn [filter negb]; rewrite ?E1, ?E2; cbn [negb]; now rewrite ?IH.
Qed.

Lemma delete_try_s3 cfg file w :
  is_s3 cfg = true -> faults w = [] ->
  exists w', delete_try cfg file w = (Ret (Json 200 OkBody), w')
             /\ bucket w'
                = bucket_delete ("images/" ++ extname_thumb_name file)
                    (bucket_delete ("images/" ++ file) (bucket w))
             /\ root w' = root w /\ faults w' = [].
Proof.
  intros Hs3 Hf. unfold delete_try. rewrite Hs3.
  destruct (deleteObject_no_fault ("images/" ++ file) w Hf)
    as (w1 & E1 & Hf1 & Hb1 & Hr1).
  destruct (deleteObject_no_fault ("images/" ++ extname_thumb_name file) w1 Hf1)
    as (w2 & E2 & Hf2 & Hb2 & Hr2).
  exists w2. unfold bind at 1. unfold bind at 1. rewrite E1, E2. unfold ret.
  repeat split; congruence.
Qed.

(** On S3, deleting what was just uploaded gives the bucket back as it
    was before the upload, when the two names were free. *)
Theorem upload_then_delete_restores_bucket lib cfg req dreq f thumb w :
  is_s3 cfg = true ->
  faults w = [] ->
  file req = Some f ->
  Z.of_nat (length (buffer f)) <= MAX_FILE_SIZE cfg ->
  ALLOWED (detect lib f) = true ->
  sharp_resize lib thumb_options (buffer f) = Some thumb ->
  regular_names lib req f ->
  bucket_has ("images/" ++ upload_filename lib req f w) (bucket w) = false ->
  bucket_has ("images/" ++ upload_thumbname lib req f w) (bucket w) = false ->
  forbidden cfg dreq = false ->
  params_file dreq = upload_filename lib req f w ->
  fst (api_delete cfg dreq (snd (api_upload lib cfg req w))) = Json 200 OkBody
  /\ bucket (snd (api_delete cfg dreq (snd (api_upload lib cfg req w)))) = bucket w.
Proof.
  intros Hs3 Hf Hfile Hsize Hok Hsharp (Hr1 & Hr2 & He1 & He2 & He3) Hfree1 Hfree2
         Hforb Hid.
  assert (Hh1 : hd false (faults w) = false) by now rewrite Hf.
  assert (Hh2 : hd false (tl (faults w)) = false) by now rewrite Hf.
  rewrite (upload_s3_run lib cfg req f thumb w Hs3 Hh1 Hh2 Hfile Hsize Hok Hsharp).
  cbn [snd].
  set (w1 := {| root := root w; bucket := _; clock := clock w;
                faults := tl (tl (faults w)); calls := _ |}).
  assert (Hb : bucket w1
               = bucket_put (stored_object (upload_thumbname lib req f w) thumb
                               (detect lib f) w)
                   (bucket_put (stored_object (upload_filename lib req f w)
                                  (buffer f) (detect lib f) w) (bucket w)))
    by reflexivity.
  assert (Hf1 : faults w1 = []) by (cbn [w1 faults]; now rewrite Hf).
  destruct (delete_try_s3 cfg (params_file dreq) w1 Hs3 Hf1) as (w2 & E & Hb2 & _).
  unfold api_delete, catch500. rewrite Hforb, E. cbn [fst snd].
  split; [reflexivity|].
  destruct (upload_names_round_trip lib req f w Hr1 Hr2 He1 He2 He3) as (Hrt & _).
  rewrite Hb2, Hid, Hrt, Hb.
  set (oT := stored_object (upload_thumbname lib req f w) thumb (detect lib f) w).
  set (oO := stored_object (upload_filename lib req f w) (buffer f) (detect lib f) w).
  rewrite bucket_delete_comm.
  change ("images/" ++ upload_thumbname lib req f w) with (Key oT).
  rewrite bucket_delete_put.
  rewrite bucket_delete_comm.
  change ("images/" ++ upload_filename lib req f w) with (Key oO).
  rewrite bucket_delete_put.
  cbn [Key oO oT stored_object].
  rewrite (bucket_delete_absent _ _ Hfree1).
  apply (bucket_delete_absent _ _ Hfree2).
Qed.

(** ** Delete: what it leaves alone, and where it fails *)

Lemma same_kind_trans a b c : same_kind a b -> same_kind b c -> same_kind a c.
Proof. intros H1 H2. inversion H1; subst; inversion H2; subst; constructor. Qed.

Lemma remove_at_inr p : forall n r,
  remove_at p n = inr r ->
  is_dir n = true /\ exists d m, lookup p n = Some (File d m).
Proof.
  induction p as [|seg rest IH]; intros n r H; [discriminate|].
  destruct n as [d0 m0|es]; [destruct rest; discriminate|].
  split; [reflexivity|].
  destruct rest as [|s rest'].
  - cbn [remove_at] in H. cbn [lookup].
    destruct (assoc_find seg es) as [[d m|ces]|]; try discriminate. now exists d, m.
  - change (remove_at (seg :: s :: rest') (Dir es))
      with (match assoc_find seg es with
            | Some child =>
                match remove_at (s :: rest') child with
                | inr child' => inr (Dir (assoc_set seg child' es))
                | inl e => inl e
                end
            | None => inl ENOENT
            end) in H.
    change (lookup (seg :: s :: rest') (Dir es))
      with (match assoc_find seg es with
            | Some c => lookup (s :: rest') c
            | None => None
            end).
    destruct (assoc_find seg es) as [child|]; [|discriminate].
    destruct (remove_at (s :: rest') child) as [e|child'] eqn:Hr; [discriminate|].
    exact (proj2 (IH _ _ Hr)).
Qed.

Lemma remove_at_others p n r :
  remove_at p n = inr r ->
  forall x, x <> p -> same_kind (lookup x n) (lookup x r).
Proof.
  intros H. destruct (remove_at_inr _ _ _ H) as (Hdir & d & m & Hl).
  destruct (remove_at_file _ _ _ _ Hdir Hl) as (r' & Hr' & _ & _ & Hsame).
  rewrite H in Hr'. injection Hr' as <-. exact Hsame.
Qed.

Lemma remove_at_dir p : forall n es,
  lookup p n = Some (Dir es) -> exists e, remove_at p n = inl e.
Proof.
  induction p as [|seg rest IH]; intros n es H.
  - now exists EISDIR.
  - destruct n as [d0 m0|es0]; [discriminate|].
    cbn [lookup] in H. destruct (assoc_find seg es0) as [child|] eqn:Hc; [|discriminate].
    destruct rest as [|s rest'].
    + cbn [lookup] in H. injection H as ->. cbn [remove_at]. rewrite Hc.
      now exists EISDIR.
    + destruct (IH _ _ H) as [e He].
      change (remove_at (seg :: s :: rest') (Dir es0))
        with (match assoc_find seg es0 with
              | Some child =>
                  match remove_at (s :: rest') child with
                  | inr child' => inr (Dir (assoc_set seg child' es0))
                  | inl e => inl e
                  end
              | None => inl ENOENT
              end).
      rewrite Hc, He. now exists e.
Qed.

Lemma unlink_if_present_others p w o w' :
  unlink_if_present p w = (o, w') ->
  bucket w' = bucket w
  /\ forall q, segments q <> segments p ->
               same_kind (resolve q (root w)) (resolve q (root w')).
Proof.
  unfold unlink_if_present, bind, existsSync.
  destruct (resolve p (root w)) as [n|] eqn:Hres.
  - unfold unlink, bind.
    destruct (backend (Unlink (segments p)) w) as [[[]|e] w0] eqn:Hb.
    + apply backend_calls in Hb as (_ & Hr & Hbk & _).
      rewrite Hr, Hres.
      destruct (remove_at (segments p) (root w)) as [e|r] eqn:Hrm.
      * rewrite <- Hr. intros H. injection H as _ <-. split; [exact Hbk|].
        intros q _. rewrite Hr. apply same_kind_refl.
      * intros H. injection H as _ <-. cbn [set_root bucket root]. split; [exact Hbk|].
        intros q Hq. apply resolve_same_kind. now apply (remove_at_others _ _ _ Hrm).
    + apply backend_calls in Hb as (_ & Hr & Hbk & _).
      intros H. injection H as _ <-. split; [exact Hbk|].
      intros q _. rewrite Hr. apply same_kind_refl.
  - unfold ret. intros H. injection H as _ <-. split; [reflexivity|].
    intros q _. apply same_kind_refl.
Qed.

Lemma deleteObject_others k w o w' :
  deleteObject k w = (o, w') ->
  root w' = root w
  /\ forall x, Key x <> k -> (In x (bucket w') <-> In x (bucket w)).
Proof.
  unfold deleteObject, bind.
  destruct (backend (DeleteObject k) w) as [[[]|e] w0] eqn:Hb;
    apply backend_calls in Hb as (_ & Hr & Hbk & _);
    intros H; injection H as _ <-; cbn [set_bucket root bucket];
    (split; [exact Hr|]); intros x Hx; rewrite Hbk; [|reflexivity].
  unfold bucket_delete. rewrite filter_In. split; [tauto|].
  intros Hin. split; [exact Hin|].
  apply negb_true_iff, String.eqb_neq. congruence.
Qed.

(** Whatever the request and whatever fails, Delete touches nothing but
    the original and the thumbnail it names: on S3 every object under
    another key stays in the bucket and the disk is not touched; on disk
    every other path keeps what it held (nothing, the same file, or a
    directory) and the bucket is not touched. *)
Theorem delete_leaves_everything_else cfg req w :
  (is_s3 cfg = true ->
   root (snd (api_delete cfg req w)) = root w
   /\ forall x,
        Key x <> "images/" ++ params_file req ->
        Key x <> "images/" ++ extname_thumb_name (params_file req) ->
        (In x (bucket (snd (api_delete cfg req w))) <-> In x (bucket w)))
  /\ (is_s3 cfg = false ->
      bucket (snd (api_delete cfg req w)) = bucket w
      /\ forall q,
           segments q <> segments (original_path cfg (params_file req)) ->
           segments q <> segments (thumbnail_path cfg (params_file req)) ->
           same_kind (resolve q (root w)) (resolve q (root (snd (api_delete cfg req w))))).
Proof.
  unfold api_delete.
  destruct (forbidden cfg req).
  { cbn [snd]. split; intros _; (split; [reflexivity|]); intros; [reflexivity|].
    apply same_kind_refl. }
  unfold catch500, delete_try. split; intros Hs3; rewrite Hs3.
  - unfold bind.
    destruct (deleteObject ("images/" ++ params_file req) w) as [[[]|e1] w1] eqn:E1.
    + apply deleteObject_others in E1 as (Hr1 & Hb1).
      destruct (deleteObject _ w1) as [[[]|e2] w2] eqn:E2;
        apply deleteObject_others in E2 as (Hr2 & Hb2); unfold ret; cbn [snd];
        (split; [congruence|]); intros x H1 H2; rewrite Hb2, Hb1; tauto.
    + apply deleteObject_others in E1 as (Hr1 & Hb1). cbn [snd].
      split; [exact Hr1|]. intros x H1 _. now apply Hb1.
  - fold (original_path cfg (params_file req)).
    fold (thumbnail_path cfg (params_file req)).
    unfold bind.
    destruct (unlink_if_present (original_path cfg (params_file req)) w)
      as [[[]|e1] w1] eqn:E1.
    + apply unlink_if_present_others in E1 as (Hb1 & Hk1).
      destruct (unlink_if_present _ w1) as [[[]|e2] w2] eqn:E2;
        apply unlink_if_present_others in E2 as (Hb2 & Hk2); unfold ret; cbn [snd];
        (split; [congruence|]); intros q H1 H2;
        exact (same_kind_trans _ _ _ (Hk1 q H1) (Hk2 q H2)).
    + apply unlink_if_present_others in E1 as (Hb1 & Hk1). cbn [snd].
      split; [exact Hb1|]. intros q H1 _. now apply Hk1.
Qed.

Lemma unlink_if_present_dir p w :
  dir_at p w = true ->
  exists e w', unlink_if_present p w = (Throw e, w')
               /\ root w' = root w /\ bucket w' = bucket w.
Proof.
  intros Hdir. unfold dir_at in Hdir.
  unfold unlink_if_present, bind, existsSync.
  destruct (resolve p (root w)) as [[d m|es]|] eqn:Hres; try discriminate.
  unfold unlink, bind.
  destruct (backend (Unlink (segments p)) w) as [[[]|e] w0] eqn:Hb;
    apply backend_calls in Hb as (_ & Hr & Hbk & _).
  - rewrite Hr, Hres.
    assert (Hl : lookup (segments p) (root w) = Some (Dir es)).
    { unfold resolve in Hres.
      destruct (lookup _ (root w)) as [[d m|es']|]; try discriminate; [|exact Hres].
      destruct (trailing_slash _); discriminate. }
    destruct (remove_at_dir _ _ _ Hl) as [e He]. rewrite He. now exists e, w0.
  - now exists e, w0.
Qed.

(** On disk, an id that names a directory ([thumbs], say) cannot be
    deleted: Delete answers the server error and the tree and the
    bucket stay as they were. *)
Theorem delete_of_directory_fails cfg req w :
  is_s3 cfg = false ->
  forbidden cfg req = false ->
  dir_at (original_path cfg (params_file req)) w = true ->
  fst (api_delete cfg req w) = server_error
  /\ root (snd (api_delete cfg req w)) = root w
  /\ bucket (snd (api_delete cfg req w)) = bucket w.
Proof.
  intros Hs3 Hforb Hdir. unfold api_delete, catch500, delete_try.
  rewrite Hforb, Hs3. fold (original_path cfg (params_file req)).
  destruct (unlink_if_present_dir _ _ Hdir) as (e & w' & E & Hr & Hb).
  unfold bind. rewrite E. auto.
Qed.

(** *** Names without an extension *)

Lemma extname_loop_no_dot l : forall i st,
  Forall (fun c => Ascii.eqb c "." = false) l ->
  Path.startDot st = -1 ->
  Path.startDot (Path.extname_loop l i st) = -1.
Proof.
  induction l as [|c t IH]; intros i st Hl Hst; [exact Hst|].
  inversion Hl as [|? ? Hc Ht]; subst. cbn [Path.extname_loop].
  destruct (Ascii.eqb c "/").
  - destruct (negb (Path.matchedSlash st)); [exact Hst | now apply IH].
  - rewrite Hc. apply IH; [exact Ht|].
    destruct (Path.end_ st =? -1); cbn [Path.startDot]; rewrite Hst;
      cbn [Z.eqb Pos.eqb negb]; auto.
Qed.

Lemma no_dot_chars s :
  has_char "." s = false ->
  Forall (fun c => Ascii.eqb c "." = false) (list_ascii_of_string s).
Proof.
  induction s as [|c t IH]; intros H; cbn [list_ascii_of_string]; [constructor|].
  cbn [has_char] in H. apply orb_false_iff in H as [Hc Ht].
  constructor; [exact Hc | now apply IH].
Qed.

Lemma extname_no_dot s : has_char "." s = false -> Path.extname s = "".
Proof.
  intros H. unfold Path.extname.
  rewrite extname_loop_no_dot; [reflexivity | | reflexivity].
  apply Forall_rev, no_dot_chars, H.
Qed.

Lemma split_first_no_dot e s :
  has_char "." s = false -> JS.split_first (String "." e) s = None.
Proof.
  induction s as [|c t IH]; intros H; [reflexivity|].
  cbn [has_char] in H. apply orb_false_iff in H as [Hc Ht].
  cbn [JS.split_first String.prefix].
  destruct (ascii_dec "." c) as [E|E]; [subst c; discriminate|].
  now rewrite (IH Ht).
Qed.

(** A name without a dot has no thumbnail name of its own: Delete and
    both branches of List derive the name itself, so the thumbnail they
    look for under [images/] is the original. *)
Theorem name_without_dot_is_its_own_thumbnail f :
  has_char "." f = false ->
  extname_thumb_name f = f
  /\ s3_list_thumb_name f = f.
Proof.
  intros H. split.
  - unfold extname_thumb_name. rewrite (extname_no_dot _ H).
    cbn [JS.slice_from append]. unfold JS.replace.
    now rewrite (split_first_no_dot _ _ H).
  - unfold s3_list_thumb_name, JS.replace. now rewrite (split_first_no_dot _ _ H).
Qed.

Lemma name_without_dot_is_its_own_thumbnail_witness :
  extname_thumb_name "README" = "README"
  /\ s3_list_thumb_name "README" = "README".
Proof. apply name_without_dot_is_its_own_thumbnail. reflexivity. Defined.

(** *** Ids that climb out of the uploads directory *)

Lemma rev_string_app a : forall b c,
  JS.rev_string (a ++ b) c = JS.rev_string b (JS.rev_string a c).
Proof.
  induction a as [|x a IH]; intros b c; [reflexivity|].
  cbn [append JS.rev_string]. apply IH.
Qed.

Lemma rev_string_head t : forall X,
  has_char "/" t = false ->
  String.prefix "/" X = false ->
  String.prefix "/" (JS.rev_string t X) = false.
Proof.
  induction t as [|c t IH]; intros X Ht HX; [exact HX|].
  cbn [has_char] in Ht. apply orb_false_iff in Ht as [Hc Ht].
  cbn [JS.rev_string]. apply IH; [exact Ht|].
  cbn [String.prefix]. destruct (ascii_dec "/" c) as [E|E]; [|reflexivity].
  subst c. discriminate.
Qed.

Lemma endsWith_slash_suffix a n :
  n <> "" -> has_char "/" n = false -> JS.endsWith "/" (a ++ n) = false.
Proof.
  intros Hne Hn. unfold JS.endsWith. cbn [JS.rev_string].
  rewrite rev_string_app. destruct n as [|c t]; [congruence|].
  cbn [has_char] in Hn. apply orb_false_iff in Hn as [Hc Ht].
  cbn [JS.rev_string]. apply rev_string_head; [exact Ht|].
  cbn [String.prefix]. destruct (ascii_dec "/" c) as [E|E]; [|reflexivity].
  subst c. discriminate.
Qed.

Lemma plain_name_parts n :
  plain_name n = true ->
  n <> "" /\ String.eqb n "" = false /\ String.eqb n "." = false
  /\ String.eqb n ".." = false /\ has_char "/" n = false.
Proof.
  unfold plain_name. intros H.
  apply andb_true_iff in H as [H Hs]. apply andb_true_iff in H as [H Hdd].
  apply andb_true_iff in H as [He Hd].
  apply negb_true_iff in Hs, Hdd, He, Hd.
  repeat split; auto. intros ->. discriminate.
Qed.

(** [path.join(UPLOAD_DIR, "../" + name)] is [name] beside [uploads]. *)
Lemma original_path_parent cfg n :
  plain_name n = true ->
  original_path cfg ("../" ++ n)
  = {| segments := dirname cfg ++ [n]; trailing_slash := false |}.
Proof.
  intros H. destruct (plain_name_parts _ H) as (Hne & He & Hd & Hdd & Hs).
  unfold original_path, path_join, UPLOAD_DIR.
  rewrite (endsWith_slash_suffix "../" n Hne Hs).
  cbn [append split_slash Ascii.eqb Bool.eqb JS.rev_string].
  rewrite (split_slash_no_slash _ _ Hs), rev_string_rev_string.
  cbn [JS.rev_string append]. rewrite string_app_empty_r.
  rewrite rev_app_distr. cbn [rev app normalize_segments String.eqb Ascii.eqb Bool.eqb orb tl].
  rewrite He, Hd, Hdd. cbn [orb rev]. now rewrite rev_involutive.
Qed.

(** Delete is not confined to the uploads directory: on disk, the id
    [../name] names the file [name] beside [uploads], and Delete removes
    it. *)
Theorem delete_reaches_beside_uploads cfg req n d m w :
  is_s3 cfg = false ->
  forbidden cfg req = false ->
  faults w = [] ->
  is_dir (root w) = true ->
  plain_name n = true ->
  params_file req = "../" ++ n ->
  lookup (dirname cfg ++ [n]) (root w) = Some (File d m) ->
  dir_at (thumbnail_path cfg ("../" ++ n)) w = false ->
  fst (api_delete cfg req w) = Json 200 OkBody
  /\ lookup (dirname cfg ++ [n]) (root (snd (api_delete cfg req w))) = None.
Proof.
  intros Hs3 Hforb Hf Hroot Hn Hid Hfile Hth.
  pose proof (original_path_parent cfg n Hn) as Hp.
  assert (Hd : deletable cfg (params_file req) w).
  { split; [exact Hf|]. intros _. rewrite Hid. repeat split; auto.
    unfold dir_at, resolve. rewrite Hp. cbn [segments trailing_slash].
    now rewrite Hfile. }
  destruct (api_delete_ok _ _ _ Hforb Hd) as (w' & E & _ & Hg).
  rewrite E. cbn [fst snd]. split; [reflexivity|].
  unfold gone in Hg. rewrite Hs3, Hid, Hp in Hg. destruct Hg as [Hg _].
  unfold resolve in Hg. cbn [segments trailing_slash] in Hg.
  destruct (lookup (dirname cfg ++ [n]) (root w')) as [[d' m'|es]|];
    [discriminate | discriminate | reflexivity].
Qed.

Lemma deleteObject_ok k w :
  hd false (faults w) = false ->
  deleteObject k w
  = (Ret tt, {| root := root w; bucket := bucket_delete k (bucket w);
                clock := clock w; faults := tl (faults w);
                calls := calls w ++ [DeleteObject k] |}).
Proof. intros H. unfold deleteObject, bind. now rewrite (backend_ok _ _ H). Qed.

Lemma deleteObject_fault k w :
  hd false (faults w) = true ->
  deleteObject k w
  = (Throw BackendFault,
     {| root := root w; bucket := bucket w; clock := clock w;
        faults := tl (faults w); calls := calls w ++ [DeleteObject k] |}).
Proof. intros H. unfold deleteObject, bind, backend, request. now rewrite H. Qed.

(** Delete is not atomic: on S3, when the removal of the original goes
    through and the removal of the thumbnail fails, Delete answers the
    server error and the original stays removed. *)
Theorem delete_s3_second_failure_keeps_first cfg req w :
  is_s3 cfg = true ->
  forbidden cfg req = false ->
  hd false (faults w) = false ->
  hd false (tl (faults w)) = true ->
  fst (api_delete cfg req w) = server_error
  /\ bucket (snd (api_delete cfg req w))
     = bucket_delete ("images/" ++ params_file req) (bucket w)
  /\ root (snd (api_delete cfg req w)) = root w.
Proof.
  intros Hs3 Hforb H1 H2. unfold api_delete, catch500, delete_try.
  rewrite Hforb, Hs3. unfold bind.
  rewrite (deleteObject_ok _ _ H1).
  rewrite deleteObject_fault by exact H2.
  repeat split.
Qed.

(** ** List: what it reads and what it returns *)

Lemma stat_world p w o w' : stat p w = (o, w') -> w' = w.
Proof.
  unfold stat. destruct (resolve p (root w)); intros H; now injection H as _ <-.
Qed.

Lemma filterM_world {A} (f : A -> M bool) l :
  (forall a w o w', f a w = (o, w') -> w' = w) ->
  forall w o w', filterM f l w = (o, w') -> w' = w.
Proof.
  intros Hf. induction l as [|a t IH]; intros w o w' H; cbn [filterM] in H.
  - unfold ret in H. now injection H as _ <-.
  - unfold bind in H. destruct (f a w) as [[keep|e] w1] eqn:Ha.
    + apply Hf in Ha. subst w1.
      destruct (filterM f t w) as [[r|e] w2] eqn:Ht.
      * apply IH in Ht. subst w2. unfold ret in H. now injection H as _ <-.
      * apply IH in Ht. subst w2. now injection H as _ <-.
    + apply Hf in Ha. subst w1. now injection H as _ <-.
Qed.

Lemma mapM_world {A B} (f : A -> M B) l :
  (forall a w o w', f a w = (o, w') -> w' = w) ->
  forall w o w', mapM f l w = (o, w') -> w' = w.
Proof.
  intros Hf. induction l as [|a t IH]; intros w o w' H; cbn [mapM] in H.
  - unfold ret in H. now injection H as _ <-.
  - unfold bind in H. destruct (f a w) as [[b|e] w1] eqn:Ha.
    + apply Hf in Ha. subst w1.
      destruct (mapM f t w) as [[r|e] w2] eqn:Ht.
      * apply IH in Ht. subst w2. unfold ret in H. now injection H as _ <-.
      * apply IH in Ht. subst w2. now injection H as _ <-.
    + apply Hf in Ha. subst w1. now injection H as _ <-.
Qed.

Lemma local_entry_world cfg req f w o w' : local_entry cfg req f w = (o, w') -> w' = w.
Proof.
  unfold local_entry, bind.
  destruct (stat _ w) as [[st|e] w1] eqn:Hs; apply stat_world in Hs; subst w1;
    unfold ret; intros H; now injection H as _ <-.
Qed.

Lemma stat_is_dir_world cfg f w o w' :
  (st <- stat (path_join (UPLOAD_DIR cfg) f) ;; ret (negb (is_dir st))) w = (o, w') ->
  w' = w.
Proof.
  unfold bind.
  destruct (stat _ w) as [[st|e] w1] eqn:Hs; apply stat_world in Hs; subst w1;
    unfold ret; intros H; now injection H as _ <-.
Qed.

Lemma readdir_world p w o w' :
  readdir p w = (o, w') ->
  calls w' = (calls w ++ [Readdir p])%list /\ root w' = root w /\ bucket w' = bucket w.
Proof.
  unfold readdir, bind.
  destruct (backend (Readdir p) w) as [[[]|e] w1] eqn:Hb;
    apply backend_calls in Hb as (Hc & Hr & Hbk & _).
  - destruct (lookup p (root w1)) as [[d m|es]|]; intros H; injection H as _ <-; auto.
  - intros H. injection H as _ <-. auto.
Qed.

(** List only reads: whatever it answers and whatever fails, the tree
    and the bucket are what they were, and of the requests the log
    keeps (writes, removals, listings) it has sent exactly one, the
    listing of [images/] or of the uploads directory. *)
Theorem list_only_reads cfg req w :
  root (snd (api_list cfg req w)) = root w
  /\ bucket (snd (api_list cfg req w)) = bucket w
  /\ calls (snd (api_list cfg req w)) = (calls w ++ [list_call cfg])%list.
Proof.
  unfold api_list, catch500, list_call. destruct (is_s3 cfg).
  - unfold list_s3, listObjectsV2, bind.
    destruct (backend (ListObjectsV2 "images/") w) as [[[]|e] w1] eqn:Hb;
      apply backend_calls in Hb as (Hc & Hr & Hbk & _); unfold ret; cbn [snd]; auto.
  - unfold list_local, bind.
    destruct (readdir (UPLOAD_DIR cfg) w) as [[files|e] w1] eqn:Hrd;
      apply readdir_world in Hrd as (Hc & Hr & Hbk); [|cbn [snd]; auto].
    destruct (filterM _ _ w1) as [[images|e] w2] eqn:Hf;
      apply (filterM_world _ _ (stat_is_dir_world cfg)) in Hf; subst w2;
      [|cbn [snd]; auto].
    destruct (mapM (local_entry cfg req) images w1) as [[items|e] w3] eqn:Hm;
      apply (mapM_world _ _ (local_entry_world cfg req)) in Hm; subst w3;
      unfold ret; cbn [snd]; auto.
Qed.

(** On S3 a List shows at most one page: every entry it returns comes
    from one of the first 1000 objects under [images/] in key order, so
    there are never more than 1000 entries, whatever the bucket holds. *)
Theorem list_s3_is_one_page cfg req w items :
  is_s3 cfg = true ->
  fst (api_list cfg req w) = Json 200 (Listing items) ->
  (length items <= MaxKeys)%nat
  /\ Forall (fun e =>
               exists o,
                 In o (firstn MaxKeys
                         (filter (fun o => JS.startsWith "images/" (Key o)) (bucket w)))
                 /\ e = s3_entry cfg o) items.
Proof.
  intros Hs3. unfold api_list, catch500. rewrite Hs3.
  unfold list_s3, listObjectsV2, bind.
  destruct (backend (ListObjectsV2 "images/") w) as [[[]|e] w1] eqn:Hb;
    apply backend_calls in Hb as (_ & _ & Hbk & _); unfold ret; cbn [fst];
    [|discriminate].
  rewrite Hbk. intros H. injection H as <-.
  set (page := firstn MaxKeys _). split.
  - rewrite length_rev, length_map.
    etransitivity; [apply filter_length_le|].
    exact (firstn_le_length MaxKeys _).
  - apply Forall_rev, Forall_forall. intros e He.
    apply in_map_iff in He as (o & <- & Ho). apply filter_In in Ho as [Ho _].
    now exists o.
Qed.

(** *** [path.basename] of a key under a prefix *)

Lemma basename_loop_name l : forall more i s e,
  Forall (fun c => Ascii.eqb c "/" = false) l ->
  e <> -1 ->
  Path.basename_loop (l ++ "/"%char :: more) i (base_state s e)
  = base_state (i - Z.of_nat (length l) + 1) e.
Proof.
  induction l as [|c t IH]; intros more i s e Hl He.
  - cbn [app length Z.of_nat Path.basename_loop]. change (Ascii.eqb "/" "/") with true.
    cbn [base_state Path.b_matchedSlash negb Path.b_end]. unfold base_state.
    f_equal. lia.
  - inversion Hl as [|? ? Hc Ht]; subst.
    cbn [app Path.basename_loop]. rewrite Hc.
    cbn [base_state Path.b_end]. rewrite (proj2 (Z.eqb_neq e (-1)) He).
    fold (base_state s e). rewrite (IH more (i - 1) s e Ht He).
    unfold base_state. f_equal. cbn [length]. lia.
Qed.

Lemma no_slash_chars s :
  has_char "/" s = false ->
  Forall (fun c => Ascii.eqb c "/" = false) (list_ascii_of_string s).
Proof.
  induction s as [|c t IH]; intros H; cbn [list_ascii_of_string]; [constructor|].
  cbn [has_char] in H. apply orb_false_iff in H as [Hc Ht].
  constructor; [exact Hc | now apply IH].
Qed.

(** [path.basename(prefix + "/" + name)] is [name], for a name that is
    not empty and holds no separator. *)
Lemma basename_under_prefix pre n :
  n <> "" -> has_char "/" n = false ->
  Path.basename (pre ++ "/" ++ n) = n.
Proof.
  intros Hne Hn. unfold Path.basename.
  rewrite list_ascii_app. change (list_ascii_of_string ("/" ++ n))
    with ("/"%char :: list_ascii_of_string n).
  rewrite rev_app_distr. cbn [rev]. rewrite <- app_assoc. cbn [app].
  rewrite length_app. cbn [length]. rewrite !length_list_ascii.
  pose proof (no_slash_chars _ Hn) as Pn. apply Forall_rev in Pn.
  assert (Hlen : length (rev (list_ascii_of_string n)) = String.length n)
    by now rewrite length_rev, length_list_ascii.
  destruct (rev (list_ascii_of_string n)) as [|c t] eqn:Er.
  - destruct n; [congruence | discriminate].
  - inversion Pn as [|? ? Hc Ht]; subst.
    cbn [app Path.basename_loop]. rewrite Hc.
    cbn [Path.b_end Z.eqb Pos.eqb Path.b_start].
    set (p := String.length pre) in *. set (m := String.length n) in *.
    fold (base_state 0 (Z.of_nat (p + S m) - 1 + 1)).
    rewrite (basename_loop_name t _ _ 0 (Z.of_nat (p + S m) - 1 + 1) Ht) by lia.
    cbn [base_state Path.b_end Path.b_start].
    rewrite (proj2 (Z.eqb_neq (Z.of_nat (p + S m) - 1 + 1) (-1)) ltac:(lia)).
    cbn [length] in Hlen.
    replace (Z.to_nat (Z.of_nat (p + S m) - 1 - 1 - Z.of_nat (length t) + 1))
      with (S p) by lia.
    replace (Z.to_nat (Z.of_nat (p + S m) - 1 + 1
                       - (Z.of_nat (p + S m) - 1 - 1 - Z.of_nat (length t) + 1)))
      with m by lia.
    subst p m.
    replace (pre ++ "/" ++ n) with ((pre ++ "/") ++ n)
      by now rewrite string_app_assoc.
    replace (S (String.length pre)) with (String.length (pre ++ "/")).
    + rewrite substring_skip. apply substring_all.
    + clear. induction pre as [|x pre IH]; cbn [append String.length]; congruence.
Qed.

(** On S3, List names each object under [images/] by the text after the
    prefix, and that name is the id under which Delete removes the
    object: after a Delete of the listed name with nothing failing, the
    object is gone from the bucket. *)
Theorem list_s3_names_what_delete_removes cfg req o n w :
  is_s3 cfg = true ->
  n <> "" -> has_char "/" n = false ->
  Key o = "images/" ++ n ->
  e_file (s3_entry cfg o) = n
  /\ (forbidden cfg req = false ->
      faults w = [] ->
      params_file req = e_file (s3_entry cfg o) ->
      fst (api_delete cfg req w) = Json 200 OkBody
      /\ bucket_has (Key o) (bucket (snd (api_delete cfg req w))) = false).
Proof.
  intros Hs3 Hne Hn Hkey.
  assert (Hfile : e_file (s3_entry cfg o) = n).
  { cbn [s3_entry e_file]. rewrite Hkey.
    exact (basename_under_prefix "images" n Hne Hn). }
  split; [exact Hfile|]. intros Hforb Hf Hid.
  assert (Hd : deletable cfg (params_file req) w).
  { split; [exact Hf|]. rewrite Hs3. discriminate. }
  destruct (api_delete_ok _ _ _ Hforb Hd) as (w' & E & _ & Hg).
  rewrite E. cbn [fst snd]. split; [reflexivity|].
  unfold gone in Hg. rewrite Hs3 in Hg. destruct Hg as [Hg _].
  now rewrite Hkey, <- Hfile, <- Hid.
Qed.

(** *** The local listing, entry by entry *)

Lemma filterM_pure {A} (f : A -> M bool) (p : A -> bool) l w :
  (forall a, In a l -> f a w = (Ret (p a), w)) ->
  filterM f l w = (Ret (filter p l), w).
Proof.
  induction l as [|a t IH]; intros H; [reflexivity|].
  cbn [filterM filter]. unfold bind. rewrite (H a (or_introl eq_refl)).
  rewrite IH by (intros b Hb; apply H; now right). reflexivity.
Qed.

Lemma mapM_pure {A B} (f : A -> M B) (g : A -> B) l w :
  (forall a, In a l -> f a w = (Ret (g a), w)) ->
  mapM f l w = (Ret (map g l), w).
Proof.
  induction l as [|a t IH]; intros H; [reflexivity|].
  cbn [mapM map]. unfold bind. rewrite (H a (or_introl eq_refl)).
  rewrite IH by (intros b Hb; apply H; now right). reflexivity.
Qed.

Lemma assoc_find_NoDup {A} (l : list (string * A)) k v :
  NoDup (map fst l) -> In (k, v) l -> assoc_find k l = Some v.
Proof.
  induction l as [|[k' v'] t IH]; intros Hnd Hin; [contradiction|].
  cbn [map fst] in Hnd. inversion Hnd as [|? ? Hnot Hnd']; subst.
  cbn [assoc_find]. destruct Hin as [E|Hin].
  - injection E as -> ->. now rewrite String.eqb_refl.
  - destruct (String.eqb k k') eqn:Ek.
    + apply String.eqb_eq in Ek. subst k'. exfalso. apply Hnot.
      apply in_map_iff. now exists (k, v).
    + now apply IH.
Qed.

Lemma resolve_no_trailing segs n :
  resolve {| segments := segs; trailing_slash := false |} n = lookup segs n.
Proof.
  unfold resolve. cbn [segments trailing_slash].
  now destruct (lookup segs n) as [[d m|es]|].
Qed.

Lemma stat_child cfg w es k v :
  lookup (UPLOAD_DIR cfg) (root w) = Some (Dir es) ->
  plain_name k = true ->
  assoc_find k es = Some v ->
  stat (path_join (UPLOAD_DIR cfg) k) w = (Ret v, w).
Proof.
  intros Hdir Hk Hv. unfold stat.
  rewrite (path_join_plain _ _ Hk), resolve_no_trailing.
  now rewrite (lookup_child _ _ _ _ Hdir), Hv.
Qed.

Lemma filter_map_fst {A B} (p : A -> bool) (q : A * B -> bool) (l : list (A * B)) :
  (forall e, In e l -> p (fst e) = q e) ->
  filter p (map fst l) = map fst (filter q l).
Proof.
  induction l as [|e t IH]; intros H; [reflexivity|].
  cbn [map filter]. rewrite (H e (or_introl eq_refl)).
  rewrite IH by (intros x Hx; apply H; now right).
  now destruct (q e).
Qed.

(** The answer of List on a readable, well-formed uploads directory. *)
Lemma list_local_run cfg req w es :
  is_s3 cfg = false ->
  hd false (faults w) = false ->
  lookup (UPLOAD_DIR cfg) (root w) = Some (Dir es) ->
  Forall (fun e => plain_name (fst e) = true) es ->
  NoDup (map fst es) ->
  fst (api_list cfg req w)
  = Json 200 (Listing (sort_desc (map (listed_entry cfg req) (filter listed es)))).
Proof.
  intros Hs3 Hf Hdir Hplain Hnd.
  unfold api_list, catch500. rewrite Hs3. unfold list_local.
  unfold bind at 1. unfold readdir, bind at 1. rewrite (backend_ok _ _ Hf).
  cbn [root]. rewrite Hdir.
  set (w1 := {| root := root w; bucket := bucket w; clock := clock w;
                faults := tl (faults w);
                calls := calls w ++ [Readdir (UPLOAD_DIR cfg)] |}).
  assert (Hdir1 : lookup (UPLOAD_DIR cfg) (root w1) = Some (Dir es)) by exact Hdir.
  assert (Hfind : forall e, In e es -> assoc_find (fst e) es = Some (snd e)).
  { intros [k v] He. now apply assoc_find_NoDup. }
  assert (Hnames :
            filter (fun f => negb (String.eqb f "thumbs")) (map fst es)
            = map fst (filter (fun e => negb (String.eqb (fst e) "thumbs")) es)).
  { now apply filter_map_fst. }
  rewrite Hnames.
  set (kept := filter (fun e => negb (String.eqb (fst e) "thumbs")) es).
  assert (Hkept : forall e, In e kept -> In e es).
  { intros e He. now apply filter_In in He as [He _]. }
  unfold bind at 1.
  rewrite (filterM_pure _
             (fun f => match assoc_find f es with
                       | Some n => negb (is_dir n)
                       | None => false
                       end) (map fst kept) w1).
  2:{ intros f Hin. apply in_map_iff in Hin as (e & <- & He). apply Hkept in He.
      unfold bind.
      rewrite (stat_child cfg w1 es (fst e) (snd e) Hdir1).
      - unfold ret. now rewrite (Hfind e He).
      - rewrite Forall_forall in Hplain. now apply Hplain.
      - now apply Hfind. }
  rewrite (filter_map_fst _ (fun e => negb (is_dir (snd e))) kept).
  2:{ intros e He. now rewrite (Hfind e (Hkept e He)). }
  set (files := filter (fun e => negb (is_dir (snd e))) kept).
  assert (Hfiles : forall e, In e files -> In e es).
  { intros e He. apply filter_In in He as [He _]. now apply Hkept. }
  unfold bind at 1.
  rewrite (mapM_pure _
             (fun f => listed_entry cfg req
                         (f, match assoc_find f es with
                             | Some n => n
                             | None => Dir []
                             end)) (map fst files) w1).
  2:{ intros f Hin. apply in_map_iff in Hin as (e & <- & He). apply Hfiles in He.
      unfold local_entry, bind.
      rewrite (stat_child cfg w1 es (fst e) (snd e) Hdir1).
      - unfold ret. now rewrite (Hfind e He).
      - rewrite Forall_forall in Hplain. now apply Hplain.
      - now apply Hfind. }
  unfold ret. cbn [fst]. do 3 f_equal. rewrite map_map.
  assert (Hsame : files = filter listed es).
  { unfold files, kept, listed. clear. induction es as [|e t IH]; [reflexivity|].
    cbn [filter]. destruct (negb (String.eqb (fst e) "thumbs")); cbn [filter andb];
      [destruct (negb (is_dir (snd e))); now rewrite IH | exact IH]. }
  rewrite <- Hsame. apply map_ext_in. intros e He.
  rewrite (Hfind e (Hfiles e He)). now destruct e.
Qed.

(** On disk, with a readable uploads directory, List answers 200 with
    one entry for each regular file of the directory that is not named
    [thumbs], and nothing else: each carries the name, the size and the
    modification time of its file, and the entries come newest first. *)
Theorem list_local_lists_the_regular_files cfg req w es :
  is_s3 cfg = false ->
  hd false (faults w) = false ->
  lookup (UPLOAD_DIR cfg) (root w) = Some (Dir es) ->
  Forall (fun e => plain_name (fst e) = true) es ->
  NoDup (map fst es) ->
  exists items,
    fst (api_list cfg req w) = Json 200 (Listing items)
    /\ Permutation items (map (listed_entry cfg req) (filter listed es))
    /\ Sorted newer_first items.
Proof.
  intros Hs3 Hf Hdir Hplain Hnd.
  exists (sort_desc (map (listed_entry cfg req) (filter listed es))).
  split; [now apply list_local_run|].
  split; [symmetry; apply sort_desc_perm | apply sort_desc_sorted].
Qed.

(** ** Upload on disk *)

Lemma write_at_deeper seg s rest f es :
  write_at (seg :: s :: rest) f (Dir es)
  = match assoc_find seg es with
    | Some child =>
        match write_at (s :: rest) f child with
        | inr child' => inr (Dir (assoc_set seg child' es))
        | inl e => inl e
        end
    | None => inl ENOENT
    end.
Proof. reflexivity. Qed.

(** Writing a file into an existing directory, where no directory has
    its name, succeeds and changes that one entry of the directory. *)
Lemma write_at_child dir : forall n es name f,
  lookup dir n = Some (Dir es) ->
  (forall cs, assoc_find name es <> Some (Dir cs)) ->
  exists r, write_at (dir ++ [name]) f n = inr r
            /\ lookup dir r = Some (Dir (assoc_set name f es)).
Proof.
  induction dir as [|seg rest IH]; intros n es name f Hdir Hfree.
  - cbn [lookup] in Hdir. injection Hdir as ->. cbn [app write_at].
    destruct (assoc_find name es) as [[d m|cs]|] eqn:E;
      try (eexists; split; reflexivity).
    exfalso. now apply (Hfree cs).
  - destruct n as [d m|es0]; [discriminate|]. cbn [lookup] in Hdir.
    destruct (assoc_find seg es0) as [child|] eqn:Hc; [|discriminate].
    destruct (IH child es name f Hdir Hfree) as (child' & Hw & Hl).
    cbn [app]. destruct (rest ++ [name])%list as [|s rest'] eqn:Er.
    + destruct rest; discriminate.
    + rewrite write_at_deeper, Hc, Hw. eexists. split; [reflexivity|].
      cbn [lookup]. now rewrite assoc_find_set_same.
Qed.

(** The same one level down: the directory above sees its entry for the
    subdirectory replaced. *)
Lemma write_at_grandchild dir : forall n es sub ts name f,
  lookup dir n = Some (Dir es) ->
  assoc_find sub es = Some (Dir ts) ->
  (forall cs, assoc_find name ts <> Some (Dir cs)) ->
  exists r, write_at (dir ++ [sub; name]) f n = inr r
            /\ lookup dir r
               = Some (Dir (assoc_set sub (Dir (assoc_set name f ts)) es)).
Proof.
  induction dir as [|seg rest IH]; intros n es sub ts name f Hdir Hsub Hfree.
  - cbn [lookup] in Hdir. injection Hdir as ->. cbn [app].
    rewrite write_at_deeper, Hsub. cbn [write_at].
    destruct (assoc_find name ts) as [[d m|cs]|] eqn:E;
      try (eexists; split; reflexivity).
    exfalso. now apply (Hfree cs).
  - destruct n as [d m|es0]; [discriminate|]. cbn [lookup] in Hdir.
    destruct (assoc_find seg es0) as [child|] eqn:Hc; [|discriminate].
    destruct (IH child es sub ts name f Hdir Hsub Hfree) as (child' & Hw & Hl).
    cbn [app]. destruct (rest ++ [sub; name])%list as [|s rest'] eqn:Er.
    + destruct rest; discriminate.
    + rewrite write_at_deeper, Hc, Hw. eexists. split; [reflexivity|].
      cbn [lookup]. now rewrite assoc_find_set_same.
Qed.

Lemma writeFile_ok segs data w r :
  hd false (faults w) = false ->
  write_at segs (File data (clock w)) (root w) = inr r ->
  writeFile {| segments := segs; trailing_slash := false |} data w
  = (Ret tt, {| root := r; bucket := bucket w; clock := clock w;
                faults := tl (faults w); calls := calls w ++ [WriteFile segs] |}).
Proof.
  intros Hf Hw. unfold writeFile, bind. cbn [segments trailing_slash].
  rewrite (backend_ok _ _ Hf). cbn [root clock]. now rewrite Hw.
Qed.

Lemma put_local_ok dir name data w r :
  plain_name name = true ->
  hd false (faults w) = false ->
  write_at (dir ++ [name]) (File data (clock w)) (root w) = inr r ->
  (writeFile (path_join dir name) data ;;; ret "") w
  = (Ret "", {| root := r; bucket := bucket w; clock := clock w;
                faults := tl (faults w);
                calls := calls w ++ [WriteFile (dir ++ [name])] |}).
Proof.
  intros Hp Hf Hw. unfold bind.
  now rewrite (path_join_plain _ _ Hp), (writeFile_ok _ _ _ _ Hf Hw).
Qed.

Lemma has_char_dash_stem a b : has_char "-" (a ++ "-" ++ b) = true.
Proof.
  rewrite has_char_app. cbn [append has_char Ascii.eqb Bool.eqb orb].
  apply orb_true_r.
Qed.

(** With regular names, the name of the original and the name of the
    thumbnail are plain names with a dash, so neither is [thumbs]. *)
Lemma upload_names_plain lib req f w :
  regular_names lib req f ->
  plain_name (upload_filename lib req f w) = true
  /\ plain_name (upload_thumbname lib req f w) = true
  /\ upload_filename lib req f w <> "thumbs"
  /\ upload_thumbname lib req f w
     = show_Z (clock w) ++ "-" ++ random req ++ "_thumb."
       ++ upload_ext lib (detect lib f).
Proof.
  intros (Hr1 & Hr2 & He1 & He2 & He3).
  unfold upload_thumbname, upload_filename.
  set (ext := upload_ext lib (detect lib f)) in *.
  set (stem := show_Z (clock w) ++ "-" ++ random req).
  assert (Hname : show_Z (clock w) ++ "-" ++ random req ++ "." ++ ext
                  = stem ++ "." ++ ext).
  { unfold stem. now rewrite string_app_assoc. }
  assert (Hs1 : has_char "/" stem = false).
  { unfold stem. rewrite has_char_app, (show_Z_chars "/" _ eq_refl). exact Hr1. }
  assert (Hs2 : has_char "." stem = false).
  { unfold stem. rewrite has_char_app, (show_Z_chars "." _ eq_refl). exact Hr2. }
  assert (Hdash : forall tail, has_char "-" (stem ++ tail) = true).
  { intros tail. unfold stem. rewrite string_app_assoc. apply has_char_dash_stem. }
  assert (Hplain : forall tail, has_char "/" tail = false ->
                                plain_name (stem ++ tail) = true).
  { intros tail Ht. unfold plain_name.
    rewrite has_char_app, Hs1, Ht. cbn [orb negb]. rewrite andb_true_r.
    pose proof (Hdash tail) as Hd.
    destruct (String.eqb_spec (stem ++ tail) "") as [E|_];
      [rewrite E in Hd; discriminate|].
    destruct (String.eqb_spec (stem ++ tail) ".") as [E|_];
      [rewrite E in Hd; discriminate|].
    destruct (String.eqb_spec (stem ++ tail) "..") as [E|_];
      [rewrite E in Hd; discriminate|].
    reflexivity. }
  rewrite Hname, (upload_thumb_name_single_dot _ _ Hs2 He3).
  repeat split.
  - apply Hplain. exact He1.
  - apply Hplain. cbn [append has_char Ascii.eqb Bool.eqb orb]. exact He1.
  - intros E. pose proof (Hdash ("." ++ ext)) as Hd. rewrite E in Hd. discriminate.
  - unfold stem. now rewrite string_app_assoc.
Qed.

(** The run of a valid upload on disk. *)
Lemma upload_local_run lib cfg req f thumb w es ts :
  is_s3 cfg = false ->
  hd false (faults w) = false ->
  hd false (tl (faults w)) = false ->
  file req = Some f ->
  Z.of_nat (length (buffer f)) <= MAX_FILE_SIZE cfg ->
  ALLOWED (detect lib f) = true ->
  sharp_resize lib thumb_options (buffer f) = Some thumb ->
  regular_names lib req f ->
  lookup (UPLOAD_DIR cfg) (root w) = Some (Dir es) ->
  assoc_find "thumbs" es = Some (Dir ts) ->
  (forall cs, assoc_find (upload_filename lib req f w) es <> Some (Dir cs)) ->
  (forall cs, assoc_find (upload_thumbname lib req f w) ts <> Some (Dir cs)) ->
  fst (api_upload lib cfg req w)
  = Json 200 (Uploaded (upload_meta lib cfg req f w "" ""))
  /\ lookup (UPLOAD_DIR cfg) (root (snd (api_upload lib cfg req w)))
     = Some (Dir (uploads_after (upload_filename lib req f w) (buffer f)
                    (upload_thumbname lib req f w) thumb (clock w) es ts))
  /\ bucket (snd (api_upload lib cfg req w)) = bucket w
  /\ faults (snd (api_upload lib cfg req w)) = tl (tl (faults w)).
Proof.
  intros Hs3 Hf1 Hf2 Hfile Hsize Hok Hsharp Hreg Hdir Hthumbs Hfree1 Hfree2.
  destruct (upload_names_plain lib req f w Hreg) as (Hp1 & Hp2 & Hnt & _).
  set (name := upload_filename lib req f w) in *.
  set (tname := upload_thumbname lib req f w) in *.
  destruct (write_at_child (UPLOAD_DIR cfg) (root w) es name
              (File (buffer f) (clock w)) Hdir Hfree1) as (r1 & Hw1 & Hl1).
  pose proof (put_local_ok (UPLOAD_DIR cfg) name (buffer f) w r1 Hp1 Hf1 Hw1) as E1.
  set (w1 := {| root := r1; bucket := bucket w; clock := clock w;
                faults := tl (faults w);
                calls := calls w ++ [WriteFile (UPLOAD_DIR cfg ++ [name])] |}) in *.
  assert (Hthumbs1 : assoc_find "thumbs" (assoc_set name (File (buffer f) (clock w)) es)
                     = Some (Dir ts)).
  { rewrite assoc_find_set_other; [exact Hthumbs | congruence]. }
  destruct (write_at_grandchild (UPLOAD_DIR cfg) (root w1) _ "thumbs" ts tname
              (File thumb (clock w1)) Hl1 Hthumbs1 Hfree2) as (r2 & Hw2 & Hl2).
  assert (Hpath : (THUMB_DIR cfg ++ [tname] = UPLOAD_DIR cfg ++ ["thumbs"; tname])%list).
  { unfold THUMB_DIR. now rewrite <- app_assoc. }
  rewrite <- Hpath in Hw2.
  pose proof (put_local_ok (THUMB_DIR cfg) tname thumb w1 r2 Hp2 Hf2 Hw2) as E2.
  rewrite (api_upload_within_limit _ _ _ _ _ Hfile Hsize).
  rewrite (upload_handler_allowed _ _ _ _ _ Hfile Hok), Hsharp.
  fold name tname.
  unfold put_original, put_thumbnail. rewrite Hs3, E1, E2.
  cbn [fst snd root bucket faults]. repeat split. exact Hl2.
Qed.

Lemma assoc_find_uploads_after name data tname thumb t es ts :
  name <> "thumbs" ->
  assoc_find name (uploads_after name data tname thumb t es ts) = Some (File data t)
  /\ assoc_find "thumbs" (uploads_after name data tname thumb t es ts)
     = Some (Dir (assoc_set tname (File thumb t) ts)).
Proof.
  intros Hne. unfold uploads_after. split.
  - rewrite assoc_find_set_other by exact Hne. apply assoc_find_set_same.
  - apply assoc_find_set_same.
Qed.

(** On disk, a valid upload goes through whenever the uploads directory
    and its [thumbs] subdirectory exist, neither write fails and no
    directory stands under the two names: the answer is 200 with the
    name, the two URLs under the base URL, the detected type and the
    size; afterwards the original is a file of [uploads] holding the
    uploaded bytes and the thumbnail a file of [uploads/thumbs], at the
    very path Delete derives from the name; and the bucket is not
    touched. *)
Theorem upload_local_succeeds lib cfg req f thumb w es ts :
  is_s3 cfg = false ->
  hd false (faults w) = false ->
  hd false (tl (faults w)) = false ->
  file req = Some f ->
  Z.of_nat (length (buffer f)) <= MAX_FILE_SIZE cfg ->
  ALLOWED (detect lib f) = true ->
  sharp_resize lib thumb_options (buffer f) = Some thumb ->
  regular_names lib req f ->
  lookup (UPLOAD_DIR cfg) (root w) = Some (Dir es) ->
  assoc_find "thumbs" es = Some (Dir ts) ->
  (forall cs, assoc_find (upload_filename lib req f w) es <> Some (Dir cs)) ->
  (forall cs, assoc_find (upload_thumbname lib req f w) ts <> Some (Dir cs)) ->
  fst (api_upload lib cfg req w)
  = Json 200 (Uploaded
      {| m_file := upload_filename lib req f w;
         m_url := getBaseUrl cfg req ++ "/uploads/"
                  ++ JS.encodeURIComponent (upload_filename lib req f w);
         m_thumbnail := getBaseUrl cfg req ++ "/uploads/thumbs/"
                        ++ JS.encodeURIComponent (upload_thumbname lib req f w);
         m_mime := detect lib f;
         m_size := Z.of_nat (length (buffer f));
         m_date := clock w |})
  /\ (exists m,
        resolve (original_path cfg (upload_filename lib req f w))
          (root (snd (api_upload lib cfg req w)))
        = Some (File (buffer f) m))
  /\ (exists m,
        resolve (thumbnail_path cfg (upload_filename lib req f w))
          (root (snd (api_upload lib cfg req w)))
        = Some (File thumb m))
  /\ bucket (snd (api_upload lib cfg req w)) = bucket w.
Proof.
  intros Hs3 Hf1 Hf2 Hfile Hsize Hok Hsharp Hreg Hdir Hthumbs Hfree1 Hfree2.
  destruct (upload_local_run lib cfg req f thumb w es ts Hs3 Hf1 Hf2 Hfile Hsize Hok
              Hsharp Hreg Hdir Hthumbs Hfree1 Hfree2) as (E & Hl & Hb & _).
  destruct (upload_names_plain lib req f w Hreg) as (Hp1 & Hp2 & Hnt & _).
  destruct Hreg as (Hr1 & Hr2 & He1 & He2 & He3).
  destruct (upload_names_round_trip lib req f w Hr1 Hr2 He1 He2 He3) as (Hrt & _).
  destruct (assoc_find_uploads_after (upload_filename lib req f w) (buffer f)
              (upload_thumbname lib req f w) thumb (clock w) es ts Hnt) as (Ha & Hth).
  split; [|split; [|split]].
  - rewrite E. unfold upload_meta. now rewrite Hs3.
  - exists (clock w).
    unfold original_path. rewrite (path_join_plain _ _ Hp1), resolve_no_trailing.
    now rewrite (lookup_child _ _ _ _ Hl).
  - exists (clock w).
    unfold thumbnail_path. rewrite Hrt, (path_join_plain _ _ Hp2), resolve_no_trailing.
    unfold THUMB_DIR. rewrite <- app_assoc. cbn [app].
    change (UPLOAD_DIR cfg ++ ["thumbs"; upload_thumbname lib req f w])%list
      with (UPLOAD_DIR cfg ++ ["thumbs"] ++ [upload_thumbname lib req f w])%list.
    rewrite app_assoc, lookup_app, (lookup_child _ _ _ _ Hl), Hth.
    cbn [lookup]. now rewrite assoc_find_set_same.
  - exact Hb.
Qed.

(** *** Upload, then List *)

Lemma assoc_set_fresh {A} k (v : A) l :
  assoc_find k l = None -> assoc_set k v l = (l ++ [(k, v)])%list.
Proof.
  induction l as [|[k' v'] t IH]; intros H; [reflexivity|].
  cbn [assoc_find] in H. cbn [assoc_set app].
  destruct (String.eqb k k'); [discriminate | now rewrite IH].
Qed.

Lemma assoc_set_names {A} k (v v0 : A) l :
  assoc_find k l = Some v0 -> map fst (assoc_set k v l) = map fst l.
Proof.
  induction l as [|[k' v'] t IH]; intros H; [discriminate|].
  cbn [assoc_find] in H. cbn [assoc_set].
  destruct (String.eqb k k') eqn:E.
  - apply String.eqb_eq in E. now subst.
  - cbn [map fst]. now rewrite IH.
Qed.

Lemma assoc_find_None_names {A} k (l : list (string * A)) :
  assoc_find k l = None -> ~ In k (map fst l).
Proof.
  induction l as [|[k' v'] t IH]; intros H; [tauto|].
  cbn [assoc_find] in H. destruct (String.eqb k k') eqn:E; [discriminate|].
  apply String.eqb_neq in E. cbn [map fst In]. intros [Hk|Hk]; [congruence|].
  now apply IH.
Qed.

Lemma listed_ignores_thumbs v l :
  filter listed (assoc_set "thumbs" v l) = filter listed l.
Proof.
  induction l as [|[k' v'] t IH]; [reflexivity|].
  cbn [assoc_set]. destruct (String.eqb "thumbs" k') eqn:E.
  - apply String.eqb_eq in E. subst k'. reflexivity.
  - cbn [filter]. now rewrite IH.
Qed.

(** The listing that follows a successful upload under a fresh name. *)
Lemma upload_then_list_run lib cfg req lreq f thumb w es ts :
  is_s3 cfg = false ->
  faults w = [] ->
  file req = Some f ->
  Z.of_nat (length (buffer f)) <= MAX_FILE_SIZE cfg ->
  ALLOWED (detect lib f) = true ->
  sharp_resize lib thumb_options (buffer f) = Some thumb ->
  regular_names lib req f ->
  lookup (UPLOAD_DIR cfg) (root w) = Some (Dir es) ->
  Forall (fun e => plain_name (fst e) = true) es ->
  NoDup (map fst es) ->
  assoc_find "thumbs" es = Some (Dir ts) ->
  assoc_find (upload_filename lib req f w) es = None ->
  (forall cs, assoc_find (upload_thumbname lib req f w) ts <> Some (Dir cs)) ->
  fst (api_list cfg lreq (snd (api_upload lib cfg req w)))
  = Json 200 (Listing (sort_desc
      (map (listed_entry cfg lreq) (filter listed es)
       ++ [listed_entry cfg lreq
             (upload_filename lib req f w, File (buffer f) (clock w))])%list)).
Proof.
  intros Hs3 Hf Hfile Hsize Hok Hsharp Hreg Hdir Hplain Hnd Hthumbs Hfresh Hfree2.
  assert (Hh1 : hd false (faults w) = false) by now rewrite Hf.
  assert (Hh2 : hd false (tl (faults w)) = false) by now rewrite Hf.
  assert (Hfree1 : forall cs, assoc_find (upload_filename lib req f w) es
                              <> Some (Dir cs)) by (intros cs; now rewrite Hfresh).
  destruct (upload_local_run lib cfg req f thumb w es ts Hs3 Hh1 Hh2 Hfile Hsize
              Hok Hsharp Hreg Hdir Hthumbs Hfree1 Hfree2) as (_ & Hl & _ & Hfl).
  destruct (upload_names_plain lib req f w Hreg) as (Hp1 & _ & Hnt & _).
  set (w2 := snd (api_upload lib cfg req w)) in *.
  set (name := upload_filename lib req f w) in *.
  set (es1 := assoc_set name (File (buffer f) (clock w)) es).
  assert (Hes1 : es1 = (es ++ [(name, File (buffer f) (clock w))])%list)
    by now apply assoc_set_fresh.
  assert (Hthumbs1 : assoc_find "thumbs" es1 = Some (Dir ts)).
  { unfold es1. rewrite assoc_find_set_other; [exact Hthumbs | congruence]. }
  unfold uploads_after in Hl. fold es1 in Hl.
  set (es2 := assoc_set "thumbs" _ es1) in *.
  assert (Hnames2 : map fst es2 = (map fst es ++ [name])%list).
  { unfold es2. rewrite (assoc_set_names _ _ _ _ Hthumbs1), Hes1, map_app. reflexivity. }
  assert (Hplain2 : Forall (fun e => plain_name (fst e) = true) es2).
  { apply Forall_forall. intros e He.
    assert (Hin : In (fst e) (map fst es2)) by now apply in_map.
    rewrite Hnames2 in Hin. apply in_app_or in Hin as [Hin|[<-|[]]]; [|exact Hp1].
    apply in_map_iff in Hin as (e0 & <- & He0).
    rewrite Forall_forall in Hplain. now apply Hplain. }
  assert (Hnd2 : NoDup (map fst es2)).
  { rewrite Hnames2. apply NoDup_app; [exact Hnd | repeat constructor; tauto |].
    intros k Hk [<-|[]]. now apply (assoc_find_None_names _ _ Hfresh). }
  assert (Hh3 : hd false (faults w2) = false) by now rewrite Hfl, Hf.
  rewrite (list_local_run cfg lreq w2 es2 Hs3 Hh3 Hl Hplain2 Hnd2).
  unfold es2. rewrite listed_ignores_thumbs, Hes1, filter_app, map_app.
  cbn [filter]. unfold listed at 2. cbn [fst snd is_dir negb].
  destruct (String.eqb_spec name "thumbs") as [Ee|_]; [contradiction|].
  reflexivity.
Qed.


(** ** Start-up (lines 33-37) *)

Lemma grows_trans a b c : grows a b -> grows b c -> grows a c.
Proof. intros H1 H2. inversion H1; subst; inversion H2; subst; constructor. Qed.

Lemma mkdir_p_dir p : forall n r, mkdir_p p n = Some r -> is_dir r = true.
Proof.
  destruct p as [|seg rest]; intros n r H; destruct n as [d m|es]; try discriminate.
  - cbn [mkdir_p] in H. now injection H as <-.
  - cbn [mkdir_p] in H. destruct (mkdir_p rest _); [|discriminate].
    now injection H as <-.
Qed.

Lemma mkdir_p_made p : forall n r,
  mkdir_p p n = Some r -> exists es, lookup p r = Some (Dir es).
Proof.
  induction p as [|seg rest IH]; intros n r H; destruct n as [d m|es]; try discriminate.
  - cbn [mkdir_p] in H. injection H as <-. now exists es.
  - cbn [mkdir_p] in H.
    destruct (mkdir_p rest _) as [child'|] eqn:Hc; [|discriminate].
    injection H as <-. cbn [lookup]. rewrite assoc_find_set_same. eapply IH, Hc.
Qed.

Lemma lookup_below_empty x : lookup x (Dir []) = match x with [] => Some (Dir []) | _ => None end.
Proof. now destruct x. Qed.

Lemma mkdir_p_grows p : forall n r,
  mkdir_p p n = Some r -> forall x, grows (lookup x n) (lookup x r).
Proof.
  induction p as [|seg rest IH]; intros n r H x; destruct n as [d m|es]; try discriminate.
  - cbn [mkdir_p] in H. injection H as <-. constructor.
  - cbn [mkdir_p] in H.
    destruct (mkdir_p rest _) as [child'|] eqn:Hc; [|discriminate].
    injection H as <-. destruct x as [|xs xr]; [constructor|]. cbn [lookup].
    destruct (String.eqb xs seg) eqn:E.
    + apply String.eqb_eq in E. subst xs. rewrite assoc_find_set_same.
      pose proof (IH _ _ Hc xr) as Hg.
      destruct (assoc_find seg es) as [child|]; [exact Hg|].
      rewrite lookup_below_empty in Hg. destruct xr as [|y ys].
      * cbn [lookup]. pose proof (mkdir_p_dir _ _ _ Hc) as Hd.
        destruct child'; [discriminate | constructor].
      * exact Hg.
    + apply String.eqb_neq in E. rewrite assoc_find_set_other by exact E. constructor.
Qed.

Lemma ensure_dir_grows p n r :
  ensure_dir p n = Some r ->
  (exists t, lookup p r = Some t) /\ forall x, grows (lookup x n) (lookup x r).
Proof.
  unfold ensure_dir. destruct (lookup p n) as [t|] eqn:E; intros H.
  - injection H as <-. split; [now exists t | constructor].
  - split; [|now apply (mkdir_p_grows p)].
    destruct (mkdir_p_made _ _ _ H) as [es Hes]. now exists (Dir es).
Qed.

Lemma lookup_parent dir name n t :
  lookup (dir ++ [name]) n = Some t ->
  exists es, lookup dir n = Some (Dir es) /\ assoc_find name es = Some t.
Proof.
  rewrite lookup_app. destruct (lookup dir n) as [[d m|es]|]; try discriminate.
  cbn [lookup]. destruct (assoc_find name es) as [c|] eqn:E; [|discriminate].
  intros H. injection H as <-. now exists es.
Qed.

(** When [STORAGE] is [local] and start-up does not throw, the uploads
    directory exists and has a [thumbs] entry, which is a directory
    unless a regular file of that name was there before; every file the
    tree held is still there, unchanged; and starting again changes
    nothing. *)
Theorem startup_prepares_the_directories cfg n r :
  STORAGE cfg = "local" ->
  startup cfg n = Some r ->
  (exists es t,
     lookup (UPLOAD_DIR cfg) r = Some (Dir es)
     /\ assoc_find "thumbs" es = Some t
     /\ (is_dir t = true \/ lookup (THUMB_DIR cfg) n = Some t))
  /\ (forall x d m, lookup x n = Some (File d m) -> lookup x r = Some (File d m))
  /\ startup cfg r = Some r.
Proof.
  intros Hlocal. unfold startup. rewrite Hlocal. cbn [String.eqb Ascii.eqb Bool.eqb].
  destruct (ensure_dir (UPLOAD_DIR cfg) n) as [n1|] eqn:E1; [|discriminate].
  intros E2.
  destruct (ensure_dir_grows _ _ _ E1) as (_ & G1).
  destruct (ensure_dir_grows _ _ _ E2) as ((t & Ht) & G2).
  unfold THUMB_DIR in Ht. destruct (lookup_parent _ _ _ _ Ht) as (es & Hes & Hfind).
  split; [|split].
  - exists es, t. repeat split; [exact Hes | exact Hfind |].
    destruct t as [d m|ts]; [right | now left].
    pose proof (grows_trans _ _ _ (G1 (THUMB_DIR cfg)) (G2 (THUMB_DIR cfg))) as G.
    unfold THUMB_DIR in G |- *. rewrite Ht in G. now inversion G.
  - intros x d m Hx.
    pose proof (grows_trans _ _ _ (G1 x) (G2 x)) as G. rewrite Hx in G.
    now inversion G.
  - unfold ensure_dir. rewrite Hes. unfold THUMB_DIR. now rewrite Ht.
Qed.

(** When [STORAGE] is neither [local] nor [s3], the handlers take the
    disk branch but start-up creates nothing: on a tree without the
    uploads directory start-up leaves the tree as it is and List answers
    the server error. *)
Theorem unknown_storage_is_never_prepared cfg req w :
  STORAGE cfg <> "local" ->
  STORAGE cfg <> "s3" ->
  lookup (UPLOAD_DIR cfg) (root w) = None ->
  startup cfg (root w) = Some (root w)
  /\ fst (api_list cfg req w) = server_error.
Proof.
  intros Hl Hs Hmissing. split.
  - unfold startup. apply String.eqb_neq in Hl. now rewrite Hl.
  - unfold api_list, catch500, is_s3. apply String.eqb_neq in Hs. rewrite Hs.
    unfold list_local, bind.
    destruct (readdir (UPLOAD_DIR cfg) w) as [[files|e] w1] eqn:Hrd; [|reflexivity].
    exfalso. unfold readdir, bind in Hrd.
    destruct (backend _ w) as [[[]|e] w0] eqn:Hb; [|discriminate].
    apply backend_calls in Hb as (_ & Hr & _). rewrite Hr, Hmissing in Hrd.
    discriminate.
Qed.

(** *** A fresh deployment *)




(** ** The base URL and the URLs built on it *)

Lemma strip_trailing_slash_slash s : strip_trailing_slash (s ++ "/") = s.
Proof.
  induction s as [|c t IH]; [reflexivity|].
  cbn [append strip_trailing_slash]. rewrite IH.
  now destruct (t ++ "/") eqn:E; [destruct t; discriminate|].
Qed.

Lemma strip_trailing_slash_other b :
  (forall s, b <> s ++ "/") -> strip_trailing_slash b = b.
Proof.
  induction b as [|c t IH]; intros H; [reflexivity|].
  cbn [strip_trailing_slash]. destruct t as [|d t'].
  - destruct (Ascii.eqb_spec c "/") as [->|_]; [|reflexivity].
    exfalso. now apply (H "").
  - rewrite IH; [reflexivity|]. intros s E. apply (H (String c s)).
    cbn [append]. now rewrite <- E.
Qed.

Lemma endsWith_slash_app s : JS.endsWith "/" (s ++ "/") = true.
Proof.
  unfold JS.endsWith. rewrite rev_string_app. cbn [JS.rev_string String.prefix].
  destruct (ascii_dec "/" "/") as [_|N]; [|now elim N].
  now destruct (JS.rev_string s "").
Qed.

(** With [BASE_URL] configured the base URL does not depend on the
    request: it is [BASE_URL] without its final slash, if it has one.
    Without it the base URL comes from the request, and forwarded
    protocol and host, when present and not empty, replace the ones of
    the connection. *)
Theorem getBaseUrl_sources cfg req :
  (forall b, BASE_URL cfg = Some b -> b <> "" ->
     (forall req', getBaseUrl cfg req' = getBaseUrl cfg req)
     /\ (forall s, b = s ++ "/" -> getBaseUrl cfg req = s)
     /\ (JS.endsWith "/" b = false -> getBaseUrl cfg req = b))
  /\ (BASE_URL cfg = None ->
      forall p h,
        x_forwarded_proto req = Some p -> p <> "" ->
        x_forwarded_host req = Some h -> h <> "" ->
        getBaseUrl cfg req = p ++ "://" ++ h).
Proof.
  split.
  - intros b Hb Hne. unfold getBaseUrl. rewrite Hb.
    apply String.eqb_neq in Hne. rewrite Hne. repeat split.
    + intros s ->. apply strip_trailing_slash_slash.
    + intros He. apply strip_trailing_slash_other. intros s ->.
      now rewrite endsWith_slash_app in He.
  - intros Hnone p h Hp Hpne Hh Hhne. unfold getBaseUrl, request_origin.
    rewrite Hnone, Hp, Hh. unfold JS.opt_or, JS.or_else, JS.show.
    apply String.eqb_neq in Hpne, Hhne. now rewrite Hpne, Hhne.
Qed.

Lemma encode_unreserved s : unreserved s = true -> JS.encodeURIComponent s = s.
Proof.
  induction s as [|c t IH]; intros H; [reflexivity|].
  cbn [unreserved] in H. apply andb_true_iff in H as [Hc Ht].
  cbn [JS.encodeURIComponent]. now rewrite Hc, IH.
Qed.

Lemma unreserved_app a b : unreserved (a ++ b) = unreserved a && unreserved b.
Proof.
  induction a as [|c t IH]; [reflexivity|].
  cbn [append unreserved]. now rewrite IH, andb_assoc.
Qed.

Lemma unreserved_uint (d : Decimal.uint) : unreserved (NilEmpty.string_of_uint d) = true.
Proof. induction d; cbn [NilEmpty.string_of_uint unreserved]; auto. Qed.

Lemma unreserved_show_Z z : unreserved (show_Z z) = true.
Proof.
  unfold show_Z, NilZero.string_of_int.
  assert (Hu : forall d, unreserved (NilZero.string_of_uint d) = true).
  { intros d. pose proof (unreserved_uint d). now destruct d. }
  destruct (Z.to_int z); [apply Hu|]. cbn [unreserved]. now rewrite Hu.
Qed.

(** On disk, the file an upload answers with is the one List shows
    afterwards: the listing has an entry with the name, the two URLs
    and the size of the upload's answer, when the random part and the
    extension are made of characters that need no escaping and List is
    asked under the same base URL. *)
Theorem upload_urls_are_the_listed_urls lib cfg req lreq f thumb w es ts :
  is_s3 cfg = false ->
  faults w = [] ->
  file req = Some f ->
  Z.of_nat (length (buffer f)) <= MAX_FILE_SIZE cfg ->
  ALLOWED (detect lib f) = true ->
  sharp_resize lib thumb_options (buffer f) = Some thumb ->
  regular_names lib req f ->
  unreserved (random req) = true ->
  unreserved (upload_ext lib (detect lib f)) = true ->
  getBaseUrl cfg lreq = getBaseUrl cfg req ->
  lookup (UPLOAD_DIR cfg) (root w) = Some (Dir es) ->
  Forall (fun e => plain_name (fst e) = true) es ->
  NoDup (map fst es) ->
  assoc_find "thumbs" es = Some (Dir ts) ->
  assoc_find (upload_filename lib req f w) es = None ->
  (forall cs, assoc_find (upload_thumbname lib req f w) ts <> Some (Dir cs)) ->
  exists meta items e,
    fst (api_upload lib cfg req w) = Json 200 (Uploaded meta)
    /\ fst (api_list cfg lreq (snd (api_upload lib cfg req w)))
       = Json 200 (Listing items)
    /\ In e items
    /\ e_file e = m_file meta
    /\ e_url e = m_url meta
    /\ e_thumbnail e = m_thumbnail meta
    /\ e_size e = m_size meta.
Proof.
  intros Hs3 Hf Hfile Hsize Hok Hsharp Hreg Hur Hue Hbase Hdir Hplain Hnd Hthumbs
    Hfresh Hfree2.
  assert (Hh1 : hd false (faults w) = false) by now rewrite Hf.
  assert (Hh2 : hd false (tl (faults w)) = false) by now rewrite Hf.
  assert (Hfree1 : forall cs, assoc_find (upload_filename lib req f w) es
                              <> Some (Dir cs)) by (intros cs; now rewrite Hfresh).
  destruct (upload_local_run lib cfg req f thumb w es ts Hs3 Hh1 Hh2 Hfile Hsize Hok
              Hsharp Hreg Hdir Hthumbs Hfree1 Hfree2) as (Hup & _).
  pose proof (upload_then_list_run lib cfg req lreq f thumb w es ts Hs3 Hf Hfile Hsize
                Hok Hsharp Hreg Hdir Hplain Hnd Hthumbs Hfresh Hfree2) as Hlist.
  destruct (upload_names_plain lib req f w Hreg) as (_ & _ & _ & Hthumb).
  destruct Hreg as (Hr1 & Hr2 & He1 & He2 & He3).
  destruct (upload_names_round_trip lib req f w Hr1 Hr2 He1 He2 He3) as (Hrt & _).
  eexists. eexists.
  exists (listed_entry cfg lreq (upload_filename lib req f w, File (buffer f) (clock w))).
  split; [exact Hup|]. split; [exact Hlist|]. split.
  { eapply Permutation_in; [apply sort_desc_perm|].
    apply in_or_app. right. now left. }
  cbn [upload_meta m_file m_url m_thumbnail m_size listed_entry e_file e_url
       e_thumbnail e_size fst snd node_size].
  rewrite Hs3, Hrt, Hbase. repeat split; do 2 f_equal; symmetry; apply encode_unreserved.
  - unfold upload_filename. rewrite !unreserved_app, unreserved_show_Z, Hur, Hue.
    reflexivity.
  - rewrite Hthumb. rewrite !unreserved_app, unreserved_show_Z, Hur, Hue.
    reflexivity.
Qed.

(** *** The URLs of an upload on S3 *)

Lemma encode_app a b :
  JS.encodeURIComponent (a ++ b)
  = JS.encodeURIComponent a ++ JS.encodeURIComponent b.
Proof.
  induction a as [|c t IH]; [reflexivity|].
  cbn [append JS.encodeURIComponent]. rewrite IH.
  now destruct (JS.uri_unreserved c).
Qed.

(** On S3 the upload answers with the URL List shows for the original,
    but not with the thumbnail URL List shows for it: Upload escapes the
    whole key, so the slash after [images] comes out as [%2F], where
    List escapes the name only. *)
Theorem upload_s3_urls_against_list lib cfg req f thumb w o :
  is_s3 cfg = true ->
  hd false (faults w) = false ->
  hd false (tl (faults w)) = false ->
  file req = Some f ->
  Z.of_nat (length (buffer f)) <= MAX_FILE_SIZE cfg ->
  ALLOWED (detect lib f) = true ->
  sharp_resize lib thumb_options (buffer f) = Some thumb ->
  regular_names lib req f ->
  Key o = "images/" ++ upload_filename lib req f w ->
  exists meta,
    fst (api_upload lib cfg req w) = Json 200 (Uploaded meta)
    /\ m_file meta = e_file (s3_entry cfg o)
    /\ m_url meta = e_url (s3_entry cfg o)
    /\ m_thumbnail meta
       = s3_host cfg ++ "images%2F"
         ++ JS.encodeURIComponent (upload_thumbname lib req f w)
    /\ e_thumbnail (s3_entry cfg o)
       = s3_host cfg ++ "images/"
         ++ JS.encodeURIComponent (upload_thumbname lib req f w)
    /\ m_thumbnail meta <> e_thumbnail (s3_entry cfg o).
Proof.
  intros Hs3 Hf1 Hf2 Hfile Hsize Hok Hsharp Hreg Hkey.
  rewrite (upload_s3_run lib cfg req f thumb w Hs3 Hf1 Hf2 Hfile Hsize Hok Hsharp).
  eexists. split; [reflexivity|].
  destruct (upload_names_plain lib req f w Hreg) as (Hp1 & _ & _ & _).
  destruct (plain_name_parts _ Hp1) as (Hne & _ & _ & _ & Hns).
  destruct Hreg as (Hr1 & Hr2 & He1 & He2 & He3).
  destruct (upload_names_round_trip lib req f w Hr1 Hr2 He1 He2 He3) as (_ & Hrt & _).
  assert (Hbase : Path.basename (Key o) = upload_filename lib req f w).
  { rewrite Hkey. exact (basename_under_prefix "images" _ Hne Hns). }
  cbn [upload_meta m_file m_url m_thumbnail s3_entry e_file e_url e_thumbnail].
  rewrite Hs3, Hbase, Hrt, Hkey.
  assert (Hthumb : JS.encodeURIComponent ("images/" ++ upload_thumbname lib req f w)
                   = "images%2F" ++ JS.encodeURIComponent (upload_thumbname lib req f w)).
  { rewrite encode_app. reflexivity. }
  rewrite Hthumb.
  repeat split.
  intros E. apply append_inj_l in E. discriminate E.
Qed.

(** ** Upload's resolved type, and Delete on the stored names *)

Lemma asset_name_plain stem ext tail :
  asset_name stem ext -> has_char "/" tail = false ->
  plain_name (stem ++ tail) = true.
Proof.
  intros (Hne & Hs1 & Hs2 & _) Ht. unfold plain_name.
  rewrite has_char_app, Hs1, Ht. cbn [orb negb]. rewrite andb_true_r.
  destruct stem as [|c s]; [congruence|].
  cbn [has_char] in Hs2. apply orb_false_iff in Hs2 as [Hc _].
  apply Ascii.eqb_neq in Hc.
  cbn [append].
  destruct (String.eqb_spec (String c (s ++ tail)) "") as [E|_]; [discriminate|].
  destruct (String.eqb_spec (String c (s ++ tail)) ".") as [E|_]; [congruence|].
  destruct (String.eqb_spec (String c (s ++ tail)) "..") as [E|_]; [congruence|].
  reflexivity.
Qed.

(** On a name of Upload's form the two paths and the two keys Delete
    addresses are those of [stem.ext] and of [stem_thumb.ext]. *)
Lemma gone_removed cfg stem ext w :
  asset_name stem ext ->
  gone cfg (stem ++ "." ++ ext) w ->
  removed cfg (stem ++ "." ++ ext) (stem ++ "_thumb." ++ ext) w.
Proof.
  intros Ha. pose proof Ha as (Hne & Hs1 & Hs2 & He1 & He2 & He3).
  assert (Hp1 : plain_name (stem ++ "." ++ ext) = true).
  { apply (asset_name_plain _ _ _ Ha). exact He1. }
  assert (Hp2 : plain_name (stem ++ "_thumb." ++ ext) = true).
  { apply (asset_name_plain _ _ _ Ha). exact He1. }
  unfold gone, removed, original_path, thumbnail_path.
  rewrite (extname_thumb_name_single_dot stem ext Hne Hs1 Hs2 He1 He2 He3).
  rewrite (path_join_plain _ _ Hp1), (path_join_plain _ _ Hp2), !resolve_no_trailing.
  destruct (is_s3 cfg); exact (fun H => H).
Qed.

(** Every name Upload generates is of that form, and the thumbnail
    Upload stores beside it is [stem_thumb.ext]. *)
Lemma upload_names_are_asset_names lib req f w :
  regular_names lib req f ->
  asset_name (show_Z (clock w) ++ "-" ++ random req) (upload_ext lib (detect lib f))
  /\ upload_filename lib req f w
     = (show_Z (clock w) ++ "-" ++ random req) ++ "." ++ upload_ext lib (detect lib f)
  /\ upload_thumbname lib req f w
     = (show_Z (clock w) ++ "-" ++ random req) ++ "_thumb."
       ++ upload_ext lib (detect lib f).
Proof.
  intros Hreg.
  destruct (upload_names_plain lib req f w Hreg) as (_ & _ & _ & Hthumb).
  destruct Hreg as (Hr1 & Hr2 & He1 & He2 & He3).
  split; [|split].
  - repeat split; try assumption.
    + destruct (show_Z (clock w)); discriminate.
    + rewrite has_char_app, (show_Z_chars "/" _ eq_refl). exact Hr1.
    + rewrite has_char_app, (show_Z_chars "." _ eq_refl). exact Hr2.
  - unfold upload_filename. now rewrite !string_app_assoc.
  - rewrite Hthumb. now rewrite !string_app_assoc.
Qed.

(** C5: the type Upload works with is the sniffed one, and the declared
    one only when no signature matches; Upload answers "Unsupported file
    type" exactly when that type is outside the five allowed ones; when
    it is one of them, the thumbnailer accepts the bytes and the store
    takes the two writes, Upload answers 200, reports that type and
    names the file with its extension; so bytes with a GIF signature
    are never refused as unsupported, whatever type was declared, and
    are accepted under a [.gif] name. *)
Theorem upload_resolves_sniffed_type lib cfg req f w :
  file req = Some f ->
  let resolved :=
    match fromBuffer lib (buffer f) with
    | Some sniffed => sniffed
    | None => mimetype f
    end in
  (fst (upload_handler lib cfg req w) = unsupported
   <-> ~ In resolved
           ["image/jpeg"; "image/png"; "image/webp"; "image/gif"; "image/avif"])
  /\ (forall meta,
        fst (upload_handler lib cfg req w) = Json 200 (Uploaded meta) ->
        m_mime meta = resolved
        /\ m_file meta
           = show_Z (clock w) ++ "-" ++ random req ++ "."
             ++ JS.opt_or (mime_extension lib resolved) "png")
  /\ (In resolved
        ["image/jpeg"; "image/png"; "image/webp"; "image/gif"; "image/avif"] ->
      Z.of_nat (length (buffer f)) <= MAX_FILE_SIZE cfg ->
      (exists thumb, sharp_resize lib thumb_options (buffer f) = Some thumb) ->
      store_ready lib cfg req f w ->
      exists meta,
        fst (api_upload lib cfg req w) = Json 200 (Uploaded meta)
        /\ m_mime meta = resolved
        /\ m_file meta
           = show_Z (clock w) ++ "-" ++ random req ++ "."
             ++ JS.opt_or (mime_extension lib resolved) "png")
  /\ (fromBuffer lib (buffer f) = Some "image/gif" ->
      mime_extension lib "image/gif" = Some "gif" ->
      fst (upload_handler lib cfg req w) <> unsupported
      /\ (forall meta,
            fst (upload_handler lib cfg req w) = Json 200 (Uploaded meta) ->
            m_mime meta = "image/gif"
            /\ m_file meta = show_Z (clock w) ++ "-" ++ random req ++ ".gif")
      /\ (Z.of_nat (length (buffer f)) <= MAX_FILE_SIZE cfg ->
          (exists thumb, sharp_resize lib thumb_options (buffer f) = Some thumb) ->
          store_ready lib cfg req f w ->
          exists meta,
            fst (api_upload lib cfg req w) = Json 200 (Uploaded meta)
            /\ m_mime meta = "image/gif"
            /\ m_file meta = show_Z (clock w) ++ "-" ++ random req ++ ".gif"))
  /\ (Z.of_nat (length (buffer f)) <= MAX_FILE_SIZE cfg ->
      api_upload lib cfg req w = upload_handler lib cfg req w).
Proof.
  intros Hfile resolved.
  assert (Hres : resolved = detect lib f) by reflexivity.
  assert (Hshape : ALLOWED (detect lib f) = true ->
            fst (upload_handler lib cfg req w) = server_error
            \/ exists u1 u2, fst (upload_handler lib cfg req w)
                             = Json 200 (Uploaded (upload_meta lib cfg req f w u1 u2))).
  { intros Hok. rewrite (upload_handler_allowed _ _ _ _ _ Hfile Hok).
    destruct (sharp_resize lib thumb_options (buffer f)) as [thumb|]; [|now left].
    destruct (put_original _ _ _ _ _) as [[u1|e1] w1]; [|now left].
    destruct (put_thumbnail _ _ _ _ _) as [[u2|e2] w2]; [|now left].
    right. now exists u1, u2. }
  assert (Hmeta : forall meta,
            fst (upload_handler lib cfg req w) = Json 200 (Uploaded meta) ->
            m_mime meta = resolved
            /\ m_file meta
               = show_Z (clock w) ++ "-" ++ random req ++ "."
                 ++ JS.opt_or (mime_extension lib resolved) "png").
  { intros meta H. destruct (ALLOWED (detect lib f)) eqn:Hok.
    - destruct (Hshape eq_refl) as [E|(u1 & u2 & E)]; rewrite E in H.
      + discriminate.
      + injection H as <-. now rewrite Hres.
    - rewrite (upload_handler_rejected _ _ _ _ _ Hfile Hok) in H. discriminate. }
  assert (Hiff : fst (upload_handler lib cfg req w) = unsupported
                 <-> ALLOWED (detect lib f) = false).
  { split.
    - intros H. destruct (ALLOWED (detect lib f)) eqn:Hok; [|reflexivity].
      destruct (Hshape eq_refl) as [E|(u1 & u2 & E)]; rewrite E in H; discriminate.
    - intros Hbad. now rewrite (upload_handler_rejected _ _ _ _ _ Hfile Hbad). }
  assert (Haccept :
            ALLOWED (detect lib f) = true ->
            Z.of_nat (length (buffer f)) <= MAX_FILE_SIZE cfg ->
            (exists thumb, sharp_resize lib thumb_options (buffer f) = Some thumb) ->
            store_ready lib cfg req f w ->
            exists meta,
              fst (api_upload lib cfg req w) = Json 200 (Uploaded meta)
              /\ m_mime meta = resolved
              /\ m_file meta
                 = show_Z (clock w) ++ "-" ++ random req ++ "."
                   ++ JS.opt_or (mime_extension lib resolved) "png").
  { intros Hok Hsize (thumb & Hsharp) (Hf1 & Hf2 & Hdisk).
    destruct (is_s3 cfg) eqn:Hs3.
    - rewrite (upload_s3_run lib cfg req f thumb w Hs3 Hf1 Hf2 Hfile Hsize Hok Hsharp).
      eexists. split; [reflexivity|]. split; reflexivity.
    - destruct (Hdisk eq_refl) as (Hreg & es & ts & Hdir & Hth & Hfree1 & Hfree2).
      destruct (upload_local_run lib cfg req f thumb w es ts Hs3 Hf1 Hf2 Hfile Hsize
                  Hok Hsharp Hreg Hdir Hth Hfree1 Hfree2) as (E & _).
      rewrite E. eexists. split; [reflexivity|]. split; reflexivity. }
  split; [|split; [|split; [|split]]].
  - rewrite Hiff, Hres, <- ALLOWED_spec.
    destruct (ALLOWED (detect lib f)); split; congruence.
  - exact Hmeta.
  - intros Hin. apply Haccept. apply ALLOWED_spec. now rewrite <- Hres.
  - intros Hgif Hext.
    assert (Hr : resolved = "image/gif") by (unfold resolved; now rewrite Hgif).
    assert (Hok : ALLOWED (detect lib f) = true) by (now rewrite <- Hres, Hr).
    split; [|split].
    + rewrite Hiff, Hok. discriminate.
    + intros meta H. destruct (Hmeta meta H) as [Hm Hf].
      rewrite Hr in Hm, Hf. rewrite Hext in Hf. now split.
    + intros Hsize Hsharp Hready.
      destruct (Haccept Hok Hsize Hsharp Hready) as (meta & E & Hm & Hf).
      exists meta. rewrite Hr in Hm, Hf. rewrite Hext in Hf. now repeat split.
  - now apply api_upload_within_limit.
Qed.

(** The scenario of the specification, on disk and on S3: GIF bytes
    declared as a PNG are accepted and named [.gif]. *)
Lemma upload_resolves_sniffed_type_witness :
  (fst (upload_handler Fixture.lib (Fixture.local_cfg "") gif_upload
          (Fixture.world Fixture.fresh_tree []))
   <> unsupported
   /\ exists meta,
        fst (api_upload Fixture.lib (Fixture.local_cfg "") gif_upload
               (Fixture.world Fixture.fresh_tree []))
        = Json 200 (Uploaded meta)
        /\ m_mime meta = "image/gif"
        /\ m_file meta = show_Z 1700000000000 ++ "-" ++ "k3j2x9" ++ ".gif")
  /\ exists meta,
       fst (api_upload Fixture.lib (Fixture.s3_cfg "") gif_upload
              (Fixture.world Fixture.fresh_tree []))
       = Json 200 (Uploaded meta)
       /\ m_mime meta = "image/gif"
       /\ m_file meta = show_Z 1700000000000 ++ "-" ++ "k3j2x9" ++ ".gif".
Proof.
  assert (Hsize : Z.of_nat (length (buffer gif_declared_png)) <= 5242880)
    by (vm_compute; discriminate).
  assert (Hsharp : exists thumb,
             sharp_resize Fixture.lib thumb_options (buffer gif_declared_png)
             = Some thumb) by (exists Fixture.gif_bytes; reflexivity).
  assert (Hdisk : store_ready Fixture.lib (Fixture.local_cfg "") gif_upload
                    gif_declared_png (Fixture.world Fixture.fresh_tree [])).
  { split; [reflexivity|]. split; [reflexivity|]. intros _.
    split; [repeat split|].
    exists [("thumbs", Dir [])], []. split; [reflexivity|]. split; [reflexivity|].
    split; intros cs; vm_compute; discriminate. }
  assert (Hs3 : store_ready Fixture.lib (Fixture.s3_cfg "") gif_upload
                  gif_declared_png (Fixture.world Fixture.fresh_tree [])).
  { split; [reflexivity|]. split; [reflexivity|]. intros H. discriminate H. }
  split.
  - destruct (proj1 (proj2 (proj2 (proj2
        (upload_resolves_sniffed_type Fixture.lib (Fixture.local_cfg "") gif_upload
           gif_declared_png (Fixture.world Fixture.fresh_tree []) eq_refl))))
        eq_refl eq_refl) as (Hnot & _ & Hacc).
    split; [exact Hnot|]. exact (Hacc Hsize Hsharp Hdisk).
  - exact (proj2 (proj2 (proj1 (proj2 (proj2 (proj2
        (upload_resolves_sniffed_type Fixture.lib (Fixture.s3_cfg "") gif_upload
           gif_declared_png (Fixture.world Fixture.fresh_tree []) eq_refl))))
        eq_refl eq_refl)) Hsize Hsharp Hs3).
Defined.

(** C7: Delete is idempotent. For an id with nothing pending to fail
    and no directory at its paths, and a request that passes the secret
    check, Delete answers [{ok: true}] whether or not the original or
    the thumbnail is stored, and a second Delete of the same id answers
    [{ok: true}] again and changes nothing. For an id [stem.ext] of the
    form Upload generates, neither [stem.ext] nor [stem_thumb.ext] is
    stored afterwards. *)
Theorem delete_is_idempotent cfg req w :
  forbidden cfg req = false ->
  deletable cfg (params_file req) w ->
  fst (api_delete cfg req w) = Json 200 OkBody
  /\ fst (api_delete cfg req (snd (api_delete cfg req w))) = Json 200 OkBody
  /\ root (snd (api_delete cfg req (snd (api_delete cfg req w))))
     = root (snd (api_delete cfg req w))
  /\ bucket (snd (api_delete cfg req (snd (api_delete cfg req w))))
     = bucket (snd (api_delete cfg req w))
  /\ (forall stem ext,
        asset_name stem ext ->
        params_file req = stem ++ "." ++ ext ->
        removed cfg (stem ++ "." ++ ext) (stem ++ "_thumb." ++ ext)
          (snd (api_delete cfg req w))
        /\ removed cfg (stem ++ "." ++ ext) (stem ++ "_thumb." ++ ext)
             (snd (api_delete cfg req (snd (api_delete cfg req w))))).
Proof.
  intros Hforb Hd.
  destruct (api_delete_ok _ _ _ Hforb Hd) as (w1 & E1 & Hd1 & Hg1).
  destruct (api_delete_ok _ _ _ Hforb Hd1) as (w2 & E2 & Hd2 & Hg2).
  rewrite E1. cbn [fst snd]. rewrite E2. cbn [fst snd].
  destruct (delete_try_when_gone _ _ _ (proj1 Hd1) Hg1) as (w2' & E2' & Hr & Hb).
  assert (w2 = w2').
  { unfold api_delete, catch500 in E2. rewrite Hforb, E2' in E2. congruence. }
  subst w2'. split; [reflexivity|]. split; [reflexivity|].
  split; [exact Hr|]. split; [exact Hb|].
  intros stem ext Ha Hname. rewrite Hname in Hg1, Hg2.
  split; now apply gone_removed.
Qed.

(** An upload on disk, then its deletion, twice: the two files are
    there before and not after. *)
Lemma delete_is_idempotent_witness :
  (lookup ["srv"; "app"; "uploads"; "1700000000000-k3j2x9.gif"] (root stored_world)
   = Some (File Fixture.gif_bytes 1700000000000)
   /\ lookup ["srv"; "app"; "uploads"; "thumbs"; "1700000000000-k3j2x9_thumb.gif"]
        (root stored_world)
      = Some (File Fixture.gif_bytes 1700000000000))
  /\ fst (api_delete (Fixture.local_cfg "") (delete_request QAbsent) stored_world)
     = Json 200 OkBody
  /\ fst (api_delete (Fixture.local_cfg "") (delete_request QAbsent)
            (snd (api_delete (Fixture.local_cfg "") (delete_request QAbsent)
                    stored_world)))
     = Json 200 OkBody
  /\ removed (Fixture.local_cfg "") "1700000000000-k3j2x9.gif"
       "1700000000000-k3j2x9_thumb.gif"
       (snd (api_delete (Fixture.local_cfg "") (delete_request QAbsent) stored_world)).
Proof.
  split; [split; reflexivity|].
  pose proof (delete_is_idempotent (Fixture.local_cfg "") (delete_request QAbsent)
                stored_world eq_refl
                (conj eq_refl (fun _ => conj eq_refl (conj eq_refl eq_refl))))
    as (H1 & H2 & _ & _ & H5).
  split; [exact H1|]. split; [exact H2|].
  refine (proj1 (H5 "1700000000000-k3j2x9" "gif" _ eq_refl)).
  repeat split; discriminate.
Defined.

(** C8: with an admin secret configured, a Delete whose key is not
    exactly that secret (no key, another string, a repeated parameter)
    answers 403 "forbidden" and returns the world untouched; a Delete
    with the secret runs the deletion, which answers [{ok: true}] and,
    for an id [stem.ext] of the form Upload generates, leaves neither
    [stem.ext] nor [stem_thumb.ext] stored. *)
Theorem delete_checks_secret cfg req w :
  ADMIN_KEY cfg <> "" ->
  (query_key req <> QString (ADMIN_KEY cfg) ->
   api_delete cfg req w = (Json 403 (ErrorBody "forbidden"), w))
  /\ (query_key req = QString (ADMIN_KEY cfg) ->
      api_delete cfg req w = catch500 (delete_try cfg (params_file req)) w
      /\ (deletable cfg (params_file req) w ->
          fst (api_delete cfg req w) = Json 200 OkBody
          /\ forall stem ext,
               asset_name stem ext ->
               params_file req = stem ++ "." ++ ext ->
               removed cfg (stem ++ "." ++ ext) (stem ++ "_thumb." ++ ext)
                 (snd (api_delete cfg req w)))).
Proof.
  intros Hset. pose proof (forbidden_spec cfg req Hset) as Hspec. split.
  - intros Hne. apply Hspec in Hne. unfold api_delete. now rewrite Hne.
  - intros Heq.
    assert (Hforb : forbidden cfg req = false).
    { destruct (forbidden cfg req); [|reflexivity].
      exfalso. now apply (proj1 Hspec eq_refl). }
    split.
    + unfold api_delete. now rewrite Hforb.
    + intros Hd. destruct (api_delete_ok _ _ _ Hforb Hd) as (w' & E & _ & Hg).
      rewrite E. cbn [fst snd]. split; [reflexivity|].
      intros stem ext Ha Hname. rewrite Hname in Hg. now apply gone_removed.
Qed.

(** The scenario of the specification: the secret is [abc]; a Delete
    without key is forbidden and leaves the two files, a Delete with
    [key=abc] succeeds and removes them. *)
Lemma delete_checks_secret_witness :
  api_delete (Fixture.local_cfg "abc") (delete_request QAbsent) stored_world
  = (Json 403 (ErrorBody "forbidden"), stored_world)
  /\ lookup ["srv"; "app"; "uploads"; "thumbs"; "1700000000000-k3j2x9_thumb.gif"]
       (root stored_world)
     = Some (File Fixture.gif_bytes 1700000000000)
  /\ fst (api_delete (Fixture.local_cfg "abc") (delete_request (QString "abc"))
            stored_world)
     = Json 200 OkBody
  /\ removed (Fixture.local_cfg "abc") "1700000000000-k3j2x9.gif"
       "1700000000000-k3j2x9_thumb.gif"
       (snd (api_delete (Fixture.local_cfg "abc") (delete_request (QString "abc"))
               stored_world)).
Proof.
  assert (Hset : ADMIN_KEY (Fixture.local_cfg "abc") <> "") by discriminate.
  split; [|split; [reflexivity|]].
  - apply (proj1 (delete_checks_secret (Fixture.local_cfg "abc")
                    (delete_request QAbsent) stored_world Hset)).
    discriminate.
  - destruct (proj2 (proj2 (delete_checks_secret (Fixture.local_cfg "abc")
                              (delete_request (QString "abc")) stored_world Hset)
                       eq_refl)
                (conj eq_refl (fun _ => conj eq_refl (conj eq_refl eq_refl))))
      as (Hok & Hrm).
    split; [exact Hok|].
    refine (Hrm "1700000000000-k3j2x9" "gif" _ eq_refl).
    repeat split; discriminate.
Defined.

(** C10: with no admin secret (the default, [ADMIN_KEY] empty) the check
    is vacuous: whatever key is supplied, or none, Delete goes on to the
    deletion and never answers 403; the deletion answers [{ok: true}]
    and, for an id [stem.ext] of the form Upload generates, leaves
    neither [stem.ext] nor [stem_thumb.ext] stored. *)
Theorem delete_without_secret_is_open cfg req w :
  ADMIN_KEY cfg = "" ->
  api_delete cfg req w = catch500 (delete_try cfg (params_file req)) w
  /\ (forall body, fst (api_delete cfg req w) <> Json 403 body)
  /\ (deletable cfg (params_file req) w ->
      fst (api_delete cfg req w) = Json 200 OkBody
      /\ forall stem ext,
           asset_name stem ext ->
           params_file req = stem ++ "." ++ ext ->
           removed cfg (stem ++ "." ++ ext) (stem ++ "_thumb." ++ ext)
             (snd (api_delete cfg req w))).
Proof.
  intros Hunset.
  assert (Hforb : forbidden cfg req = false).
  { unfold forbidden. now rewrite Hunset. }
  assert (E : api_delete cfg req w = catch500 (delete_try cfg (params_file req)) w).
  { unfold api_delete. now rewrite Hforb. }
  split; [exact E|]. split.
  - intros body. rewrite E.
    destruct (delete_catch_status cfg (params_file req) w) as [H|H];
      rewrite H; discriminate.
  - intros Hd. destruct (api_delete_ok _ _ _ Hforb Hd) as (w' & E' & _ & Hg).
    rewrite E'. cbn [fst snd]. split; [reflexivity|].
    intros stem ext Ha Hname. rewrite Hname in Hg. now apply gone_removed.
Qed.

(** Without a secret, a guessed key is not refused, and a Delete with
    no key at all removes the two objects one upload left in the
    bucket. *)
Lemma delete_without_secret_is_open_witness :
  (forall body,
     fst (api_delete (Fixture.s3_cfg "") (delete_request (QString "guess"))
            (Fixture.world Fixture.fresh_tree []))
     <> Json 403 body)
  /\ (bucket_has "images/1700000000000-k3j2x9.gif" (bucket bucket_after_upload) = true
      /\ bucket_has "images/1700000000000-k3j2x9_thumb.gif" (bucket bucket_after_upload)
         = true)
  /\ fst (api_delete (Fixture.s3_cfg "") (delete_request QAbsent) bucket_after_upload)
     = Json 200 OkBody
  /\ removed (Fixture.s3_cfg "") "1700000000000-k3j2x9.gif"
       "1700000000000-k3j2x9_thumb.gif"
       (snd (api_delete (Fixture.s3_cfg "") (delete_request QAbsent)
               bucket_after_upload)).
Proof.
  split; [|split; [split; reflexivity|]].
  - exact (proj1 (proj2 (delete_without_secret_is_open (Fixture.s3_cfg "")
                           (delete_request (QString "guess"))
                           (Fixture.world Fixture.fresh_tree []) eq_refl))).
  - destruct (proj2 (proj2 (delete_without_secret_is_open (Fixture.s3_cfg "")
                              (delete_request QAbsent) bucket_after_upload eq_refl))
                (conj eq_refl (fun H : is_s3 (Fixture.s3_cfg "") = false =>
                                 False_ind _ (diff_true_false H))))
      as (Hok & Hrm).
    split; [exact Hok|].
    refine (Hrm "1700000000000-k3j2x9" "gif" _ eq_refl).
    repeat split; discriminate.
Defined.

(** ** Worked instances *)

Lemma gif_upload_regular : regular_names Fixture.lib gif_upload gif_declared_png.
Proof. repeat split. Defined.

Lemma upload_thumbnailer_failure_stores_nothing_witness :
  api_upload Fixture.lib (Fixture.local_cfg "") empty_upload
    (Fixture.world Fixture.fresh_tree [])
  = (server_error, Fixture.world Fixture.fresh_tree []).
Proof.
  apply (upload_thumbnailer_failure_stores_nothing Fixture.lib (Fixture.local_cfg "")
           empty_upload empty_png); try reflexivity.
  vm_compute. discriminate.
Defined.

Lemma upload_original_failure_stops_witness :
  api_upload Fixture.lib (Fixture.s3_cfg "") gif_upload s3_first_put_fails
  = (server_error,
     snd (api_upload Fixture.lib (Fixture.s3_cfg "") gif_upload s3_first_put_fails))
  /\ calls (snd (api_upload Fixture.lib (Fixture.s3_cfg "") gif_upload
                   s3_first_put_fails))
     = ([] ++ [PutObject "images/1700000000000-k3j2x9.gif"])%list
  /\ root (snd (api_upload Fixture.lib (Fixture.s3_cfg "") gif_upload
                  s3_first_put_fails))
     = Fixture.fresh_tree
  /\ bucket (snd (api_upload Fixture.lib (Fixture.s3_cfg "") gif_upload
                    s3_first_put_fails))
     = [].
Proof.
  refine (upload_original_failure_stops Fixture.lib (Fixture.s3_cfg "") gif_upload
            gif_declared_png Fixture.gif_bytes s3_first_put_fails BackendFault _
            eq_refl _ eq_refl eq_refl eq_refl).
  vm_compute. discriminate.
Defined.


Lemma upload_local_succeeds_witness :
  fst (api_upload Fixture.lib (Fixture.local_cfg "") gif_upload
         (Fixture.world Fixture.fresh_tree []))
  = Json 200 (Uploaded
      {| m_file := "1700000000000-k3j2x9.gif";
         m_url := "http://localhost:3000/uploads/1700000000000-k3j2x9.gif";
         m_thumbnail :=
           "http://localhost:3000/uploads/thumbs/1700000000000-k3j2x9_thumb.gif";
         m_mime := "image/gif"; m_size := 8; m_date := 1700000000000 |})
  /\ (exists m,
        resolve (original_path (Fixture.local_cfg "") "1700000000000-k3j2x9.gif")
          (root stored_world)
        = Some (File Fixture.gif_bytes m))
  /\ (exists m,
        resolve (thumbnail_path (Fixture.local_cfg "") "1700000000000-k3j2x9.gif")
          (root stored_world)
        = Some (File Fixture.gif_bytes m))
  /\ bucket stored_world = [].
Proof.
  refine (upload_local_succeeds Fixture.lib (Fixture.local_cfg "")
            gif_upload gif_declared_png Fixture.gif_bytes
            (Fixture.world Fixture.fresh_tree [])
            [("thumbs", Dir [])] []
            eq_refl eq_refl eq_refl eq_refl _ eq_refl eq_refl
            gif_upload_regular eq_refl eq_refl _ _).
  - vm_compute. discriminate.
  - intros cs. vm_compute. discriminate.
  - intros cs. vm_compute. discriminate.
Defined.

Lemma upload_s3_urls_against_list_witness :
  exists meta,
    fst (api_upload Fixture.lib (Fixture.s3_cfg "") gif_upload
           (Fixture.world Fixture.fresh_tree []))
    = Json 200 (Uploaded meta)
    /\ m_file meta = e_file (s3_entry (Fixture.s3_cfg "") uploaded_original)
    /\ m_url meta = e_url (s3_entry (Fixture.s3_cfg "") uploaded_original)
    /\ m_thumbnail meta
       = "https://pics.s3.eu-west-1.amazonaws.com/images%2F1700000000000-k3j2x9_thumb.gif"
    /\ e_thumbnail (s3_entry (Fixture.s3_cfg "") uploaded_original)
       = "https://pics.s3.eu-west-1.amazonaws.com/images/1700000000000-k3j2x9_thumb.gif"
    /\ m_thumbnail meta <> e_thumbnail (s3_entry (Fixture.s3_cfg "") uploaded_original).
Proof.
  refine (upload_s3_urls_against_list Fixture.lib (Fixture.s3_cfg "") gif_upload
            gif_declared_png Fixture.gif_bytes (Fixture.world Fixture.fresh_tree [])
            uploaded_original
            eq_refl eq_refl eq_refl eq_refl _ eq_refl eq_refl gif_upload_regular eq_refl).
  vm_compute. discriminate.
Defined.

Lemma upload_then_delete_restores_bucket_witness :
  fst (api_delete (Fixture.s3_cfg "") (delete_request QAbsent) bucket_after_upload)
  = Json 200 OkBody
  /\ bucket (snd (api_delete (Fixture.s3_cfg "") (delete_request QAbsent)
                    bucket_after_upload))
     = [].
Proof.
  refine (upload_then_delete_restores_bucket Fixture.lib (Fixture.s3_cfg "") gif_upload
            (delete_request QAbsent) gif_declared_png Fixture.gif_bytes
            (Fixture.world Fixture.fresh_tree [])
            eq_refl eq_refl eq_refl _ eq_refl eq_refl gif_upload_regular
            eq_refl eq_refl eq_refl eq_refl).
  vm_compute. discriminate.
Defined.



Lemma upload_urls_are_the_listed_urls_witness :
  exists meta items e,
    fst (api_upload Fixture.lib (Fixture.local_cfg "") gif_upload
           (Fixture.world Fixture.fresh_tree []))
    = Json 200 (Uploaded meta)
    /\ fst (api_list (Fixture.local_cfg "") list_request stored_world)
       = Json 200 (Listing items)
    /\ In e items
    /\ e_file e = m_file meta
    /\ e_url e = m_url meta
    /\ e_thumbnail e = m_thumbnail meta
    /\ e_size e = m_size meta.
Proof.
  refine (upload_urls_are_the_listed_urls Fixture.lib (Fixture.local_cfg "") gif_upload
            list_request gif_declared_png Fixture.gif_bytes
            (Fixture.world Fixture.fresh_tree []) [("thumbs", Dir [])] []
            eq_refl eq_refl eq_refl _ eq_refl eq_refl gif_upload_regular eq_refl eq_refl
            eq_refl eq_refl _ _ eq_refl eq_refl _).
  - vm_compute. discriminate.
  - repeat constructor.
  - repeat constructor. cbn [map fst In]. tauto.
  - intros cs. discriminate.
Defined.

Lemma delete_leaves_everything_else_witness :
  (root (snd (api_delete (Fixture.s3_cfg "") (delete_request QAbsent)
                (Fixture.world Fixture.fresh_tree (multi_dot_object :: bucket bucket_after_upload))))
   = Fixture.fresh_tree
   /\ (In multi_dot_object
         (bucket (snd (api_delete (Fixture.s3_cfg "") (delete_request QAbsent)
                         (Fixture.world Fixture.fresh_tree
                            (multi_dot_object :: bucket bucket_after_upload)))))
       <-> In multi_dot_object (multi_dot_object :: bucket bucket_after_upload)))
  /\ (bucket (snd (api_delete (Fixture.local_cfg "") (delete_request QAbsent)
                     stored_world))
      = []
      /\ same_kind
           (resolve {| segments := ["srv"; "app"; "uploads"; "thumbs"];
                       trailing_slash := false |} (root stored_world))
           (resolve {| segments := ["srv"; "app"; "uploads"; "thumbs"];
                       trailing_slash := false |}
              (root (snd (api_delete (Fixture.local_cfg "") (delete_request QAbsent)
                            stored_world))))).
Proof.
  split.
  - destruct (proj1 (delete_leaves_everything_else (Fixture.s3_cfg "")
                       (delete_request QAbsent)
                       (Fixture.world Fixture.fresh_tree
                          (multi_dot_object :: bucket bucket_after_upload))) eq_refl)
      as (Hroot & Hothers).
    split; [exact Hroot|]. apply Hothers; vm_compute; discriminate.
  - destruct (proj2 (delete_leaves_everything_else (Fixture.local_cfg "")
                       (delete_request QAbsent) stored_world) eq_refl)
      as (Hbucket & Hothers).
    split; [exact Hbucket|]. apply Hothers; vm_compute; discriminate.
Defined.

Lemma delete_of_directory_fails_witness :
  fst (api_delete (Fixture.local_cfg "") (Fixture.http_request None QAbsent "thumbs")
         stored_world)
  = server_error
  /\ root (snd (api_delete (Fixture.local_cfg "")
                  (Fixture.http_request None QAbsent "thumbs") stored_world))
     = root stored_world
  /\ bucket (snd (api_delete (Fixture.local_cfg "")
                    (Fixture.http_request None QAbsent "thumbs") stored_world))
     = bucket stored_world.
Proof.
  exact (delete_of_directory_fails (Fixture.local_cfg "")
           (Fixture.http_request None QAbsent "thumbs") stored_world
           eq_refl eq_refl eq_refl).
Defined.

Lemma delete_reaches_beside_uploads_witness :
  fst (api_delete (Fixture.local_cfg "")
         (Fixture.http_request None QAbsent "../server.js")
         (Fixture.world tree_with_source []))
  = Json 200 OkBody
  /\ lookup ["srv"; "app"; "server.js"]
       (root (snd (api_delete (Fixture.local_cfg "")
                     (Fixture.http_request None QAbsent "../server.js")
                     (Fixture.world tree_with_source []))))
     = None.
Proof.
  exact (delete_reaches_beside_uploads (Fixture.local_cfg "")
           (Fixture.http_request None QAbsent "../server.js") "server.js"
           [x2f; x2f] 1600000000000 (Fixture.world tree_with_source [])
           eq_refl eq_refl eq_refl eq_refl eq_refl eq_refl eq_refl eq_refl).
Defined.

Lemma delete_s3_second_failure_keeps_first_witness :
  fst (api_delete (Fixture.s3_cfg "") (delete_request QAbsent) bucket_failing_second)
  = server_error
  /\ bucket (snd (api_delete (Fixture.s3_cfg "") (delete_request QAbsent)
                    bucket_failing_second))
     = bucket_delete "images/1700000000000-k3j2x9.gif" (bucket bucket_after_upload)
  /\ root (snd (api_delete (Fixture.s3_cfg "") (delete_request QAbsent)
                  bucket_failing_second))
     = Fixture.fresh_tree.
Proof.
  exact (delete_s3_second_failure_keeps_first (Fixture.s3_cfg "")
           (delete_request QAbsent) bucket_failing_second
           eq_refl eq_refl eq_refl eq_refl).
Defined.

Lemma list_s3_is_one_page_witness :
  (length listed_after_upload <= MaxKeys)%nat
  /\ Forall (fun e =>
               exists o,
                 In o (firstn MaxKeys
                         (filter (fun o => JS.startsWith "images/" (Key o))
                            (bucket bucket_after_upload)))
                 /\ e = s3_entry (Fixture.s3_cfg "") o) listed_after_upload.
Proof.
  apply (list_s3_is_one_page (Fixture.s3_cfg "") list_request bucket_after_upload
           listed_after_upload eq_refl).
  vm_compute. reflexivity.
Defined.

Lemma list_s3_names_what_delete_removes_witness :
  e_file (s3_entry (Fixture.s3_cfg "") multi_dot_object) = "a.b.png"
  /\ fst (api_delete (Fixture.s3_cfg "") (Fixture.http_request None QAbsent "a.b.png")
            (Fixture.world Fixture.fresh_tree [multi_dot_object]))
     = Json 200 OkBody
  /\ bucket_has (Key multi_dot_object)
       (bucket (snd (api_delete (Fixture.s3_cfg "")
                       (Fixture.http_request None QAbsent "a.b.png")
                       (Fixture.world Fixture.fresh_tree [multi_dot_object]))))
     = false.
Proof.
  assert (Hne : "a.b.png" <> "") by discriminate.
  destruct (list_s3_names_what_delete_removes (Fixture.s3_cfg "")
              (Fixture.http_request None QAbsent "a.b.png") multi_dot_object "a.b.png"
              (Fixture.world Fixture.fresh_tree [multi_dot_object])
              eq_refl Hne eq_refl eq_refl) as (Hname & Hdelete).
  split; [exact Hname|]. exact (Hdelete eq_refl eq_refl eq_refl).
Defined.

Lemma list_local_lists_the_regular_files_witness :
  exists items,
    fst (api_list (Fixture.local_cfg "") list_request stored_world)
    = Json 200 (Listing items)
    /\ Permutation items
         (map (listed_entry (Fixture.local_cfg "") list_request)
            (filter listed
               [("thumbs",
                 Dir [("1700000000000-k3j2x9_thumb.gif",
                       File Fixture.gif_bytes 1700000000000)]);
                ("1700000000000-k3j2x9.gif",
                 File Fixture.gif_bytes 1700000000000)]))
    /\ Sorted newer_first items.
Proof.
  apply (list_local_lists_the_regular_files (Fixture.local_cfg "") list_request
           stored_world); try reflexivity.
  - repeat constructor.
  - repeat constructor; cbn [map fst In]; intuition discriminate.
Defined.

Lemma list_local_sorted_originals_witness :
  Sorted newer_first
    [listed_entry (Fixture.local_cfg "") list_request
       ("1700000000000-k3j2x9.gif", File Fixture.gif_bytes 1700000000000)]
  /\ Forall (fun e =>
               e_file e <> "thumbs"
               /\ e_thumbnail e
                  = getBaseUrl (Fixture.local_cfg "") list_request
                    ++ "/uploads/thumbs/" ++ extname_thumb_name (e_file e))
       [listed_entry (Fixture.local_cfg "") list_request
          ("1700000000000-k3j2x9.gif", File Fixture.gif_bytes 1700000000000)].
Proof.
  apply (list_local_sorted_originals (Fixture.local_cfg "") list_request stored_world
           _ (snd (api_list (Fixture.local_cfg "") list_request stored_world)) eq_refl).
  vm_compute. reflexivity.
Defined.

Lemma startup_prepares_the_directories_witness :
  (exists es t,
     lookup (UPLOAD_DIR (Fixture.local_cfg "")) Fixture.fresh_tree = Some (Dir es)
     /\ assoc_find "thumbs" es = Some t
     /\ (is_dir t = true
         \/ lookup (THUMB_DIR (Fixture.local_cfg "")) tree_before_start = Some t))
  /\ (forall x d m,
        lookup x tree_before_start = Some (File d m) ->
        lookup x Fixture.fresh_tree = Some (File d m))
  /\ startup (Fixture.local_cfg "") Fixture.fresh_tree = Some Fixture.fresh_tree.
Proof.
  exact (startup_prepares_the_directories (Fixture.local_cfg "") tree_before_start
           Fixture.fresh_tree eq_refl eq_refl).
Defined.

Lemma unknown_storage_is_never_prepared_witness :
  startup disk_cfg tree_before_start = Some tree_before_start
  /\ fst (api_list disk_cfg list_request (Fixture.world tree_before_start []))
     = server_error.
Proof.
  apply (unknown_storage_is_never_prepared disk_cfg list_request
           (Fixture.world tree_before_start []));
    [discriminate | discriminate | reflexivity].
Defined.

Lemma getBaseUrl_sources_witness :
  getBaseUrl (cdn_cfg "https://cdn.example/") proxied_request = "https://cdn.example"
  /\ getBaseUrl (cdn_cfg "https://cdn.example") proxied_request = "https://cdn.example"
  /\ getBaseUrl (cdn_cfg "https://cdn.example") list_request
     = getBaseUrl (cdn_cfg "https://cdn.example") proxied_request
  /\ getBaseUrl (Fixture.local_cfg "") proxied_request = "https://pics.example".
Proof.
  assert (Hne1 : "https://cdn.example/" <> "") by discriminate.
  assert (Hne2 : "https://cdn.example" <> "") by discriminate.
  assert (Hp : "https" <> "") by discriminate.
  assert (Hh : "pics.example" <> "") by discriminate.
  split; [|split; [|split]].
  - exact (proj1 (proj2 (proj1 (getBaseUrl_sources (cdn_cfg "https://cdn.example/")
                                  proxied_request)
                           "https://cdn.example/" eq_refl Hne1))
             "https://cdn.example" eq_refl).
  - exact (proj2 (proj2 (proj1 (getBaseUrl_sources (cdn_cfg "https://cdn.example")
                                  proxied_request)
                           "https://cdn.example" eq_refl Hne2))
             eq_refl).
  - exact (proj1 (proj1 (getBaseUrl_sources (cdn_cfg "https://cdn.example")
                           proxied_request)
                    "https://cdn.example" eq_refl Hne2)
             list_request).
  - exact (proj2 (getBaseUrl_sources (Fixture.local_cfg "") proxied_request) eq_refl
             "https" "pics.example" eq_refl Hp eq_refl Hh).
Defined.
